(** * Agentic-MIS: the deterministic core of the BI agent pipeline

    A shallow embedding of the Python sources
      - [bi_agent/db_config.py]  (engine creation, schema reader),
      - [bi_agent/tools.py]      (query tools, result envelopes),
      - [evaluate_sql.py]        (the rate-limit retry loop),
      - [app.py]                 (the presentation adapter),
    together with the fragment of the Python runtime they rely on
    (strings, dictionaries, exceptions, [json.dumps] / [json.loads]).

    Conventions.
    - A Python [str] is a Rocq [string]; each character stands for the code
      point of the same number, so the model covers code points below 256.
    - A Python [int] is a [Z]; a [float] is known by the literal that
      [repr] writes for it.
    - A Python [dict] is an association list in insertion order.
    - A call that may raise returns a [result]; [try]/[except] is a catch
      combinator that looks at the class of the exception.
    - Calls into the database are recorded in a trace of [db_event]s. *)

From Stdlib Require Import ZArith Ascii String DecimalN DecimalPos Lia OrderedTypeEx.
From stdpp Require Import base list sorting strings.
Local Open Scope string_scope.

(* ===================================================================== *)
(** * Python runtime fragment *)
(* ===================================================================== *)

Module Py.

(** ** Characters and strings *)

Definition code (c : ascii) : nat := nat_of_ascii c.

(** [str.isspace] on one character, for code points below 256. *)
Definition isspace (c : ascii) : bool :=
  let n := code c in
  ((9 <=? n) && (n <=? 13) || (28 <=? n) && (n <=? 32)
   || (n =? 133) || (n =? 160))%nat.

Definition is_upper (c : ascii) : bool := ((65 <=? code c) && (code c <=? 90))%nat.
Definition is_lower (c : ascii) : bool := ((97 <=? code c) && (code c <=? 122))%nat.
Definition is_alpha (c : ascii) : bool := is_upper c || is_lower c.
Definition is_digit (c : ascii) : bool := ((48 <=? code c) && (code c <=? 57))%nat.

Definition lower_char (c : ascii) : ascii :=
  if is_upper c then ascii_of_nat (code c + 32) else c.
Definition upper_char (c : ascii) : ascii :=
  if is_lower c then ascii_of_nat (code c - 32) else c.

Fixpoint map_string (f : ascii -> ascii) (s : string) : string :=
  match s with
  | EmptyString => EmptyString
  | String c s' => String (f c) (map_string f s')
  end.

(** [s.lower()] and [s.upper()] (ASCII letters). *)
Definition lower (s : string) : string := map_string lower_char s.
Definition upper (s : string) : string := map_string upper_char s.

Fixpoint lstrip (s : string) : string :=
  match s with
  | EmptyString => EmptyString
  | String c s' => if isspace c then lstrip s' else s
  end.

Fixpoint rstrip (s : string) : string :=
  match s with
  | EmptyString => EmptyString
  | String c s' =>
      match rstrip s' with
      | EmptyString => if isspace c then EmptyString else String c EmptyString
      | r => String c r
      end
  end.

(** [s.strip()] *)
Definition strip (s : string) : string := rstrip (lstrip s).

(** [s.startswith(p)] *)
Fixpoint startswith (s p : string) : bool :=
  match p, s with
  | EmptyString, _ => true
  | String a p', String b s' => Ascii.eqb a b && startswith s' p'
  | String _ _, EmptyString => false
  end.

(** [needle in hay] on strings. *)
Fixpoint contains (hay needle : string) : bool :=
  startswith hay needle ||
  match hay with
  | EmptyString => false
  | String _ hay' => contains hay' needle
  end.

(** [s.replace(old, new)] for a non-empty [old]: occurrences are replaced
    from left to right and do not overlap.  [skip] counts the characters of
    a matched occurrence that are still to be dropped. *)
Fixpoint replace_from (skip : nat) (old new s : string) : string :=
  match s with
  | EmptyString => EmptyString
  | String c s' =>
      match skip with
      | S k => replace_from k old new s'
      | O =>
          if startswith s old
          then new ++ replace_from (String.length old - 1) old new s'
          else String c (replace_from 0 old new s')
      end
  end.

Definition replace (s old new : string) : string :=
  match old with
  | EmptyString => s
  | _ => replace_from 0 old new s
  end.

(** [str(n)] for an [int]. *)
Fixpoint uint_digits (d : Decimal.uint) : string :=
  match d with
  | Decimal.Nil => EmptyString
  | Decimal.D0 d => String "0" (uint_digits d)
  | Decimal.D1 d => String "1" (uint_digits d)
  | Decimal.D2 d => String "2" (uint_digits d)
  | Decimal.D3 d => String "3" (uint_digits d)
  | Decimal.D4 d => String "4" (uint_digits d)
  | Decimal.D5 d => String "5" (uint_digits d)
  | Decimal.D6 d => String "6" (uint_digits d)
  | Decimal.D7 d => String "7" (uint_digits d)
  | Decimal.D8 d => String "8" (uint_digits d)
  | Decimal.D9 d => String "9" (uint_digits d)
  end.

Definition str_int (z : Z) : string :=
  match z with
  | Zneg p => String "-" (uint_digits (Pos.to_uint p))
  | _ => uint_digits (N.to_uint (Z.to_N z))
  end.

(** ** Floats *)

Inductive digit := d0 | d1 | d2 | d3 | d4 | d5 | d6 | d7 | d8 | d9.

(** A digit in front of a sequence of digits, and back. *)
Definition cons_digit (d : digit) (u : Decimal.uint) : Decimal.uint :=
  match d with
  | d0 => Decimal.D0 u | d1 => Decimal.D1 u | d2 => Decimal.D2 u
  | d3 => Decimal.D3 u | d4 => Decimal.D4 u | d5 => Decimal.D5 u
  | d6 => Decimal.D6 u | d7 => Decimal.D7 u | d8 => Decimal.D8 u
  | d9 => Decimal.D9 u
  end.

Definition uncons_digit (u : Decimal.uint) : option (digit * Decimal.uint) :=
  match u with
  | Decimal.Nil => None
  | Decimal.D0 u => Some (d0, u) | Decimal.D1 u => Some (d1, u)
  | Decimal.D2 u => Some (d2, u) | Decimal.D3 u => Some (d3, u)
  | Decimal.D4 u => Some (d4, u) | Decimal.D5 u => Some (d5, u)
  | Decimal.D6 u => Some (d6, u) | Decimal.D7 u => Some (d7, u)
  | Decimal.D8 u => Some (d8, u) | Decimal.D9 u => Some (d9, u)
  end.

(** A [float].  A finite float is known by the literal that [repr]
    writes for it: a sign, the whole part, and then at least one digit of
    fraction ([1.5], [100.0], [-0.0]) or an exponent after an optional
    fraction ([1e+16], [1.5e-07]).  Python rounds a literal to the nearest
    float; the model keeps the literal, so that two literals of one float
    ([1.50] and [1.5]) are two values of the model, which [==] below
    compares by the numbers they write. *)
Inductive pyfloat : Type :=
| FNaN
| FInfinity (negative : bool)
| FFixed (negative : bool) (whole : N) (tenths : digit) (rest : Decimal.uint)
| FSci (negative : bool) (whole : N) (fraction : Decimal.uint) (exponent : Z).

(** The number a float stands for: not a number, an infinity, or
    [mantissa * 10 ^ exponent]. *)
Inductive number : Type :=
| NotANumber
| Infinite (negative : bool)
| Scaled (mantissa exponent : Z).

Definition signed (negative : bool) (n : Z) : Z := if negative then (- n)%Z else n.

Definition number_of_float (f : pyfloat) : number :=
  match f with
  | FNaN => NotANumber
  | FInfinity negative => Infinite negative
  | FFixed negative whole tenths rest =>
      let fraction := cons_digit tenths rest in
      let places := Z.of_nat (Decimal.nb_digits fraction) in
      Scaled (signed negative (Z.of_N whole * 10 ^ places + Z.of_N (N.of_uint fraction)))
             (- places)
  | FSci negative whole fraction exponent =>
      let places := Z.of_nat (Decimal.nb_digits fraction) in
      Scaled (signed negative (Z.of_N whole * 10 ^ places + Z.of_N (N.of_uint fraction)))
             (exponent - places)
  end.

(** [a == b] on numbers: [nan] equals nothing, itself included. *)
Definition number_eq (a b : number) : bool :=
  match a, b with
  | Infinite s, Infinite t => Bool.eqb s t
  | Scaled m e, Scaled n f =>
      let low := Z.min e f in
      (m * 10 ^ (e - low) =? n * 10 ^ (f - low))%Z
  | _, _ => false
  end.

(** ** Values *)

(** The values that travel through dictionaries and JSON text.  [PObject]
    stands for an object of any other class (a pandas [Timestamp], a
    [Decimal], ...), named by its class. *)
#[warnings="-register-all"]
Inductive pyval : Type :=
| PNone
| PBool (b : bool)
| PInt (z : Z)
| PFloat (f : pyfloat)
| PStr (s : string)
| PList (l : list pyval)
| PDict (d : list (string * pyval))
| PObject (cls : string).

Definition dict := list (string * pyval).

(** The number a value is, if it is one ([bool] is a subclass of [int]). *)
Definition as_number (v : pyval) : option number :=
  match v with
  | PBool b => Some (Scaled (if b then 1 else 0) 0)
  | PInt z => Some (Scaled z 0)
  | PFloat f => Some (number_of_float f)
  | _ => None
  end.

(** [bool(v)] *)
Definition truthy (v : pyval) : bool :=
  match v with
  | PNone => false
  | PBool b => b
  | PInt z => negb (z =? 0)%Z
  | PFloat f =>
      match number_of_float f with
      | Scaled m _ => negb (m =? 0)%Z
      | _ => true
      end
  | PStr s => negb (String.eqb s EmptyString)
  | PList l => match l with [] => false | _ => true end
  | PDict d => match d with [] => false | _ => true end
  | PObject _ => true
  end.

(** [type(v).__name__] *)
Definition type_name (v : pyval) : string :=
  match v with
  | PNone => "NoneType"
  | PBool _ => "bool"
  | PInt _ => "int"
  | PFloat _ => "float"
  | PStr _ => "str"
  | PList _ => "list"
  | PDict _ => "dict"
  | PObject cls => cls
  end.

Section Dict.
Context {V : Type}.

(** [d.get(k)] *)
Fixpoint lookup (k : string) (d : list (string * V)) : option V :=
  match d with
  | [] => None
  | (k', v) :: d' => if String.eqb k k' then Some v else lookup k d'
  end.

(** [d.get(k, default)] *)
Definition get (k : string) (default : V) (d : list (string * V)) : V :=
  match lookup k d with Some v => v | None => default end.

(** [d[k] = v]: an existing key keeps its place, a new key goes last. *)
Fixpoint set (k : string) (v : V) (d : list (string * V)) : list (string * V) :=
  match d with
  | [] => [(k, v)]
  | (k', v') :: d' =>
      if String.eqb k k' then (k, v) :: d' else (k', v') :: set k v d'
  end.

(** [dict(pairs)] *)
Definition of_pairs (l : list (string * V)) : list (string * V) :=
  fold_left (fun d kv => set (fst kv) (snd kv) d) l [].

(** [list(d.keys())] *)
Definition keys (d : list (string * V)) : list string := map fst d.

End Dict.

(** [v == w] on the values above: numbers compare by value across [bool],
    [int] and [float], lists item by item, dictionaries key by key
    whatever the order of their keys.  Objects of other classes compare
    as their class defines, which the model does not know: they are
    taken to differ. *)
Fixpoint py_eq (v w : pyval) : bool :=
  match as_number v, as_number w with
  | Some a, Some b => number_eq a b
  | Some _, None | None, Some _ => false
  | None, None =>
      match v, w with
      | PNone, PNone => true
      | PStr s, PStr t => String.eqb s t
      | PList l, PList m =>
          (fix all2 (l m : list pyval) : bool :=
             match l, m with
             | [], [] => true
             | x :: l', y :: m' => py_eq x y && all2 l' m'
             | _, _ => false
             end) l m
      | PDict d, PDict d' =>
          (length d =? length d')%nat
          && forallb (fun kv => match lookup (fst kv) d' with
                                | Some y => py_eq (snd kv) y
                                | None => false
                                end) d
      | _, _ => false
      end
  end.

(** ** Exceptions *)

(** An exception is known by its place in the class hierarchy (whether it
    derives from [Exception], or only from [BaseException], as
    [SystemExit], [KeyboardInterrupt] and [GeneratorExit] do) and by
    [str(e)]. *)
Record exn := { is_Exception : bool; exn_str : string }.

Definition Exception (msg : string) : exn :=
  {| is_Exception := true; exn_str := msg |}.

Inductive result (A : Type) : Type :=
| Return (a : A)
| Raise (e : exn).
Arguments Return {A} a.
Arguments Raise {A} e.

Definition bind {A B} (r : result A) (k : A -> result B) : result B :=
  match r with
  | Return a => k a
  | Raise e => Raise e
  end.

(** [try: body  except Exception as e: handler(e)] *)
Definition try_except_Exception {A} (body : result A) (handler : exn -> result A)
  : result A :=
  match body with
  | Return a => Return a
  | Raise e => if is_Exception e then handler e else Raise e
  end.

(** [try: body  except: handler] *)
(** [type(v).tp_name], the name the [TypeError] of an operation shows:
    the classes of the standard library that are written in C carry
    their module. *)
Definition tp_name (v : pyval) : string :=
  match v with
  | PObject cls =>
      if String.eqb cls "Decimal" then "decimal.Decimal"
      else if existsb (String.eqb cls) ["datetime"; "date"; "time"; "timedelta"]
           then "datetime." ++ cls
      else cls
  | _ => type_name v
  end.

Definition try_except_all {A} (body : result A) (handler : result A) : result A :=
  match body with
  | Return a => Return a
  | Raise _ => handler
  end.

(** The [AttributeError] of [v.attr] when [v] has no such attribute. *)
Definition AttributeError (v : pyval) (attr : string) : exn :=
  Exception ("'" ++ type_name v ++ "' object has no attribute '" ++ attr ++ "'").

End Py.

#[export] Instance result_ret : MRet Py.result := @Py.Return.
#[export] Instance result_bind : MBind Py.result := fun A B k r => Py.bind r k.

(* ===================================================================== *)
(** * The [json] module: [json.dumps] and [json.loads] *)
(* ===================================================================== *)

(** The encoder follows [json.dumps] with its defaults ([ensure_ascii],
    [allow_nan], separators [", "] and [": "], or [","] and [": "] under
    [indent]); the decoder follows [json.loads]: a number with a fraction
    or an exponent, [NaN], [Infinity] and [-Infinity] are floats.  [\u]
    escapes of code points above 255 are outside the model. *)

Module Json.
Import Py.
Local Open Scope list_scope.

Definition dquote : ascii := "034"%char.
Definition backslash : ascii := "092"%char.
Definition newline : ascii := "010"%char.

(** *** Encoding *)

Definition hex_digit (n : nat) : ascii :=
  if (n <? 10)%nat then ascii_of_nat (48 + n) else ascii_of_nat (87 + n).

(** [ensure_ascii]: everything outside [' '..'~'] is escaped. *)
Definition escape_char (c : ascii) : list ascii :=
  if Ascii.eqb c dquote then [backslash; dquote]
  else if Ascii.eqb c backslash then [backslash; backslash]
  else if Ascii.eqb c "010" then [backslash; "n"%char]
  else if Ascii.eqb c "013" then [backslash; "r"%char]
  else if Ascii.eqb c "009" then [backslash; "t"%char]
  else if Ascii.eqb c "008" then [backslash; "b"%char]
  else if Ascii.eqb c "012" then [backslash; "f"%char]
  else if ((code c <? 32) || (126 <? code c))%nat
       then [backslash; "u"%char; "0"%char; "0"%char;
             hex_digit (code c / 16); hex_digit (code c mod 16)]
  else [c].

Definition encode_chars (l : list ascii) : list ascii :=
  dquote :: flat_map escape_char l ++ [dquote].

Definition encode_string (s : string) : list ascii :=
  encode_chars (list_ascii_of_string s).

Definition newline_indent (indent : option nat) (level : nat) : list ascii :=
  match indent with
  | None => []
  | Some n => newline :: repeat " "%char (n * level)
  end.

Definition item_separator (indent : option nat) (level : nat) : list ascii :=
  match indent with
  | None => [","%char; " "%char]
  | Some _ => ","%char :: newline_indent indent level
  end.

Definition key_separator : list ascii := [":"%char; " "%char].

Fixpoint join (sep : list ascii) (items : list (list ascii)) : list ascii :=
  match items with
  | [] => []
  | [x] => x
  | x :: rest => x ++ sep ++ join sep rest
  end.

Definition digit_char (d : digit) : ascii :=
  match d with
  | d0 => "0" | d1 => "1" | d2 => "2" | d3 => "3" | d4 => "4"
  | d5 => "5" | d6 => "6" | d7 => "7" | d8 => "8" | d9 => "9"
  end%char.

(** The exponent as [repr] writes it: a sign and at least two digits. *)
Definition exponent_text (e : Z) : string :=
  let digits := uint_digits (N.to_uint (Z.to_N (Z.abs e))) in
  String "e" (String (if (e <? 0)%Z then "-" else "+")%char
     (if (Z.abs e <? 10)%Z then String "0" digits else digits)).

(** [floatstr] of the encoder: [float.__repr__] for a finite float, and
    the JavaScript spellings [NaN], [Infinity], [-Infinity] otherwise. *)
Definition floatstr (f : pyfloat) : string :=
  let sign (negative : bool) := if negative then "-" else EmptyString in
  match f with
  | FNaN => "NaN"
  | FInfinity negative => (sign negative ++ "Infinity")%string
  | FFixed negative whole tenths rest =>
      (sign negative ++ uint_digits (N.to_uint whole) ++ "."
       ++ String (digit_char tenths) (uint_digits rest))%string
  | FSci negative whole fraction exponent =>
      (sign negative ++ uint_digits (N.to_uint whole)
       ++ match fraction with
          | Decimal.Nil => EmptyString
          | _ => String "." (uint_digits fraction)
          end
       ++ exponent_text exponent)%string
  end.

Fixpoint encode (indent : option nat) (level : nat) (v : pyval) : list ascii :=
  match v with
  | PNone => list_ascii_of_string "null"
  | PBool true => list_ascii_of_string "true"
  | PBool false => list_ascii_of_string "false"
  | PInt z => list_ascii_of_string (str_int z)
  | PFloat f => list_ascii_of_string (floatstr f)
  | PStr s => encode_string s
  | PList [] => list_ascii_of_string "[]"
  | PList l =>
      "["%char :: newline_indent indent (S level)
      ++ join (item_separator indent (S level))
              (map (encode indent (S level)) l)
      ++ newline_indent indent level ++ ["]"%char]
  | PDict [] => list_ascii_of_string "{}"
  | PDict d =>
      "{"%char :: newline_indent indent (S level)
      ++ join (item_separator indent (S level))
              (map (fun kv => let '(k, x) := kv in
                              encode_string k ++ key_separator
                              ++ encode indent (S level) x) d)
      ++ newline_indent indent level ++ ["}"%char]
  | PObject _ => []
  end.

Definition first_some {A} (l : list (option A)) : option A :=
  fold_right (fun o acc => match o with Some a => Some a | None => acc end) None l.

(** The class of the first object the encoder cannot serialise. *)
Fixpoint unserializable (v : pyval) : option string :=
  match v with
  | PObject cls => Some cls
  | PList l => first_some (map unserializable l)
  | PDict d => first_some (map (fun kv => let '(_, x) := kv in unserializable x) d)
  | _ => None
  end.

(** [json.dumps(v, indent=indent)] *)
Definition dumps (indent : option nat) (v : pyval) : result string :=
  match unserializable v with
  | Some cls =>
      Raise (Exception ("Object of type " ++ cls ++ " is not JSON serializable")%string)
  | None => Return (string_of_list_ascii (encode indent 0 v))
  end.

(** *** Decoding *)

Definition is_ws (c : ascii) : bool :=
  Ascii.eqb c " " || Ascii.eqb c "009" || Ascii.eqb c "010" || Ascii.eqb c "013".

Fixpoint skip_ws (s : list ascii) : list ascii :=
  match s with
  | c :: s' => if is_ws c then skip_ws s' else s
  | [] => []
  end.

Definition hex_val (c : ascii) : option nat :=
  let n := code c in
  if is_digit c then Some (n - 48)%nat
  else if ((97 <=? n) && (n <=? 102))%nat then Some (n - 87)%nat
  else if ((65 <=? n) && (n <=? 70))%nat then Some (n - 55)%nat
  else None.

Definition hex4 (a b c d : ascii) : option nat :=
  match hex_val a, hex_val b, hex_val c, hex_val d with
  | Some x, Some y, Some z, Some w => Some (((x * 16 + y) * 16 + z) * 16 + w)%nat
  | _, _, _, _ => None
  end.

Definition unescape (c : ascii) : option ascii :=
  if Ascii.eqb c dquote then Some dquote
  else if Ascii.eqb c backslash then Some backslash
  else if Ascii.eqb c "/" then Some "/"%char
  else if Ascii.eqb c "b" then Some "008"%char
  else if Ascii.eqb c "f" then Some "012"%char
  else if Ascii.eqb c "n" then Some "010"%char
  else if Ascii.eqb c "r" then Some "013"%char
  else if Ascii.eqb c "t" then Some "009"%char
  else None.

Definition push (c : ascii) (r : option (list ascii * list ascii))
  : option (list ascii * list ascii) :=
  match r with
  | Some (content, rest) => Some (c :: content, rest)
  | None => None
  end.

(** The body of a string literal, after its opening quote: the decoded
    characters and the text after the closing quote. *)
Fixpoint scan_string (s : list ascii) : option (list ascii * list ascii) :=
  match s with
  | [] => None
  | c :: s1 =>
      if Ascii.eqb c dquote then Some ([], s1)
      else if Ascii.eqb c backslash then
        match s1 with
        | [] => None
        | e :: s2 =>
            if Ascii.eqb e "u" then
              match s2 with
              | h1 :: h2 :: h3 :: h4 :: s3 =>
                  match hex4 h1 h2 h3 h4 with
                  | Some n =>
                      if (n <? 256)%nat then push (ascii_of_nat n) (scan_string s3)
                      else None
                  | None => None
                  end
              | _ => None
              end
            else
              match unescape e with
              | Some ch => push ch (scan_string s2)
              | None => None
              end
        end
      else if (code c <? 32)%nat then None
      else push c (scan_string s1)
  end.

Definition digit_of (c : ascii) : option (Decimal.uint -> Decimal.uint) :=
  if Ascii.eqb c "0" then Some Decimal.D0
  else if Ascii.eqb c "1" then Some Decimal.D1
  else if Ascii.eqb c "2" then Some Decimal.D2
  else if Ascii.eqb c "3" then Some Decimal.D3
  else if Ascii.eqb c "4" then Some Decimal.D4
  else if Ascii.eqb c "5" then Some Decimal.D5
  else if Ascii.eqb c "6" then Some Decimal.D6
  else if Ascii.eqb c "7" then Some Decimal.D7
  else if Ascii.eqb c "8" then Some Decimal.D8
  else if Ascii.eqb c "9" then Some Decimal.D9
  else None.

Fixpoint read_digits (s : list ascii) : Decimal.uint * list ascii :=
  match s with
  | [] => (Decimal.Nil, [])
  | c :: s' =>
      match digit_of c with
      | Some mk => let '(d, rest) := read_digits s' in (mk d, rest)
      | None => (Decimal.Nil, s)
      end
  end.

(** The integer part of a number: [0] alone, or digits with no leading zero. *)
Definition scan_nat (s : list ascii) : option (N * list ascii) :=
  match s with
  | [] => None
  | c :: s' =>
      if Ascii.eqb c "0" then Some (0%N, s')
      else if is_digit c then
        let '(d, rest) := read_digits s in Some (N.of_uint d, rest)
      else None
  end.

(** The fraction of a number, [.] and at least one digit. *)
Definition scan_fraction (s : list ascii) : option (Decimal.uint * list ascii) :=
  match s with
  | c :: s' =>
      if Ascii.eqb c "." then
        match read_digits s' with
        | (Decimal.Nil, _) => None
        | (d, rest) => Some (d, rest)
        end
      else None
  | [] => None
  end.

(** The exponent of a number: [e] or [E], an optional sign and at least
    one digit. *)
Definition scan_exponent (s : list ascii) : option (Z * list ascii) :=
  match s with
  | c :: s' =>
      if Ascii.eqb c "e" || Ascii.eqb c "E" then
        let '(negative, s'') :=
          match s' with
          | a :: t => if Ascii.eqb a "-" then (true, t)
                      else if Ascii.eqb a "+" then (false, t)
                      else (false, s')
          | [] => (false, s')
          end in
        match read_digits s'' with
        | (Decimal.Nil, _) => None
        | (d, rest) => Some (signed negative (Z.of_N (N.of_uint d)), rest)
        end
      else None
  | [] => None
  end.

Definition is_float_mark (c : ascii) : bool :=
  Ascii.eqb c "." || Ascii.eqb c "e" || Ascii.eqb c "E".

(** A number: the longest text of the shape [-?int(.digits)?([eE][+-]?digits)?];
    it is an [int] when it has neither fraction nor exponent, and a
    [float] otherwise. *)
Definition scan_number (s : list ascii) : option (pyval * list ascii) :=
  let '(negative, s1) :=
    match s with
    | c :: s' => if Ascii.eqb c "-" then (true, s') else (false, s)
    | [] => (false, s)
    end in
  match scan_nat s1 with
  | None => None
  | Some (whole, rest) =>
      match scan_fraction rest with
      | Some (fraction, rest1) =>
          match scan_exponent rest1 with
          | Some (e, rest2) => Some (PFloat (FSci negative whole fraction e), rest2)
          | None =>
              match uncons_digit fraction with
              | Some (tenths, digits) =>
                  Some (PFloat (FFixed negative whole tenths digits), rest1)
              | None => None
              end
          end
      | None =>
          match scan_exponent rest with
          | Some (e, rest2) => Some (PFloat (FSci negative whole Decimal.Nil e), rest2)
          | None => Some (PInt (signed negative (Z.of_N whole)), rest)
          end
      end
  end.

Fixpoint strip_prefix (p s : list ascii) : option (list ascii) :=
  match p, s with
  | [], _ => Some s
  | a :: p', b :: s' => if Ascii.eqb a b then strip_prefix p' s' else None
  | _ :: _, [] => None
  end.

(** The constants that are no numbers of the grammar. *)
Definition scan_constant (s : list ascii) : option (pyval * list ascii) :=
  match strip_prefix (list_ascii_of_string "NaN") s with
  | Some rest => Some (PFloat FNaN, rest)
  | None =>
  match strip_prefix (list_ascii_of_string "Infinity") s with
  | Some rest => Some (PFloat (FInfinity false), rest)
  | None =>
  match strip_prefix (list_ascii_of_string "-Infinity") s with
  | Some rest => Some (PFloat (FInfinity true), rest)
  | None => None
  end end end.

Definition scan_literal (s : list ascii) : option (pyval * list ascii) :=
  match strip_prefix (list_ascii_of_string "null") s with
  | Some rest => Some (PNone, rest)
  | None =>
  match strip_prefix (list_ascii_of_string "true") s with
  | Some rest => Some (PBool true, rest)
  | None =>
  match strip_prefix (list_ascii_of_string "false") s with
  | Some rest => Some (PBool false, rest)
  | None =>
  match scan_number s with
  | Some r => Some r
  | None => scan_constant s
  end end end end.

(** The recursive descent of the decoder.  [fuel] bounds the nesting and
    the number of items; [loads] below supplies the length of the text,
    which always suffices. *)
Fixpoint parse_value (fuel : nat) (s : list ascii) : option (pyval * list ascii) :=
  match fuel with
  | O => None
  | S fuel' =>
      match s with
      | [] => None
      | c :: s1 =>
          if Ascii.eqb c "[" then
            match skip_ws s1 with
            | [] => None
            | c2 :: s2 =>
                if Ascii.eqb c2 "]" then Some (PList [], s2)
                else
                  match parse_elements fuel' (c2 :: s2) with
                  | Some (l, rest) => Some (PList l, rest)
                  | None => None
                  end
            end
          else if Ascii.eqb c "{" then
            match skip_ws s1 with
            | [] => None
            | c2 :: s2 =>
                if Ascii.eqb c2 "}" then Some (PDict [], s2)
                else
                  match parse_members fuel' (c2 :: s2) with
                  | Some (d, rest) => Some (PDict (of_pairs d), rest)
                  | None => None
                  end
            end
          else if Ascii.eqb c dquote then
            match scan_string s1 with
            | Some (content, rest) => Some (PStr (string_of_list_ascii content), rest)
            | None => None
            end
          else scan_literal s
      end
  end
with parse_elements (fuel : nat) (s : list ascii) : option (list pyval * list ascii) :=
  match fuel with
  | O => None
  | S fuel' =>
      match parse_value fuel' s with
      | None => None
      | Some (v, rest) =>
          match skip_ws rest with
          | [] => None
          | c :: r =>
              if Ascii.eqb c "," then
                match parse_elements fuel' (skip_ws r) with
                | Some (l, rest') => Some (v :: l, rest')
                | None => None
                end
              else if Ascii.eqb c "]" then Some ([v], r)
              else None
          end
      end
  end
with parse_members (fuel : nat) (s : list ascii)
  : option (list (string * pyval) * list ascii) :=
  match fuel with
  | O => None
  | S fuel' =>
      match s with
      | [] => None
      | q :: s1 =>
          if Ascii.eqb q dquote then
            match scan_string s1 with
            | None => None
            | Some (key, rest0) =>
                match skip_ws rest0 with
                | [] => None
                | colon :: rest1 =>
                    if Ascii.eqb colon ":" then
                      match parse_value fuel' (skip_ws rest1) with
                      | None => None
                      | Some (v, rest) =>
                          match skip_ws rest with
                          | [] => None
                          | c :: r =>
                              if Ascii.eqb c "," then
                                match parse_members fuel' (skip_ws r) with
                                | Some (d, rest') =>
                                    Some ((string_of_list_ascii key, v) :: d, rest')
                                | None => None
                                end
                              else if Ascii.eqb c "}" then
                                Some ([(string_of_list_ascii key, v)], r)
                              else None
                          end
                      end
                    else None
                end
            end
          else None
      end
  end.

(** [json.loads(s)]; [None] stands for [JSONDecodeError]. *)
Definition loads (s : string) : option pyval :=
  let text := list_ascii_of_string s in
  match parse_value (S (length text)) (skip_ws text) with
  | Some (v, rest) => match skip_ws rest with [] => Some v | _ => None end
  | None => None
  end.

(** *** Notions used to relate the encoder and the decoder *)

(** A dictionary never holds a key twice; a value of the model is well
    formed when its dictionaries are. *)
Fixpoint well_formed (v : pyval) : bool :=
  match v with
  | PList l => forallb well_formed l
  | PDict d =>
      bool_decide (NoDup (map fst d))
      && forallb (fun kv => let '(_, x) := kv in well_formed x) d
  | _ => true
  end.

Definition ok (v : pyval) : Prop := well_formed v = true /\ unserializable v = None.

(** No float of the value is [nan]. *)
Fixpoint nan_free (v : pyval) : bool :=
  match v with
  | PFloat FNaN => false
  | PList l => forallb nan_free l
  | PDict d => forallb (fun kv => let '(_, x) := kv in nan_free x) d
  | _ => true
  end.

Definition all_ws (w : list ascii) : Prop := Forall (fun c => is_ws c = true) w.

(** Text that does not go on with a digit. *)
Definition nondigit (rest : list ascii) : Prop :=
  match rest with [] => True | c :: _ => digit_of c = None end.

(** Text that may follow a number. *)
Definition delimited (rest : list ascii) : Prop :=
  match rest with
  | [] => True
  | c :: _ => digit_of c = None /\ is_float_mark c = false
  end.

Definition number_start (c : ascii) : bool := is_digit c || Ascii.eqb c "-".

(** Text that starts like an encoded value. *)
Definition value_start (s : list ascii) : Prop :=
  exists c t, s = c :: t /\ is_ws c = false
              /\ Ascii.eqb c "]" = false /\ Ascii.eqb c "}" = false.

Definition items (indent : option nat) (level : nat) (l : list pyval) : list ascii :=
  join (item_separator indent level) (map (encode indent level) l).

Definition member (indent : option nat) (level : nat) (kv : string * pyval) : list ascii :=
  let '(k, x) := kv in encode_string k ++ key_separator ++ encode indent level x.

Definition members (indent : option nat) (level : nat) (d : list (string * pyval))
  : list ascii :=
  join (item_separator indent level) (map (member indent level) d).

(** What [fuel] many steps of the decoder achieve on encoded text. *)
Definition value_ok (indent : option nat) (fuel : nat) : Prop :=
  forall v level rest,
    ok v -> length (encode indent level v) <= fuel -> delimited rest ->
    parse_value fuel (encode indent level v ++ rest) = Some (v, rest).

Definition elements_ok (indent : option nat) (fuel : nat) : Prop :=
  forall l level w rest,
    l <> [] -> Forall ok l -> length (items indent level l) + 1 <= fuel -> all_ws w ->
    parse_elements fuel (items indent level l ++ w ++ "]"%char :: rest) = Some (l, rest).

Definition members_ok (indent : option nat) (fuel : nat) : Prop :=
  forall d level w rest,
    d <> [] -> Forall (fun kv => ok (snd kv)) d ->
    length (members indent level d) + 1 <= fuel -> all_ws w ->
    parse_members fuel (members indent level d ++ w ++ "}"%char :: rest) = Some (d, rest).

End Json.

(* ===================================================================== *)
(** * The database seen through SQLAlchemy and pandas *)
(* ===================================================================== *)

Module Db.
Import Py.

Definition nl : string := String "010"%char EmptyString.

(** *** Result frames *)

(** A cell of a result frame, as [to_dict(orient='records')] boxes it. *)
Inductive cell : Type :=
| CNull
| CBool (b : bool)
| CInt (z : Z)
| CFloat (f : pyfloat)
| CStr (s : string)
| CObject (cls : string).

Definition cell_value (c : cell) : pyval :=
  match c with
  | CNull => PNone
  | CBool b => PBool b
  | CInt z => PInt z
  | CFloat f => PFloat f
  | CStr s => PStr s
  | CObject cls => PObject cls
  end.

(** A pandas [DataFrame]: column labels and rows of cells. *)
Record DataFrame := { df_columns : list string; df_rows : list (list cell) }.

(** [df.empty] *)
Definition df_empty (df : DataFrame) : bool :=
  match df_columns df, df_rows df with
  | [], _ | _, [] => true
  | _, _ => false
  end.

(** [df.to_dict(orient='records')] *)
Definition to_dict_records (df : DataFrame) : list dict :=
  map (fun row => of_pairs (combine (df_columns df) (map cell_value row)))
      (df_rows df).

(** *** The catalog: [INFORMATION_SCHEMA.TABLES] and [.COLUMNS] *)

Record table_row := {
  TABLE_SCHEMA : string;
  TABLE_NAME : string;
  TABLE_TYPE : string
}.

Record column_row := {
  COL_TABLE_SCHEMA : string;
  COL_TABLE_NAME : string;
  COLUMN_NAME : string;
  ORDINAL_POSITION : Z;
  DATA_TYPE : string;
  IS_NULLABLE : string;
  COLUMN_DEFAULT : option string
}.

Record Catalog := { TABLES : list table_row; COLUMNS : list column_row }.

(** *** Engines *)

Inductive failure_kind := ConnectionFailure | QueryTimeout | SqlError.

(** What an engine is connected to: whether a connection can be opened,
    the catalog, and the answer of the server to each read statement (the
    row contents). *)
Record Engine := {
  connect_error : option string;
  catalog : Catalog;
  run_select : string -> (failure_kind * string) + DataFrame
}.

(** What happens at the database, in order. *)
Inductive db_event :=
| EvCreateEngine (connection_string : string)
| EvConnect
| EvExecute (sql : string)
| EvDispose.

(** A computation that may raise and that leaves a trace of database
    events, kept also when it raises. *)
Definition io (A : Type) : Type := (result A * list db_event)%type.

Definition io_ret {A} (a : A) : io A := (Return a, []).
Definition io_raise {A} (e : exn) : io A := (Raise e, []).
Definition io_lift {A} (r : result A) : io A := (r, []).
Definition emit (ev : db_event) : io unit := (Return tt, [ev]).

Definition io_bind {A B} (m : io A) (k : A -> io B) : io B :=
  match m with
  | (Return a, t) => let '(r, t') := k a in (r, (t ++ t')%list)
  | (Raise e, t) => (Raise e, t)
  end.

(** [try: body  except Exception as e: handler(e)] *)
Definition io_try {A} (body : io A) (handler : exn -> io A) : io A :=
  match body with
  | (Return a, t) => (Return a, t)
  | (Raise e, t) =>
      if is_Exception e then let '(r, t') := handler e in (r, (t ++ t')%list)
      else (Raise e, t)
  end.

End Db.

Notation "'do' x <- m ; k" := (Db.io_bind m (fun x => k))
  (at level 10, x name, m at level 100, k at level 200).
Notation "'do' ' p <- m ; k" := (Db.io_bind m (fun x => match x with p => k end))
  (at level 10, p strict pattern, m at level 100, k at level 200).

(* ===================================================================== *)
(** * [bi_agent/db_config.py] *)
(* ===================================================================== *)

Module DbConfig.
Import Py Db.

(** The libraries behind [create_db_engine]. *)
Record Libraries := {
  quote_plus : string -> string;             (* urllib.parse.quote_plus *)
  create_engine : string -> result Engine    (* sqlalchemy.create_engine *)
}.

Definition create_db_engine (lib : Libraries)
    (server database username password driver : string)
    (trust_server_certificate : bool) : io Engine :=
  let trust_val := if trust_server_certificate then "yes" else "no" in
  let odbc_string :=
    "DRIVER={" ++ driver ++ "};"
    ++ "SERVER=" ++ server ++ ";"
    ++ "DATABASE=" ++ database ++ ";"
    ++ "UID=" ++ username ++ ";"
    ++ "PWD=" ++ password ++ ";"
    ++ "TrustServerCertificate=" ++ trust_val ++ ";" in
  let params := quote_plus lib odbc_string in
  let connection_string := "mssql+pyodbc:///?odbc_connect=" ++ params in
  do _ <- emit (EvCreateEngine connection_string);
  io_lift (create_engine lib connection_string).

(** **** The catalog query of [get_schema_info]

    [SELECT t.TABLE_SCHEMA, t.TABLE_NAME, c.COLUMN_NAME, c.DATA_TYPE,
            c.IS_NULLABLE, c.COLUMN_DEFAULT
     FROM INFORMATION_SCHEMA.TABLES t
     INNER JOIN INFORMATION_SCHEMA.COLUMNS c
       ON t.TABLE_SCHEMA = c.TABLE_SCHEMA AND t.TABLE_NAME = c.TABLE_NAME
     WHERE t.TABLE_TYPE = 'BASE TABLE'
     ORDER BY t.TABLE_SCHEMA, t.TABLE_NAME, c.ORDINAL_POSITION]

    Strings compare under a binary collation. *)

Definition joined : Type := (table_row * column_row)%type.

Definition on_clause (t : table_row) (c : column_row) : bool :=
  String.eqb (TABLE_SCHEMA t) (COL_TABLE_SCHEMA c)
  && String.eqb (TABLE_NAME t) (COL_TABLE_NAME c).

Definition where_clause (t : table_row) : bool :=
  String.eqb (TABLE_TYPE t) "BASE TABLE".

Definition inner_join (cat : Catalog) : list joined :=
  flat_map (fun t =>
    if where_clause t
    then map (fun c => (t, c)) (filter (fun c => on_clause t c = true) (COLUMNS cat))
    else []) (TABLES cat).

Definition order_key (j : joined) : string * string * Z :=
  (TABLE_SCHEMA (fst j), TABLE_NAME (fst j), ORDINAL_POSITION (snd j)).

Definition key_compare (a b : string * string * Z) : comparison :=
  let '(s1, t1, o1) := a in
  let '(s2, t2, o2) := b in
  match String.compare s1 s2 with
  | Eq => match String.compare t1 t2 with
          | Eq => Z.compare o1 o2
          | c => c
          end
  | c => c
  end.

Definition order_le (a b : joined) : Prop :=
  key_compare (order_key a) (order_key b) <> Gt.

#[export] Instance order_le_dec a b : Decision (order_le a b).
Proof. unfold order_le. apply _. Defined.

(** A fetched row: [row[0]] .. [row[5]]. *)
Record row := {
  row0 : string; row1 : string; row2 : string;
  row3 : string; row4 : string; row5 : option string
}.

Definition select_list (j : joined) : row :=
  let '(t, c) := j in
  {| row0 := TABLE_SCHEMA t; row1 := TABLE_NAME t; row2 := COLUMN_NAME c;
     row3 := DATA_TYPE c; row4 := IS_NULLABLE c; row5 := COLUMN_DEFAULT c |}.

(** The join in the order of the [ORDER BY] clause. *)
Definition sorted_join (cat : Catalog) : list joined :=
  merge_sort order_le (inner_join cat).

Definition catalog_query (cat : Catalog) : list row :=
  map select_list (sorted_join cat).

(** **** [get_schema_info] *)

Record column_info := {
  name : string; type : string; nullable : string; default : option string
}.

(** [xs[:stop]] *)
Definition slice_to {A} (xs : list A) (stop : Z) : list A :=
  if (0 <=? stop)%Z then take (Z.to_nat stop) xs
  else take (length xs - Z.to_nat (- stop)) xs.

(** One turn of the loop [for row in rows] that organizes data by table. *)
Definition organize (limit_tables : option (list string))
    (tables : list (string * list column_info)) (r : row)
  : list (string * list column_info) :=
  let schema_name := row0 r in
  let table_name := row1 r in
  let full_table_name := schema_name ++ "." ++ table_name in
  let limited :=
    match limit_tables with
    | None | Some [] => false
    | Some names => negb (bool_decide (full_table_name ∈ names))
    end in
  if limited then tables
  else
    let tables :=
      match lookup full_table_name tables with
      | None => set full_table_name [] tables
      | Some _ => tables
      end in
    let column_info :=
      {| name := row2 r; type := row3 r; nullable := row4 r; default := row5 r |} in
    set full_table_name ((get full_table_name [] tables ++ [column_info])%list) tables.

Definition format_column (col : column_info) : string :=
  let nullable := if String.eqb (nullable col) "YES" then "NULL" else "NOT NULL" in
  "  - " ++ name col ++ " (" ++ type col ++ ", " ++ nullable ++ ")" ++ nl.

Definition format_table (tables : list (string * list column_info))
    (table_name : string) : string :=
  let schema_text := "Table: " ++ table_name ++ nl in
  let schema_text := schema_text ++ "Columns:" ++ nl in
  let schema_text :=
    fold_left (fun text col => text ++ format_column col)
              (get table_name [] tables) schema_text in
  schema_text ++ nl.

(** The dictionary [tables] after the loop over the fetched rows. *)
Definition tables_of (rows : list row) (limit_tables : option (list string))
  : list (string * list column_info) :=
  fold_left (organize limit_tables) rows [].

(** The text built from the fetched rows. *)
Definition schema_text_of (rows : list row) (limit_tables : option (list string))
    (max_tables : Z) : string :=
  let tables := tables_of rows limit_tables in
  let table_names := slice_to (keys tables) max_tables in
  let schema_text := "Database Schema:" ++ nl ++ nl in
  let schema_text :=
    fold_left (fun text table_name => text ++ format_table tables table_name)
              table_names schema_text in
  if (max_tables <? Z.of_nat (length tables))%Z
  then schema_text ++ nl ++ "... and "
       ++ str_int (Z.of_nat (length tables) - max_tables) ++ " more tables" ++ nl
  else schema_text.

Definition get_schema_info (engine : Engine) (limit_tables : option (list string))
    (max_tables : Z) : string :=
  match connect_error engine with
  | Some msg => "Error retrieving schema: " ++ msg
  | None => schema_text_of (catalog_query (catalog engine)) limit_tables max_tables
  end.

(** **** The schema text, said the way the spec says it

    The tables appear in the order of the fetched rows, that is by schema
    and table name, and under each table its columns appear in the order of
    the fetched rows, that is by ordinal position. *)

Definition full_name (r : row) : string := row0 r ++ "." ++ row1 r.

Definition column_of (r : row) : column_info :=
  {| name := row2 r; type := row3 r; nullable := row4 r; default := row5 r |}.

(** Whether [limit_tables] lets the row through. *)
Definition kept (limit_tables : option (list string)) (r : row) : bool :=
  match limit_tables with
  | None | Some [] => true
  | Some names => bool_decide (full_name r ∈ names)
  end.

(** The distinct elements of a list, in the order of their first
    occurrence. *)
Definition first_occurrences (l : list string) : list string :=
  reverse (remove_dups (reverse l)).

(** The columns of the table [table] among the rows, in row order. *)
Definition columns_in (rows : list row) (table : string) : list column_info :=
  map column_of (List.filter (fun r => String.eqb (full_name r) table) rows).

(** The dictionary that maps each of [names] to [f] of it. *)
Definition tabulate {V} (f : string -> V) (names : list string) : list (string * V) :=
  map (fun n => (n, f n)) names.

Definition tables_in_row_order (rows : list row) (limit_tables : option (list string))
  : list (string * list column_info) :=
  let rows := List.filter (kept limit_tables) rows in
  tabulate (columns_in rows) (first_occurrences (map full_name rows)).

(** The strings of a list, one after the other. *)
Definition concat_all (l : list string) : string :=
  fold_right String.append EmptyString l.

(** **** The text, piece by piece *)

(** The line of a column, the block of a table with its heading, the
    closing line that counts the tables left out, and the whole text. *)
Definition column_line (col : column_info) : string :=
  "  - " ++ name col ++ " (" ++ type col ++ ", "
  ++ (if String.eqb (nullable col) "YES" then "NULL" else "NOT NULL") ++ ")" ++ nl.

Definition table_block (entry : string * list column_info) : string :=
  "Table: " ++ fst entry ++ nl ++ "Columns:" ++ nl
  ++ concat_all (map column_line (snd entry)) ++ nl.

Definition more_tables_line (n : Z) : string :=
  nl ++ "... and " ++ str_int n ++ " more tables" ++ nl.

Definition listing (entries : list (string * list column_info)) : string :=
  "Database Schema:" ++ nl ++ nl ++ concat_all (map table_block entries).

(** The text for the tables found: the blocks of the tables up to the
    cap, and the closing line when the cap is below their number. *)
Definition rendered (tables : list (string * list column_info)) (max_tables : Z) : string :=
  listing (slice_to tables max_tables)
  ++ (if (max_tables <? Z.of_nat (length tables))%Z
      then more_tables_line (Z.of_nat (length tables) - max_tables)
      else EmptyString).

(** **** Well-formed catalogs *)

Definition base_tables (cat : Catalog) : list table_row :=
  List.filter where_clause (TABLES cat).

Definition qualified_name (t : table_row) : string :=
  TABLE_SCHEMA t ++ "." ++ TABLE_NAME t.

(** The qualified names [schema.table] tell the base tables apart, and
    every base table has a column. *)
Definition catalog_wf (cat : Catalog) : Prop :=
  NoDup (map qualified_name (base_tables cat))
  /\ forall t, In t (base_tables cat) ->
               exists c, In c (COLUMNS cat) /\ on_clause t c = true.

(** No two rows of the join agree on the key of the [ORDER BY] clause. *)
Definition order_key_unique (cat : Catalog) : Prop :=
  NoDup (map order_key (inner_join cat)).

(** The keys of the two catalog views: a table is known by its schema and
    name, a column by its table and its position. *)
Definition table_key (t : table_row) : string * string :=
  (TABLE_SCHEMA t, TABLE_NAME t).

Definition column_key (c : column_row) : string * string * Z :=
  (COL_TABLE_SCHEMA c, COL_TABLE_NAME c, ORDINAL_POSITION c).

Definition catalog_keys (cat : Catalog) : Prop :=
  NoDup (map table_key (base_tables cat)) /\ NoDup (map column_key (COLUMNS cat)).

(** **** The order of the listing *)

(** The order of the sort keys, strictly. *)
Definition key_lt (a b : string * string * Z) : Prop :=
  let '(s1, t1, o1) := a in
  let '(s2, t2, o2) := b in
  String.compare s1 s2 = Lt
  \/ (s1 = s2 /\ (String.compare t1 t2 = Lt \/ (t1 = t2 /\ (o1 < o2)%Z))).

(** A table comes before another: by schema name, then by table name. *)
Definition table_lt (t1 t2 : table_row) : Prop :=
  String.compare (TABLE_SCHEMA t1) (TABLE_SCHEMA t2) = Lt
  \/ (TABLE_SCHEMA t1 = TABLE_SCHEMA t2
      /\ String.compare (TABLE_NAME t1) (TABLE_NAME t2) = Lt).

(** A column comes before another: by ordinal position. *)
Definition position_lt (c1 c2 : column_row) : Prop :=
  (ORDINAL_POSITION c1 < ORDINAL_POSITION c2)%Z.

(** A table with its columns, and the entry that lists it. *)
Definition group : Type := (table_row * list column_row)%type.

Definition entry_of (g : group) : string * list column_info :=
  (qualified_name (fst g), map (fun c => column_of (select_list (fst g, c))) (snd g)).

(** The heading under which a row of the join is listed. *)
Definition name_of (j : joined) : string := qualified_name (fst j).

(** Whether [limit_tables] lets a heading through. *)
Definition listed (limit_tables : option (list string)) (n : string) : bool :=
  match limit_tables with
  | None | Some [] => true
  | Some names => bool_decide (n ∈ names)
  end.

(** The rows of the join that carry a qualified name, and the table and
    the columns they name. *)
Definition rows_named (rows : list joined) (n : string) : list joined :=
  List.filter (fun j => String.eqb (name_of j) n) rows.

Definition group_named (rows : list joined) (n : string) : group :=
  (match rows_named rows n with
   | j :: _ => fst j
   | [] => {| TABLE_SCHEMA := EmptyString; TABLE_NAME := EmptyString;
              TABLE_TYPE := EmptyString |}
   end,
   map snd (rows_named rows n)).

(** The groups of the rows of the join, in the order in which the rows
    first name them. *)
Definition groups_of (rows : list joined) : list group :=
  map (group_named rows) (first_occurrences (map name_of rows)).

End DbConfig.

(* ===================================================================== *)
(** * [bi_agent/sql_executor.py] *)
(* ===================================================================== *)

(** The dictionary [execute_query] returns, with the keys its callers read:
    [success], [data] (a [DataFrame] or [None]), [columns], [row_count]
    and [error]. *)
Record QueryResult := {
  qr_success : bool;
  qr_data : option Db.DataFrame;
  qr_columns : list string;
  qr_row_count : Z;
  qr_error : option string
}.

Module SqlExecutor.
Import Py Db.

(** Modelled from the spec: where the scan of a statement stands, in the
    statement itself or inside a comment. *)
Inductive scan_mode := InCode | InLineComment | InBlockComment.

(** Modelled from the spec: the statement-kind check of the missing
    [sql_executor.py] must be robust to leading comments.  The text after
    the leading white space, [--] line comments and [/* */] block
    comments. *)
Fixpoint skip_trivia (m : scan_mode) (s : string) : string :=
  match s with
  | EmptyString => EmptyString
  | String c s' =>
      match m with
      | InLineComment =>
          if Ascii.eqb c "010" then skip_trivia InCode s'
          else skip_trivia InLineComment s'
      | InBlockComment =>
          match s' with
          | String c' s'' =>
              if Ascii.eqb c "*" && Ascii.eqb c' "/" then skip_trivia InCode s''
              else skip_trivia InBlockComment s'
          | EmptyString => EmptyString
          end
      | InCode =>
          if isspace c then skip_trivia InCode s'
          else
            match s' with
            | String c' s'' =>
                if Ascii.eqb c "-" && Ascii.eqb c' "-" then skip_trivia InLineComment s''
                else if Ascii.eqb c "/" && Ascii.eqb c' "*" then skip_trivia InBlockComment s''
                else s
            | EmptyString => s
            end
      end
  end.

(** Modelled from the spec: keywords are read as words, made of letters,
    digits and underscores. *)
Definition is_word_char (c : ascii) : bool :=
  is_alpha c || is_digit c || Ascii.eqb c "_".

(** Modelled from the spec: the first word of a text, and the text after
    it. *)
Fixpoint take_word (s : string) : string :=
  match s with
  | String c s' => if is_word_char c then String c (take_word s') else EmptyString
  | EmptyString => EmptyString
  end.

Fixpoint drop_word (s : string) : string :=
  match s with
  | String c s' => if is_word_char c then drop_word s' else s
  | EmptyString => EmptyString
  end.

(** Modelled from the spec: the kind of a statement of the missing
    [sql_executor.py] is its first keyword, whatever its case. *)
Definition leading_keyword (sql : string) : string :=
  upper (take_word (skip_trivia InCode sql)).

(** Modelled from the spec: trailing semicolons (and white space) of the
    statement handed to the missing [sql_executor.py] do not count. *)
Fixpoint strip_trailing (s : string) : string :=
  match s with
  | EmptyString => EmptyString
  | String c s' =>
      match strip_trailing s' with
      | EmptyString =>
          if isspace c || Ascii.eqb c ";" then EmptyString else String c EmptyString
      | r => String c r
      end
  end.

(** Modelled from the spec: the words of a text, in upper case. *)
Fixpoint words_from (cur : string) (s : string) : list string :=
  match s with
  | EmptyString => match cur with EmptyString => [] | _ => [cur] end
  | String c s' =>
      if is_word_char c then words_from (cur ++ String (upper_char c) EmptyString) s'
      else match cur with
           | EmptyString => words_from EmptyString s'
           | _ => cur :: words_from EmptyString s'
           end
  end.

Definition words (s : string) : list string := words_from EmptyString s.

(** Modelled from the spec: the statement kinds the missing
    [sql_executor.py] must refuse, as the spec lists them. *)
Definition WRITE_KEYWORDS : list string :=
  ["INSERT"; "UPDATE"; "DELETE"; "DROP"; "ALTER"; "TRUNCATE"].

(** Modelled from the spec: the missing [sql_executor.py] is "a security
    boundary, not a parser" that must "default to rejecting ambiguous
    input".  The keywords that may not follow the leading [SELECT]: those
    that write ([INTO] of [SELECT ... INTO] among them), those that start
    another statement of a batch, and [SELECT] itself, since telling a
    subquery from a second statement takes a parser. *)
Definition REFUSED_KEYWORDS : list string :=
  (WRITE_KEYWORDS
   ++ ["INTO"; "MERGE"; "CREATE"; "GRANT"; "REVOKE"; "DENY";
       "EXEC"; "EXECUTE"; "CALL"; "SELECT";
       "DECLARE"; "SET"; "USE"; "BEGIN"; "COMMIT"; "ROLLBACK"; "SAVE";
       "IF"; "WHILE"; "GOTO"; "RETURN"; "BREAK"; "CONTINUE"; "WAITFOR";
       "PRINT"; "RAISERROR"; "THROW"; "GO";
       "BACKUP"; "RESTORE"; "DBCC"; "KILL"; "SHUTDOWN"; "RECONFIGURE";
       "CHECKPOINT"; "BULK"; "REVERT"; "SETUSER"; "ENABLE"; "DISABLE"; "ADD";
       "WRITETEXT"; "UPDATETEXT"; "READTEXT";
       "OPEN"; "CLOSE"; "FETCH"; "DEALLOCATE"; "SEND"; "RECEIVE"; "MOVE"; "GET";
       "CONVERSATION"; "OPENROWSET"; "OPENQUERY"; "OPENDATASOURCE"; "NEXT"])%list.

(** Modelled from the spec: the statement without its leading trivia, and
    without its trailing semicolons as well; whether a refused keyword is
    among the words after the first. *)
Definition statement_text (sql : string) : string := skip_trivia InCode sql.

Definition statement_body (sql : string) : string :=
  strip_trailing (statement_text sql).

Definition names_refused_keyword (sql : string) : bool :=
  existsb (fun w => bool_decide (w ∈ REFUSED_KEYWORDS))
          (words (drop_word (statement_text sql))).

(** Modelled from the spec: [validate_sql] of the missing
    [sql_executor.py] accepts a single read-only selection statement and
    nothing else: the first keyword must be [SELECT], no semicolon may
    remain once the trailing ones are dropped, and, ambiguous input being
    rejected by default, no word after the first may be a refused
    keyword.  It returns the verdict and the error message. *)
Definition validate_sql (sql : string) : bool * string :=
  let body := statement_body sql in
  if String.eqb body EmptyString then (false, "Empty query")
  else if negb (String.eqb (leading_keyword sql) "SELECT")
  then (false, "Only SELECT queries are allowed")
  else if contains body ";"
  then (false, "Multiple statements are not allowed")
  else if names_refused_keyword sql
  then (false, "Query contains a keyword that is not allowed")
  else (true, EmptyString).

(** Modelled from the spec: what the missing [sql_executor.py] must let
    through, "a single read-only selection statement": the statement
    starts with [SELECT], holds no further statement and names no refused
    keyword. *)
Definition single_read_only_select (sql : string) : bool :=
  String.eqb (leading_keyword sql) "SELECT"
  && negb (contains (statement_body sql) ";")
  && negb (names_refused_keyword sql).

(** **** What is not a single read-only [SELECT]

    The statements the spec tells the executor to refuse, described by
    their text. *)

(** Modelled from the spec: leading text that hides nothing, white
    space, [--] comments up to the end of their line and closed [/* */]
    comments. *)
Inductive trivia : string -> Prop :=
| trivia_nil : trivia EmptyString
| trivia_space c s : isspace c = true -> trivia s -> trivia (String c s)
| trivia_line body s :
    contains body nl = false -> trivia s -> trivia ("--" ++ body ++ nl ++ s)
| trivia_block body s :
    contains body "*/" = false -> trivia s -> trivia ("/*" ++ body ++ "*/" ++ s).

Fixpoint all_word (s : string) : bool :=
  match s with
  | EmptyString => true
  | String c s' => is_word_char c && all_word s'
  end.

(** A word: letters, digits and underscores, at least one. *)
Definition is_word (w : string) : Prop := w <> EmptyString /\ all_word w = true.

(** The text does not go on with a character of a word. *)
Definition ends_word (rest : string) : bool :=
  match rest with
  | EmptyString => true
  | String c _ => negb (is_word_char c)
  end.

(** A character that belongs to a statement: neither white space nor a
    semicolon. *)
Definition is_solid (c : ascii) : bool := negb (isspace c || Ascii.eqb c ";").

(** Modelled from the spec: the texts that are not "a single read-only
    selection statement", by their shape. *)
Inductive not_single_select : string -> Prop :=
(* nothing but white space and comments *)
| no_statement pre :
    trivia pre -> not_single_select pre
(* a comment that is never closed hides the rest *)
| open_line_comment pre body :
    trivia pre -> contains body nl = false ->
    not_single_select (pre ++ "--" ++ body)
| open_block_comment pre body :
    trivia pre -> contains body "*/" = false ->
    not_single_select (pre ++ "/*" ++ body)
(* the statement starts with another keyword, in any case: INSERT, UPDATE,
   DELETE, DROP, ALTER, TRUNCATE, EXEC, WITH, ... *)
| other_kind pre w rest :
    trivia pre -> is_word w -> ends_word rest = true -> upper w <> "SELECT" ->
    not_single_select (pre ++ w ++ rest)
(* the statement starts with no keyword at all *)
| no_keyword pre c rest :
    trivia pre -> is_word_char c = false -> isspace c = false ->
    startswith (String c rest) "--" = false ->
    startswith (String c rest) "/*" = false ->
    not_single_select (pre ++ String c rest)
(* another statement follows a semicolon *)
| further_statement pre c first gap d more :
    trivia pre -> is_word_char c = true -> is_solid d = true ->
    not_single_select (pre ++ String c first ++ ";" ++ gap ++ String d more)
(* a refused keyword, in any case, is a word of the statement after the
   first: SELECT ... INTO, SELECT 1 EXEC ..., SELECT 1 CREATE TABLE ... *)
| refused_word pre first gap c w rest :
    trivia pre -> is_word first -> ends_word (gap ++ String c EmptyString) = true ->
    is_word_char c = false -> is_word w -> ends_word rest = true ->
    upper w ∈ REFUSED_KEYWORDS ->
    not_single_select (pre ++ first ++ (gap ++ String c EmptyString) ++ w ++ rest).

(** Modelled from the spec: the error kinds of the missing
    [sql_executor.py] are told apart by a prefix of the error field. *)
Definition error_prefix (k : failure_kind) : string :=
  match k with
  | ConnectionFailure => "Connection error: "
  | QueryTimeout => "Timeout: "
  | SqlError => "SQL error: "
  end.

Definition failed (msg : string) : QueryResult :=
  {| qr_success := false; qr_data := None; qr_columns := [];
     qr_row_count := 0; qr_error := Some msg |}.

(** Modelled from the spec: [execute_query] of the missing
    [sql_executor.py] rejects what [validate_sql] rejects without touching
    the database; otherwise it runs the statement, keeps at most
    [max_rows] rows and returns the canonical result, every failure being
    reported in the error field. *)
Definition execute_query (max_rows : nat) (engine : Engine) (sql_query : string)
  : io QueryResult :=
  match validate_sql sql_query with
  | (false, msg) => io_ret (failed msg)
  | (true, _) =>
      do _ <- emit EvConnect;
      match connect_error engine with
      | Some msg => io_ret (failed (error_prefix ConnectionFailure ++ msg))
      | None =>
          do _ <- emit (EvExecute sql_query);
          match run_select engine sql_query with
          | inl (kind, msg) => io_ret (failed (error_prefix kind ++ msg))
          | inr df =>
              let df := {| df_columns := df_columns df;
                           df_rows := take max_rows (df_rows df) |} in
              io_ret {| qr_success := true; qr_data := Some df;
                        qr_columns := df_columns df;
                        qr_row_count := Z.of_nat (length (df_rows df));
                        qr_error := None |}
          end
      end
  end.

End SqlExecutor.

(* ===================================================================== *)
(** * [bi_agent/bi_service.py] *)
(* ===================================================================== *)

Module BIService.
Import Py Db.

(** [BIService.execute_sql]; [engine] is [self.engine]. *)
Definition execute_sql (execute_query : Engine -> string -> io QueryResult)
    (engine : option Engine) (sql_query : string) : io QueryResult :=
  match engine with
  | None =>
      io_ret {| qr_success := false; qr_data := None;
                qr_error := Some "Not connected to database";
                qr_row_count := 0; qr_columns := [] |}
  | Some engine => execute_query engine sql_query
  end.

End BIService.

(* ===================================================================== *)
(** * [bi_agent/tools.py] *)
(* ===================================================================== *)

Module Tools.
Import Py Db DbConfig.

(** The Result Envelope. *)
Record Envelope := {
  success : bool;
  data : list dict;
  columns : list string;
  row_count : Z;
  error : option string
}.

(** The envelope as the dictionary literal the code writes. *)
Definition envelope_dict (e : Envelope) : pyval :=
  PDict [("success", PBool (success e));
         ("data", PList (map PDict (data e)));
         ("columns", PList (map PStr (columns e)));
         ("row_count", PInt (row_count e));
         ("error", match error e with Some msg => PStr msg | None => PNone end)].

Definition failure_envelope (err : option string) : Envelope :=
  {| success := false; data := []; columns := []; row_count := 0; error := err |}.

(** The process environment and the libraries. *)
Record World := {
  getenv : string -> option string;   (* os.getenv *)
  lib : Libraries
}.

Definition getenv_default (w : World) (key default : string) : string :=
  match getenv w key with Some v => v | None => default end.

(** [all([...])] over values of [os.getenv]. *)
Definition all_set (vars : list (option string)) : bool :=
  forallb (fun v => match v with
                    | Some s => negb (String.eqb s EmptyString)
                    | None => false
                    end) vars.

Definition or_empty (v : option string) : string :=
  match v with Some s => s | None => EmptyString end.

(** The four values [execute_sql_and_format] requires. *)
Definition credentials (w : World) : list (option string) :=
  [getenv w "MSSQL_SERVER"; getenv w "MSSQL_DATABASE";
   getenv w "MSSQL_USERNAME"; getenv w "MSSQL_PASSWORD"].

(** The [response] that [execute_sql_and_format] builds from the result of
    [execute_query]. *)
Definition response_of (result : QueryResult) : Envelope :=
  if qr_success result then
    {| success := true;
       data := match qr_data result with
               | Some df => if negb (df_empty df) then to_dict_records df else []
               | None => []
               end;
       columns := qr_columns result; row_count := qr_row_count result;
       error := None |}
  else failure_envelope (qr_error result).

Section Tools.

(** [execute_query] of [sql_executor.py]. *)
Variable execute_query : Engine -> string -> io QueryResult.

(** [DatabaseTools.execute_sql_query]; [engine] is [self.engine]. *)
Definition execute_sql_query (engine : Engine) (sql_query : string) : io Envelope :=
  do result <- execute_query engine sql_query;
  if qr_success result then
    let df := qr_data result in
    let data_list := match df with Some df => to_dict_records df | None => [] end in
    io_ret {| success := true; data := data_list; columns := qr_columns result;
              row_count := qr_row_count result; error := None |}
  else
    io_ret {| success := false; data := []; columns := []; row_count := 0;
              error := qr_error result |}.

Definition execute_sql_and_format (w : World) (sql_query : string) : io string :=
  io_try
    (let server := getenv w "MSSQL_SERVER" in
     let database := getenv w "MSSQL_DATABASE" in
     let username := getenv w "MSSQL_USERNAME" in
     let password := getenv w "MSSQL_PASSWORD" in
     let driver := getenv_default w "MSSQL_DRIVER" "ODBC Driver 18 for SQL Server" in
     let trust_cert_str := lower (getenv_default w "TRUST_SERVER_CERTIFICATE" "true") in
     let trust_cert :=
       String.eqb trust_cert_str "true" || String.eqb trust_cert_str "yes" in
     if negb (all_set [server; database; username; password]) then
       io_lift (Json.dumps None (envelope_dict
         {| success := false; data := []; columns := []; row_count := 0;
            error := Some "Database credentials not configured in environment variables" |}))
     else
       do engine <- create_db_engine (lib w) (or_empty server) (or_empty database)
                      (or_empty username) (or_empty password) driver trust_cert;
       do result <- execute_query engine sql_query;
       let response :=
         if qr_success result then
           let df := qr_data result in
           let data_list :=
             match df with
             | Some df => if negb (df_empty df) then to_dict_records df else []
             | None => []
             end in
           {| success := true; data := data_list; columns := qr_columns result;
              row_count := qr_row_count result; error := None |}
         else
           {| success := false; data := []; columns := []; row_count := 0;
              error := qr_error result |} in
       do _ <- emit EvDispose;
       io_lift (Json.dumps (Some 2) (envelope_dict response)))
    (fun e =>
       io_lift (Json.dumps None (envelope_dict
         {| success := false; data := []; columns := []; row_count := 0;
            error := Some ("Tool error: " ++ exn_str e) |}))).

End Tools.

Definition get_database_schema (w : World) : io string :=
  io_try
    (let server := getenv w "MSSQL_SERVER" in
     let database := getenv w "MSSQL_DATABASE" in
     let username := getenv w "MSSQL_USERNAME" in
     let password := getenv w "MSSQL_PASSWORD" in
     let driver := getenv_default w "MSSQL_DRIVER" "ODBC Driver 18 for SQL Server" in
     let trust_cert_str := lower (getenv_default w "TRUST_SERVER_CERTIFICATE" "true") in
     let trust_cert :=
       String.eqb trust_cert_str "true" || String.eqb trust_cert_str "yes" in
     if negb (all_set [server; database; username; password]) then
       io_ret "Error: Database credentials not configured in environment variables"
     else
       do engine <- create_db_engine (lib w) (or_empty server) (or_empty database)
                      (or_empty username) (or_empty password) driver trust_cert;
       let schema_info := get_schema_info engine None 100 in
       do _ <- emit EvDispose;
       io_ret schema_info)
    (fun e => io_ret ("Error retrieving schema: " ++ exn_str e)).

End Tools.

(* ===================================================================== *)
(** * [evaluate_sql.py]: the retry loop around the text-to-SQL agent *)
(* ===================================================================== *)

Module EvaluateSql.
Import Py.

(** An event of the agent run, reduced to [event.actions.state_delta];
    the empty dictionary stands also for an event without actions. *)
Record Event := { state_delta : list (string * string) }.

(** What one turn of the [try] block does: [create_session] raises, or
    [run_async] yields some events and then raises or completes. *)
Inductive attempt :=
| SessionRaises (e : exn)
| RunRaises (events : list Event) (e : exn)
| RunCompletes (events : list Event).

(** The local variables of the loop; [generated_sql] is [None] while the
    variable is unbound, [waits] lists the arguments of
    [asyncio.sleep(wait_time)] and [calls] counts the turns. *)
Record loop_state := {
  retry_count : nat;
  generated_sql : option string;
  waits : list Z;
  calls : nat
}.

(** [async for event in events: ...] starting from [generated_sql]. *)
Definition consume (events : list Event) (generated_sql : string) : string :=
  fold_left (fun sql event =>
               match state_delta event with
               | [] => sql
               | delta => get "sql_query" EmptyString delta
               end) events generated_sql.

Definition is_rate_limit (e : exn) : bool :=
  let error_str := exn_str e in
  contains error_str "429" || contains error_str "RESOURCE_EXHAUSTED".

(** [while retry_count < max_retries: ...].  The loop is written by
    recursion on [remaining = max_retries - retry_count], so that the loop
    test is [remaining <> 0]; [model n] is what the turn number [n] meets. *)
Fixpoint retry_loop (model : nat -> attempt) (remaining : nat) (st : loop_state)
  : result loop_state :=
  match remaining with
  | O => Return st
  | S remaining' =>
      let except (st : loop_state) (e : exn) : result loop_state :=
        if negb (is_Exception e) then Raise e
        else if is_rate_limit e then
          let retry_count := S (retry_count st) in
          let wait_time := (Z.of_nat retry_count * 20)%Z in
          retry_loop model remaining'
            {| retry_count := retry_count; generated_sql := generated_sql st;
               waits := (waits st ++ [wait_time])%list; calls := calls st |}
        else
          Return {| retry_count := retry_count st;
                    generated_sql := Some EmptyString;
                    waits := waits st; calls := calls st |} in
      match model (calls st) with
      | SessionRaises e =>
          except {| retry_count := retry_count st;
                    generated_sql := generated_sql st;
                    waits := waits st; calls := S (calls st) |} e
      | RunRaises events e =>
          except {| retry_count := retry_count st;
                    generated_sql := Some (consume events EmptyString);
                    waits := waits st; calls := S (calls st) |} e
      | RunCompletes events =>
          Return {| retry_count := retry_count st;
                    generated_sql := Some (consume events EmptyString);
                    waits := waits st; calls := S (calls st) |}
      end
  end.

Definition max_retries : nat := 3.

(** How the generation step of one test case ends: the case is skipped
    with the message "No SQL returned or Failed after retries", or the
    cleaned query goes on to the comparison. *)
Inductive generation :=
| NoSql
| GeneratedSql (sql : string).

(** [if not generated_sql: ... continue], then the cleaning of the query. *)
Definition finish (generated_sql : string) : generation :=
  if negb (truthy (PStr generated_sql)) then NoSql
  else GeneratedSql
         (strip (replace (replace generated_sql "```sql" EmptyString) "```" EmptyString)).

(** The body of [for i, case in enumerate(test_cases)] from
    [retry_count = 0] to the cleaned query; [previous] is the value the
    variable [generated_sql] has on entry, if any. *)
Definition generate (model : nat -> attempt) (previous : option string)
  : result (generation * loop_state) :=
  st ← retry_loop model max_retries
         {| retry_count := 0; generated_sql := previous; waits := []; calls := 0 |};
  match generated_sql st with
  | None =>
      Raise (Exception
        "cannot access local variable 'generated_sql' where it is not associated with a value")
  | Some sql => Return (finish sql, st)
  end.

(** An attempt that fails on a rate-limit error before any event. *)
Definition rate_limited (a : attempt) : Prop :=
  exists e, a = RunRaises [] e /\ is_Exception e = true /\ is_rate_limit e = true.

(** An attempt that fails on a rate-limit error, at [create_session] or
    in the course of the run, after any number of events. *)
Definition rate_limit_failure (a : attempt) : Prop :=
  exists e, (a = SessionRaises e \/ exists events, a = RunRaises events e)
            /\ is_Exception e = true /\ is_rate_limit e = true.

(** The waits after [k] failures: 20, 40, ..., 20 k seconds. *)
Definition backoff (k : nat) : list Z := map (fun i => (Z.of_nat i * 20)%Z) (seq 1 k).

End EvaluateSql.

(* ===================================================================== *)
(** * [app.py]: the presentation adapter *)
(* ===================================================================== *)

Module App.
Import Py Db.

(** What [exec(chart_spec_clean, namespace)] does: it returns or raises;
    [chart] is [namespace.get('chart')] afterwards and [frame] is the data
    frame as the code left it (the namespace holds the frame itself). *)
Inductive exec_outcome :=
| ExecReturns (chart : option pyval) (frame : DataFrame)
| ExecRaises (e : exn) (frame : DataFrame).

(** The pipeline and the libraries behind [process_request_async]. *)
Record Runtime := {
  run_bi_pipeline_async : string -> result dict;
  json_loads : string -> result pyval;              (* json.loads *)
  pd_DataFrame : pyval -> result DataFrame;         (* pd.DataFrame(data_list) *)
  exec : string -> DataFrame -> exec_outcome;
  str : pyval -> string                             (* str(v) of a non-string *)
}.

(** [f"{v}"] *)
Definition format (rt : Runtime) (v : pyval) : string :=
  match v with PStr s => s | _ => str rt v end.

(** [v.strip()] *)
Definition method_strip (v : pyval) : result string :=
  match v with
  | PStr s => Return (strip s)
  | _ => Raise (AttributeError v "strip")
  end.

(** [v.get(key, default)] *)
Definition method_get (v : pyval) (key : string) (default : pyval) : result pyval :=
  match v with
  | PDict d => Return (get key default d)
  | _ => Raise (AttributeError v "get")
  end.

Definition response : Type := (string * option DataFrame * option pyval * pyval)%type.

(** [json.loads(query_results_str) if isinstance(query_results_str, str)
    else query_results_str] *)
Definition loads_if_str (rt : Runtime) (query_results_str : pyval) : result pyval :=
  match query_results_str with
  | PStr s => json_loads rt s
  | _ => Return query_results_str
  end.

(** The removal of a Markdown fence, written twice in the source: for
    [tag = "```sql"] on the query and for [tag = "```python"] on the chart
    code. *)
Definition unfence (tag s : string) : string :=
  if startswith s tag then
    strip (replace (replace s tag EmptyString) "```" EmptyString)
  else if startswith s "```" then
    strip (replace s "```" EmptyString)
  else s.

Definition empty_frame : DataFrame := {| df_columns := []; df_rows := [] |}.

(** The block [if chart_spec: try: ... except Exception as e: ...]: the
    chart and the frame afterwards. *)
Definition chart_block (rt : Runtime) (chart_spec : pyval) (df : DataFrame)
  : result (option pyval * DataFrame) :=
  if truthy chart_spec then
    match method_strip chart_spec with
    | Raise e => if is_Exception e then Return (None, df) else Raise e
    | Return chart_spec_clean =>
        let chart_spec_clean := unfence "```python" chart_spec_clean in
        match exec rt chart_spec_clean df with
        | ExecReturns chart df => Return (chart, df)
        | ExecRaises e df => if is_Exception e then Return (None, df) else Raise e
        end
    end
  else Return (None, df).

Definition process_request_async (rt : Runtime) (message : string) : result response :=
  try_except_Exception
    (if negb (truthy (PStr (strip message))) then
       Return ("Error: Please enter a question", None, None,
               PStr "Error: No question provided")
     else
       results ← run_bi_pipeline_async rt message;
       let sql_query := get "sql_query" (PStr EmptyString) results in
       sql_query ← method_strip sql_query;
       let sql_query := unfence "```sql" sql_query in
       let query_results_str := get "query_results" (PStr "{}") results in
       query_results ←
         try_except_all
           (loads_if_str rt query_results_str)
           (Return (PDict [("success", PBool false); ("data", PList []);
                           ("error", PStr "Failed to parse query results")]));
       ok ← method_get query_results "success" (PBool false);
       if negb (truthy ok) then
         error_msg ← method_get query_results "error" (PStr "Unknown error");
         let sql_query :=
           "-- Error executing query" ++ nl ++ sql_query ++ nl ++ nl
           ++ "-- Error: " ++ format rt error_msg in
         Return (sql_query, None, None,
                 PStr ("Error executing query: " ++ format rt error_msg))
       else
         data_list ← method_get query_results "data" (PList []);
         if negb (truthy data_list) then
           Return (sql_query, Some empty_frame, None,
                   PStr "The query executed successfully but returned no data.")
         else
           df ← pd_DataFrame rt data_list;
           let chart_spec := get "chart_spec" (PStr EmptyString) results in
           let explanation_text := get "explanation_text" (PStr EmptyString) results in
           '(chart, df) ← chart_block rt chart_spec df;
           Return (sql_query, Some df, chart, explanation_text))
    (fun e =>
       let error_msg := "Error: " ++ exn_str e in
       Return (error_msg, None, None, PStr error_msg)).

End App.

(* ===================================================================== *)
(** * Scenarios: concrete databases, environments and runs *)
(* ===================================================================== *)

Module Scenarios.
Import Py Db DbConfig Tools EvaluateSql App.

(** A result envelope with two records. *)
Definition sample_envelope : Envelope :=
  {| success := true;
     data := [[("Category", PStr "Bikes"); ("n", PInt 3)];
              [("Category", PStr "Helmets"); ("n", PInt (-1))]];
     columns := ["Category"; "n"]; row_count := 2; error := None |}.

(** A catalog with the table [dbo.Products(ProductID, Category)], the
    table [dbo.Orders(OrderID)] and a view. *)
Definition sample_catalog : Catalog :=
  {| TABLES :=
       [{| TABLE_SCHEMA := "dbo"; TABLE_NAME := "Products"; TABLE_TYPE := "BASE TABLE" |};
        {| TABLE_SCHEMA := "dbo"; TABLE_NAME := "Orders"; TABLE_TYPE := "BASE TABLE" |};
        {| TABLE_SCHEMA := "dbo"; TABLE_NAME := "Summary"; TABLE_TYPE := "VIEW" |}];
     COLUMNS :=
       [{| COL_TABLE_SCHEMA := "dbo"; COL_TABLE_NAME := "Products";
           COLUMN_NAME := "Category"; ORDINAL_POSITION := 2;
           DATA_TYPE := "nvarchar"; IS_NULLABLE := "YES"; COLUMN_DEFAULT := None |};
        {| COL_TABLE_SCHEMA := "dbo"; COL_TABLE_NAME := "Products";
           COLUMN_NAME := "ProductID"; ORDINAL_POSITION := 1;
           DATA_TYPE := "int"; IS_NULLABLE := "NO"; COLUMN_DEFAULT := None |};
        {| COL_TABLE_SCHEMA := "dbo"; COL_TABLE_NAME := "Orders";
           COLUMN_NAME := "OrderID"; ORDINAL_POSITION := 1;
           DATA_TYPE := "int"; IS_NULLABLE := "NO"; COLUMN_DEFAULT := None |};
        {| COL_TABLE_SCHEMA := "dbo"; COL_TABLE_NAME := "Summary";
           COLUMN_NAME := "Total"; ORDINAL_POSITION := 1;
           DATA_TYPE := "int"; IS_NULLABLE := "YES"; COLUMN_DEFAULT := None |}] |}.

(** The same catalog with its rows stored in another order. *)
Definition shuffled_catalog : Catalog :=
  {| TABLES := rev (TABLES sample_catalog); COLUMNS := rev (COLUMNS sample_catalog) |}.

Definition products_frame (rows : list (list cell)) : DataFrame :=
  {| df_columns := ["ProductID"; "Category"]; df_rows := rows |}.

(** An engine over [sample_catalog]: the statement with [WHERE 1 = 0]
    selects nothing, any other one selects the rows of [Products]. *)
Definition sample_engine (products : list (list cell)) : Engine :=
  {| connect_error := None;
     catalog := sample_catalog;
     run_select := fun sql =>
       if String.eqb sql "SELECT * FROM Products WHERE 1 = 0"
       then inr (products_frame [])
       else inr (products_frame products) |}.

Definition sample_products : list (list cell) :=
  [[CInt 1; CStr "Bikes"]; [CInt 2; CStr "Helmets"]].

(** An environment with all credentials, and one with no password. *)
Definition sample_world : World :=
  {| getenv := fun key =>
       if String.eqb key "MSSQL_SERVER" then Some "localhost"
       else if String.eqb key "MSSQL_DATABASE" then Some "shop"
       else if String.eqb key "MSSQL_USERNAME" then Some "reader"
       else if String.eqb key "MSSQL_PASSWORD" then Some "secret"
       else None;
     lib := {| quote_plus := fun s => s;
               create_engine := fun _ => Return (sample_engine sample_products) |} |}.

(** The address [sample_world] gives to [create_engine]. *)
Definition sample_url : string :=
  "mssql+pyodbc:///?odbc_connect=DRIVER={ODBC Driver 18 for SQL Server};"
  ++ "SERVER=localhost;DATABASE=shop;UID=reader;PWD=secret;TrustServerCertificate=yes;".

Definition world_without_password : World :=
  {| getenv := fun key =>
       if String.eqb key "MSSQL_PASSWORD" then None else getenv sample_world key;
     lib := lib sample_world |}.

(** The retry scenario: [n] rate-limit failures, then a turn that yields
    the query. *)
Definition failures_then_success (n : nat) (turn : nat) : attempt :=
  if (turn <? n)%nat then RunRaises [] (Exception "429 RESOURCE_EXHAUSTED")
  else RunCompletes [{| state_delta := [("sql_query", "SELECT 1")] |}].

(** The column a list of values makes, as the inference of pandas finds
    it: [bool] when every value is one, [int64] when every value is an
    integer, [float64] when the values are integers, floats, [None] or
    missing and one of them is a number or missing, and [object]
    otherwise. *)
Inductive dtype := BoolColumn | IntColumn | FloatColumn | ObjectColumn.

Definition dtype_of (values : list pyval) : dtype :=
  let is_bool v := match v with PBool _ => true | _ => false end in
  let is_int v := match v with PInt _ => true | _ => false end in
  let is_float v := match v with PFloat _ => true | _ => false end in
  let is_none v := match v with PNone => true | _ => false end in
  if forallb is_bool values then BoolColumn
  else if forallb is_int values then IntColumn
  else if forallb (fun v => is_int v || is_float v || is_none v) values
          && existsb (fun v => is_int v || is_float v) values
       then FloatColumn
  else ObjectColumn.

(** What a record holds in column [k]: a record without the key gives
    NaN. *)
Definition value_at (k : string) (record : pyval) : pyval :=
  match record with
  | PDict d => match lookup k d with Some v => v | None => PFloat FNaN end
  | _ => PNone
  end.

(** The cell of a value in a column of the given kind: in a [float64]
    column an integer becomes the float of the same value and [None]
    becomes NaN. *)
Definition cell_in (kind : dtype) (v : pyval) : cell :=
  match kind, v with
  | FloatColumn, PInt z => CFloat (FFixed (z <? 0)%Z (Z.to_N (Z.abs z)) d0 Decimal.Nil)
  | FloatColumn, PNone => CFloat FNaN
  | _, PNone => CNull
  | _, PBool b => CBool b
  | _, PInt z => CInt z
  | _, PFloat f => CFloat f
  | _, PStr s => CStr s
  | _, other => CObject (type_name other)
  end.

(** [pd.DataFrame(data_list)] on a list of flat records whose integers
    are whole numbers a float holds exactly (below 2^53 in size): the
    columns are the keys of the records in the order they first occur. *)
Definition frame_of_records (v : pyval) : result DataFrame :=
  match v with
  | PList (PDict first :: rest) =>
      let records := PDict first :: rest in
      match List.filter (fun r => match r with PDict _ => false | _ => true end) rest with
      | other :: _ =>
          Raise (Exception ("'" ++ type_name other ++ "' object has no attribute 'keys'"))
      | [] =>
          let columns :=
            DbConfig.first_occurrences
              (flat_map (fun r => match r with PDict d => keys d | _ => [] end) records) in
          let kind k := dtype_of (map (value_at k) records) in
          Return {| df_columns := columns;
                    df_rows := map (fun r => map (fun k => cell_in (kind k) (value_at k r))
                                               columns) records |}
      end
  | _ => Raise (Exception "DataFrame constructor not properly called!")
  end.

(** [repr] of a string: in single quotes, or in double quotes when the
    text holds a single quote and no double quote; the quote, the
    backslash and what is not printable are escaped. *)
Definition repr_char (quote c : ascii) : string :=
  let single x := String x EmptyString in
  if Ascii.eqb c quote || Ascii.eqb c Json.backslash then String Json.backslash (single c)
  else if Ascii.eqb c "010" then String Json.backslash "n"
  else if Ascii.eqb c "013" then String Json.backslash "r"
  else if Ascii.eqb c "009" then String Json.backslash "t"
  else if ((code c <? 32) || ((126 <? code c) && (code c <? 161))
           || (code c =? 173))%nat
       then String Json.backslash
              (String "x" (String (Json.hex_digit (code c / 16))
                             (single (Json.hex_digit (code c mod 16)))))
  else single c.

Definition repr_str (s : string) : string :=
  let double := String Json.dquote EmptyString in
  let quote := if contains s "'" && negb (contains s double) then Json.dquote
               else "'"%char in
  String quote
    (DbConfig.concat_all (map (repr_char quote) (list_ascii_of_string s))
     ++ String quote EmptyString).

Definition repr_float (f : pyfloat) : string :=
  match f with
  | FNaN => "nan"
  | FInfinity negative => if negative then "-inf" else "inf"
  | _ => Json.floatstr f
  end.

Definition comma_separated (items : list string) : string :=
  string_of_list_ascii
    (Json.join (list_ascii_of_string ", ") (map list_ascii_of_string items)).

(** [repr(v)]; of an object of another class only the class is known. *)
Fixpoint repr (v : pyval) : string :=
  match v with
  | PNone => "None"
  | PBool true => "True"
  | PBool false => "False"
  | PInt z => str_int z
  | PFloat f => repr_float f
  | PStr s => repr_str s
  | PList l => "[" ++ comma_separated (map repr l) ++ "]"
  | PDict d =>
      "{" ++ comma_separated (map (fun kv => repr_str (fst kv) ++ ": " ++ repr (snd kv)) d)
      ++ "}"
  | PObject cls => "<" ++ cls ++ " object>"
  end.

(** [str(v)] *)
Definition str_of (v : pyval) : string :=
  match v with
  | PStr s => s
  | other => repr other
  end.

(** A runtime whose pipeline returns [results], whose [json.loads] is the
    decoder of this development, and whose chart code ends as [outcome]
    says. *)
Definition runtime (results : dict) (outcome : DataFrame -> exec_outcome) : Runtime :=
  {| run_bi_pipeline_async := fun _ => Return results;
     json_loads := fun s =>
       match Json.loads s with
       | Some v => Return v
       | None => Raise (Exception "Expecting value")
       end;
     pd_DataFrame := frame_of_records;
     exec := fun _ df => outcome df;
     str := str_of |}.

Definition sample_json : string :=
  match Json.dumps (Some 2) (envelope_dict sample_envelope) with
  | Return s => s
  | Raise _ => EmptyString
  end.

Definition sample_results (query_results chart_spec : string) : dict :=
  [("sql_query", PStr "```sql SELECT Category, COUNT(*) AS n FROM Products GROUP BY Category```");
   ("query_results", PStr query_results);
   ("chart_spec", PStr chart_spec);
   ("explanation_text", PStr "Bikes lead with 3 products.")].

Definition sample_question : string := "How many products are there in each category?".

(** The query results are not JSON. *)
Definition run_with_bad_json : Runtime :=
  runtime (sample_results "I could not run the query" "chart = alt.Chart(df)")
          (fun df => ExecReturns (Some (PObject "Chart")) df).

(** The chart code raises [NameError]. *)
Definition run_with_bad_chart : Runtime :=
  runtime (sample_results sample_json "chart = alt.Chart(frame)")
          (fun df => ExecRaises (Exception "name 'frame' is not defined") df).

(** The chart code calls [sys.exit(1)], which raises [SystemExit]. *)
Definition run_with_exiting_chart : Runtime :=
  runtime (sample_results sample_json "import sys; sys.exit(1)")
          (fun df => ExecRaises {| is_Exception := false; exn_str := "1" |} df).

End Scenarios.

(* ===================================================================== *)
(** * [bi_agent/db_config.py]: [validate_connection] *)
(* ===================================================================== *)

Module DbConnection.
Import Py Db.

(** [result.scalar()]: the first column of the first row, [None] when no
    row comes back. *)
Definition scalar (df : DataFrame) : cell :=
  match df_rows df with
  | (c :: _) :: _ => c
  | _ => CNull
  end.

(** [s[:stop]] on a string, for [stop >= 0]. *)
Fixpoint str_slice_to (stop : nat) (s : string) : string :=
  match stop, s with
  | S stop', String c s' => String c (str_slice_to stop' s')
  | _, _ => EmptyString
  end.

(** [version[:50]]: a string is cut; [None], a number or an object of a
    scalar class cannot be subscripted. *)
Definition subscript_to_50 (version : cell) : result string :=
  match version with
  | CStr s => Return (str_slice_to 50 s)
  | other =>
      Raise (Exception ("'" ++ tp_name (cell_value other)
                        ++ "' object is not subscriptable"))
  end.

Definition version_query : string := "SELECT @@VERSION AS version".

Definition validate_connection (engine : Engine) : io (bool * string) :=
  io_try
    (do _ <- emit EvConnect;
     match connect_error engine with
     | Some msg => io_raise (Exception msg)
     | None =>
         do _ <- emit (EvExecute version_query);
         match run_select engine version_query with
         | inl (_, msg) => io_raise (Exception msg)
         | inr result =>
             let version := scalar result in
             do shown <- io_lift (subscript_to_50 version);
             io_ret (true, "Connected successfully. SQL Server version: "
                           ++ shown ++ "...")
         end
     end)
    (fun e => io_ret (false, "Connection failed: " ++ exn_str e)).

End DbConnection.

(* ===================================================================== *)
(** * [bi_agent/bi_service.py]: the class [BIService] *)
(* ===================================================================== *)

Module BIServiceClass.
Import Py Db DbConfig DbConnection.

(** The attributes of a [BIService] object. *)
Record BIService := {
  server : string;
  database : string;
  username : string;
  password : string;
  driver : string;
  trust_server_certificate : bool;
  engine : option Engine;
  schema_info : option string
}.

(** [BIService(server, database, username, password, driver,
    trust_server_certificate)] *)
Definition init (server database username password driver : string)
    (trust_server_certificate : bool) : BIService :=
  {| server := server; database := database; username := username;
     password := password; driver := driver;
     trust_server_certificate := trust_server_certificate;
     engine := None; schema_info := None |}.

(** [self.engine = e] and [self.schema_info = s] *)
Definition set_engine (self : BIService) (e : option Engine) : BIService :=
  {| server := server self; database := database self; username := username self;
     password := password self; driver := driver self;
     trust_server_certificate := trust_server_certificate self;
     engine := e; schema_info := schema_info self |}.

Definition set_schema_info (self : BIService) (s : option string) : BIService :=
  {| server := server self; database := database self; username := username self;
     password := password self; driver := driver self;
     trust_server_certificate := trust_server_certificate self;
     engine := engine self; schema_info := s |}.

(** [BIService.connect]: the answer and the object afterwards.  The
    engine is assigned before the connection is validated. *)
Definition connect (lib : Libraries) (self : BIService)
  : io ((bool * string) * BIService) :=
  let except (self : BIService) (e : exn) (t : list db_event)
    : io ((bool * string) * BIService) :=
    if is_Exception e
    then (Return ((false, "Connection error: " ++ exn_str e), self), t)
    else (Raise e, t) in
  match create_db_engine lib (server self) (database self) (username self)
          (password self) (driver self) (trust_server_certificate self) with
  | (Raise e, t) => except self e t
  | (Return created, t) =>
      let self := set_engine self (Some created) in
      match validate_connection created with
      | (Return (is_connected, message), t') =>
          (Return ((is_connected, message), self), (t ++ t')%list)
      | (Raise e, t') => except self e (t ++ t')%list
      end
  end.

(** [BIService.load_schema] *)
Definition load_schema (self : BIService) (max_tables : Z)
  : result (string * BIService) :=
  match engine self with
  | None => Raise (Exception "Not connected to database. Call connect() first.")
  | Some e =>
      let text := get_schema_info e None max_tables in
      Return (text, set_schema_info self (Some text))
  end.

(** [BIService.execute_sql] *)
Definition execute_sql (execute_query : Engine -> string -> io QueryResult)
    (self : BIService) (sql_query : string) : io QueryResult :=
  BIService.execute_sql execute_query (engine self) sql_query.

(** [BIService.get_schema_for_sql_generation] *)
Definition get_schema_for_sql_generation (self : BIService) (question : string)
  : result string :=
  match schema_info self with
  | None => Raise (Exception "Schema not loaded. Call load_schema() first.")
  | Some text => Return (text ++ nl ++ nl ++ "User Question: " ++ question ++ nl)
  end.

(** [BIService.close]: the object afterwards. *)
Definition close (self : BIService) : io BIService :=
  match engine self with
  | Some _ => do _ <- emit EvDispose; io_ret (set_engine self None)
  | None => io_ret self
  end.

End BIServiceClass.

(* ===================================================================== *)
(** * [app.py]: the pipeline run and the synchronous entry point *)
(* ===================================================================== *)

Module AppEntry.
Import Py Db Tools App.

(** The runner of the root agent: [create_session] gives a session id or
    raises; [run_async] yields the state deltas of its events (the empty
    dictionary for an event without one) and then ends or raises.  The
    tools of the agents run inside it, [execute_sql_and_format] among
    them, so that a run leaves database events of its own. *)
Record Runner := {
  create_session : result string;
  run_async : string -> string -> list dict * option exn * list db_event
}.

(** [for key, value in event.actions.state_delta.items():
    results[key] = value] *)
Definition merge_delta (results delta : dict) : dict :=
  fold_left (fun results kv => set (fst kv) (snd kv) results) delta results.

(** The dictionary [results] after the loop over the events. *)
Definition collect (deltas : list dict) : dict := fold_left merge_delta deltas [].

Definition enhanced_prompt (schema_context user_question : string) : string :=
  nl ++ "Here is the Database Schema you must use:" ++ nl
  ++ schema_context ++ nl ++ nl
  ++ "User Question: " ++ user_question ++ nl.

Definition run_bi_pipeline_async (w : World) (runner : Runner) (user_question : string)
  : io dict :=
  do session <- io_lift (create_session runner);
  do schema_context <- get_database_schema w;
  let '(deltas, raised, events) := run_async runner session
                                     (enhanced_prompt schema_context user_question) in
  match raised with
  | Some e => (Raise e, events)
  | None => (Return (collect deltas), events)
  end.

(** [process_request], the wrapper that runs the coroutine. *)
Definition process_request (rt : Runtime) (message : string) : result response :=
  try_except_Exception
    (process_request_async rt message)
    (fun e =>
       let error_msg := "Error: " ++ exn_str e in
       Return (error_msg, None, None, PStr error_msg)).

End AppEntry.

(* ===================================================================== *)
(** * Plain text *)
(* ===================================================================== *)

Module Text.
Import Py.

(** A character of plain text: printable ASCII, or the newline. *)
Definition is_plain (c : ascii) : bool :=
  ((32 <=? code c) && (code c <=? 126))%nat || Ascii.eqb c "010".

Definition all_plain (s : string) : bool := forallb is_plain (list_ascii_of_string s).

End Text.

(* ===================================================================== *)
(** * Further scenarios *)
(* ===================================================================== *)

Module MoreScenarios.
Import Py Db DbConfig Tools EvaluateSql App DbConnection BIServiceClass AppEntry.

(** A server that answers the version query. *)
Definition versioned_engine (version : cell) : Engine :=
  {| connect_error := None;
     catalog := Scenarios.sample_catalog;
     run_select := fun sql =>
       if String.eqb sql version_query
       then inr {| df_columns := ["version"]; df_rows := [[version]] |}
       else inr (Scenarios.products_frame Scenarios.sample_products) |}.

(** A server that refuses the connection. *)
Definition unreachable_engine : Engine :=
  {| connect_error := Some "Login timeout expired";
     catalog := Scenarios.sample_catalog;
     run_select := fun _ => inl (ConnectionFailure, "Login timeout expired") |}.

(** Libraries whose [create_engine] gives the engine [e], and libraries
    whose [create_engine] raises. *)
Definition libraries_for (e : Engine) : Libraries :=
  {| quote_plus := fun s => s; create_engine := fun _ => Return e |}.

Definition broken_libraries : Libraries :=
  {| quote_plus := fun s => s;
     create_engine := fun _ => Raise (Exception "Can't load plugin: sqlalchemy.dialects:mssql") |}.

Definition broken_world : World :=
  {| getenv := getenv Scenarios.sample_world; lib := broken_libraries |}.

Definition sample_service : BIService :=
  init "localhost" "shop" "reader" "secret" "ODBC Driver 18 for SQL Server" true.

(** An [execute_query] that runs the statement and answers with the
    rows of [Products]. *)
Definition products_result : QueryResult :=
  {| qr_success := true;
     qr_data := Some (Scenarios.products_frame Scenarios.sample_products);
     qr_columns := ["ProductID"; "Category"]; qr_row_count := 2; qr_error := None |}.

Definition answering_execute_query (engine : Engine) (sql : string) : io QueryResult :=
  (Return products_result, [EvConnect; EvExecute sql]).

(** An [execute_query] that raises after it has connected. *)
Definition failing_execute_query (engine : Engine) (sql : string) : io QueryResult :=
  (Raise (Exception "connection reset"), [EvConnect]).

(** A run in which the first turn meets a rate limit and the second an
    internal error of the model, after an event that carried a query. *)
Definition rate_limit_then_error (turn : nat) : attempt :=
  if (turn <? 1)%nat then RunRaises [] (Exception "429 RESOURCE_EXHAUSTED")
  else RunRaises [{| state_delta := [("sql_query", "SELECT 1")] |}]
                 (Exception "500 INTERNAL").

(** A run in which the session cannot be created for the rate limit. *)
Definition no_session (turn : nat) : attempt :=
  SessionRaises (Exception "429 RESOURCE_EXHAUSTED").

(** A run of the root agent: the query, an event without state, the
    query results, then a second write of the query; the executor agent
    has called [execute_sql_and_format] on the first query. *)
Definition sample_runner : Runner :=
  {| create_session := Return "session-1";
     run_async := fun _ _ =>
       ([[("sql_query", PStr "SELECT 1")];
         [];
         [("query_results", PStr "{}")];
         [("sql_query", PStr "SELECT 2"); ("chart_spec", PStr EmptyString)]],
        None,
        snd (execute_sql_and_format answering_execute_query Scenarios.sample_world
               "SELECT 1")) |}.

(** The text [execute_sql_and_format] writes for an envelope. *)
Definition json_of (e : Envelope) : string :=
  match Json.dumps (Some 2) (envelope_dict e) with
  | Return s => s
  | Raise _ => EmptyString
  end.

(** The pipeline state of a run whose query failed, of a run whose query
    gave no row, of a run whose results are a JSON list, and of a run
    that wrote no query results. *)
Definition failed_results : dict :=
  Scenarios.sample_results
    (json_of (failure_envelope (Some "SQL error: Invalid object name 'Product'")))
    "chart = alt.Chart(df)".

Definition empty_results : dict :=
  Scenarios.sample_results
    (json_of {| success := true; data := []; columns := ["Category"; "n"];
                row_count := 0; error := None |})
    "chart = alt.Chart(df)".

Definition list_results : dict :=
  Scenarios.sample_results "[1, 2]" "chart = alt.Chart(df)".

Definition results_without_query_results : dict :=
  [("sql_query", PStr "SELECT 1")].

(** A runtime whose pipeline raises. *)
Definition failing_runtime : Runtime :=
  {| App.run_bi_pipeline_async := fun _ => Raise (Exception "429 RESOURCE_EXHAUSTED");
     json_loads := json_loads (Scenarios.runtime [] (fun df => ExecReturns None df));
     pd_DataFrame := Scenarios.frame_of_records;
     exec := fun _ df => ExecReturns None df;
     str := Scenarios.str_of |}.

(** A base table and a column of type [int] that is not nullable. *)
Definition base_table (schema table : string) : table_row :=
  {| TABLE_SCHEMA := schema; TABLE_NAME := table; TABLE_TYPE := "BASE TABLE" |}.

Definition int_column (schema table column : string) (position : Z) : column_row :=
  {| COL_TABLE_SCHEMA := schema; COL_TABLE_NAME := table; COLUMN_NAME := column;
     ORDINAL_POSITION := position; DATA_TYPE := "int"; IS_NULLABLE := "NO";
     COLUMN_DEFAULT := None |}.

(** A server with the catalog [cat] whose tables hold no rows. *)
Definition engine_over (cat : Catalog) : Engine :=
  {| connect_error := None; catalog := cat;
     run_select := fun _ => inr {| df_columns := []; df_rows := [] |} |}.

(** Three base tables of which two have the qualified name [a.b.c]: the
    table [c] of the schema [a.b] and the table [b.c] of the schema [a]. *)
Definition colliding_catalog : Catalog :=
  {| TABLES := [base_table "a.b" "c"; base_table "a" "b.c"; base_table "a" "c"];
     COLUMNS := [int_column "a.b" "c" "z" 1; int_column "a" "b.c" "x" 1;
                 int_column "a" "c" "y" 1] |}.

(** Two base tables, of which [dbo.Audit] shows no column. *)
Definition columnless_catalog : Catalog :=
  {| TABLES := [base_table "dbo" "Products"; base_table "dbo" "Audit"];
     COLUMNS := [int_column "dbo" "Products" "ProductID" 1] |}.

(** An envelope with float cells, one whose record holds [nan], as pandas
    gives for a [NULL] in a numeric column, and one whose record holds a
    [Decimal]. *)
Definition priced_envelope : Envelope :=
  {| success := true;
     data := [[("Category", PStr "Bikes");
               ("Price", PFloat (FFixed false 19 d9 (Decimal.D9 Decimal.Nil)))];
              [("Category", PStr "Helmets");
               ("Price", PFloat (FSci true 2 (Decimal.D5 Decimal.Nil) (-7)))];
              [("Category", PStr "Locks"); ("Price", PFloat (FInfinity false))]];
     columns := ["Category"; "Price"]; row_count := 3; error := None |}.

Definition nan_envelope : Envelope :=
  {| success := true; data := [[("Price", PFloat FNaN)]];
     columns := ["Price"]; row_count := 1; error := None |}.

Definition decimal_envelope : Envelope :=
  {| success := true; data := [[("Price", PObject "Decimal")]];
     columns := ["Price"]; row_count := 1; error := None |}.

(** Chart code that binds no name [chart] and drops a column of [df]. *)
Definition chartless_code_outcome (df : DataFrame) : exec_outcome :=
  ExecReturns None {| df_columns := take 1 (df_columns df);
                      df_rows := map (take 1) (df_rows df) |}.

End MoreScenarios.

(* ===================================================================== *)
(** * Facts about [json]: decoding undoes encoding *)
(* ===================================================================== *)

Module JsonFacts.
Import Py Json.
Local Open Scope list_scope.

Lemma skip_ws_app (w s : list ascii) :
  Forall (fun c => is_ws c = true) w -> skip_ws (w ++ s) = skip_ws s.
Proof. induction 1 as [|c w Hc _ IH]; simpl; [done|]. by rewrite Hc. Qed.

Lemma skip_ws_stop c s : is_ws c = false -> skip_ws (c :: s) = c :: s.
Proof. intros H. simpl. by rewrite H. Qed.

Lemma newline_indent_ws indent level :
  Forall (fun c => is_ws c = true) (newline_indent indent level).
Proof.
  destruct indent as [n|]; simpl; [|constructor].
  constructor; [done|]. apply Forall_forall. intros c Hc.
  apply list_elem_of_In, repeat_spec in Hc. by subst.
Qed.

Lemma scan_escape c tail :
  scan_string (escape_char c ++ tail) = push c (scan_string tail).
Proof. destruct c as [[] [] [] [] [] [] [] []]; reflexivity. Qed.

Lemma scan_string_encoded l rest :
  scan_string (flat_map escape_char l ++ dquote :: rest) = Some (l, rest).
Proof.
  induction l as [|c l IH]; [done|].
  cbn [flat_map]. rewrite <- app_assoc, scan_escape, IH. done.
Qed.

Lemma read_digits_encoded d rest :
  match rest with [] => True | c :: _ => digit_of c = None end ->
  read_digits (list_ascii_of_string (uint_digits d) ++ rest) = (d, rest).
Proof.
  intros Hrest. induction d; cbn; try (rewrite IHd; done).
  destruct rest as [|c rest]; [done|]. cbn. by rewrite Hrest.
Qed.

Lemma unorm_D0 d x : Decimal.unorm d = Decimal.D0 x -> x = Decimal.Nil.
Proof. induction d; cbn; intros H; try discriminate; auto. congruence. Qed.

Lemma to_uint_head p :
  exists c t, list_ascii_of_string (uint_digits (Pos.to_uint p)) = c :: t
    /\ is_digit c = true /\ Ascii.eqb c "0" = false.
Proof.
  assert (Hn : Pos.to_uint p = Decimal.unorm (Pos.to_uint p)).
  { change (Pos.to_uint p) with (N.to_uint (N.pos p)) at 1.
    rewrite <- (DecimalPos.Unsigned.of_to p) at 1.
    apply DecimalN.Unsigned.to_of. }
  pose proof (DecimalPos.Unsigned.to_uint_nonnil p) as Hnil.
  destruct (Pos.to_uint p) eqn:E; try done; cbn; try (eexists _, _; split; [reflexivity|done]).
  symmetry in Hn. apply unorm_D0 in Hn. subst.
  by destruct (DecimalPos.Unsigned.to_uint_nonzero p).
Qed.

Lemma scan_nat_pos p rest :
  match rest with [] => True | c :: _ => digit_of c = None end ->
  scan_nat (list_ascii_of_string (uint_digits (Pos.to_uint p)) ++ rest)
  = Some (N.pos p, rest).
Proof.
  intros Hrest. destruct (to_uint_head p) as (c & t & E & Hd & H0).
  unfold scan_nat. rewrite E. cbn [app]. rewrite H0, Hd.
  change (c :: t ++ rest) with ((c :: t) ++ rest). rewrite <- E.
  rewrite read_digits_encoded by done.
  change (Pos.to_uint p) with (N.to_uint (N.pos p)).
  by rewrite DecimalN.Unsigned.of_to.
Qed.

Lemma list_ascii_of_append (a b : string) :
  list_ascii_of_string (a ++ b)%string = list_ascii_of_string a ++ list_ascii_of_string b.
Proof.
  induction a as [|c a IH]; [done|].
  change (c :: list_ascii_of_string (a ++ b)%string
          = c :: (list_ascii_of_string a ++ list_ascii_of_string b)).
  by rewrite IH.
Qed.

Lemma delimited_nondigit rest : delimited rest -> nondigit rest.
Proof. destruct rest; [done|]. by intros [? _]. Qed.

Lemma to_uint_nonnil n : N.to_uint n <> Decimal.Nil.
Proof. destruct n as [|p]; [done|]. apply DecimalPos.Unsigned.to_uint_nonnil. Qed.

Lemma scan_nat_encoded n rest :
  nondigit rest ->
  scan_nat (list_ascii_of_string (uint_digits (N.to_uint n)) ++ rest) = Some (n, rest).
Proof. intros Hrest. destruct n as [|p]; [done|]. by apply scan_nat_pos. Qed.

Lemma nat_digits_head n :
  exists c t, list_ascii_of_string (uint_digits (N.to_uint n)) = c :: t
    /\ is_digit c = true /\ Ascii.eqb c "-" = false.
Proof.
  destruct (N.to_uint n) eqn:E; try (by destruct (to_uint_nonnil n));
    cbn; eexists _, _; done.
Qed.

Lemma scan_fraction_none rest : delimited rest -> scan_fraction rest = None.
Proof.
  destruct rest as [|c rest]; [done|]. intros [_ H]. cbn.
  unfold is_float_mark in H. by destruct (Ascii.eqb c ".").
Qed.

Lemma scan_exponent_none rest : delimited rest -> scan_exponent rest = None.
Proof.
  destruct rest as [|c rest]; [done|]. intros [_ H]. cbn.
  unfold is_float_mark in H.
  destruct (Ascii.eqb c "."); [done|]. cbn in H. by rewrite H.
Qed.

Lemma scan_fraction_encoded d rest :
  d <> Decimal.Nil -> nondigit rest ->
  scan_fraction ("."%char :: list_ascii_of_string (uint_digits d) ++ rest) = Some (d, rest).
Proof.
  intros Hd Hrest. cbn. rewrite read_digits_encoded by done. by destruct d.
Qed.

Lemma scan_exponent_encoded e rest :
  nondigit rest ->
  scan_exponent (list_ascii_of_string (exponent_text e) ++ rest) = Some (e, rest).
Proof.
  intros Hrest. unfold exponent_text, scan_exponent.
  cbn [list_ascii_of_string app]. change (Ascii.eqb "e" "e") with true. cbn [orb].
  set (n := Z.to_N (Z.abs e)).
  assert (Hsign : signed (e <? 0)%Z (Z.of_N n) = e).
  { unfold signed, n. rewrite Z2N.id by lia. destruct (Z.ltb_spec e 0); lia. }
  assert (Hread : forall d, d <> Decimal.Nil -> N.of_uint d = n ->
            match read_digits (list_ascii_of_string (uint_digits d) ++ rest) with
            | (Decimal.Nil, _) => None
            | (d', rest') => Some (signed (e <? 0)%Z (Z.of_N (N.of_uint d')), rest')
            end = Some (e, rest)).
  { intros d Hd Hn. rewrite read_digits_encoded by done. rewrite Hn, Hsign. by destruct d. }
  assert (Hpad : match read_digits
                         (list_ascii_of_string
                            (if (Z.abs e <? 10)%Z
                             then String "0" (uint_digits (N.to_uint n))
                             else uint_digits (N.to_uint n)) ++ rest) with
                 | (Decimal.Nil, _) => None
                 | (d', rest') => Some (signed (e <? 0)%Z (Z.of_N (N.of_uint d')), rest')
                 end = Some (e, rest)).
  { destruct (Z.abs e <? 10)%Z.
    - apply (Hread (Decimal.D0 (N.to_uint n))); [done|].
      change (N.of_uint (Decimal.D0 (N.to_uint n))) with (N.of_uint (N.to_uint n)).
      apply DecimalN.Unsigned.of_to.
    - apply Hread; [apply to_uint_nonnil|apply DecimalN.Unsigned.of_to]. }
  destruct (e <? 0)%Z; exact Hpad.
Qed.

Lemma uncons_cons_digit d u : uncons_digit (cons_digit d u) = Some (d, u).
Proof. by destruct d. Qed.

Lemma cons_digit_digits d u :
  list_ascii_of_string (uint_digits (cons_digit d u))
  = digit_char d :: list_ascii_of_string (uint_digits u).
Proof. by destruct d. Qed.

Lemma cons_digit_nonnil d u : cons_digit d u <> Decimal.Nil.
Proof. by destruct d. Qed.

(** A number is read sign first, then the whole part, then what follows. *)
Lemma scan_number_signed (negative : bool) (whole : N) (tail : list ascii) :
  nondigit tail ->
  scan_number
    (list_ascii_of_string (if negative then "-"%string else EmptyString)
     ++ list_ascii_of_string (uint_digits (N.to_uint whole)) ++ tail)
  = match scan_fraction tail with
    | Some (fraction, rest1) =>
        match scan_exponent rest1 with
        | Some (e, rest2) => Some (PFloat (FSci negative whole fraction e), rest2)
        | None =>
            match uncons_digit fraction with
            | Some (tenths, digits) =>
                Some (PFloat (FFixed negative whole tenths digits), rest1)
            | None => None
            end
        end
    | None =>
        match scan_exponent tail with
        | Some (e, rest2) => Some (PFloat (FSci negative whole Decimal.Nil e), rest2)
        | None => Some (PInt (signed negative (Z.of_N whole)), tail)
        end
    end.
Proof.
  intros Htail. destruct (nat_digits_head whole) as (c & t & E & _ & Hc).
  unfold scan_number. destruct negative.
  - cbn [list_ascii_of_string app]. change (Ascii.eqb "-" "-") with true. cbn iota.
    by rewrite scan_nat_encoded.
  - cbn [list_ascii_of_string app]. rewrite E. cbn [app]. rewrite Hc.
    change (c :: t ++ tail) with ((c :: t) ++ tail). rewrite <- E.
    by rewrite scan_nat_encoded.
Qed.

Lemma scan_number_int z rest :
  delimited rest ->
  scan_number (list_ascii_of_string (str_int z) ++ rest) = Some (PInt z, rest).
Proof.
  intros Hrest. pose proof (delimited_nondigit _ Hrest) as Hnd.
  assert (H : forall (negative : bool) whole,
            scan_number
              (list_ascii_of_string (if negative then "-"%string else EmptyString)
               ++ list_ascii_of_string (uint_digits (N.to_uint whole)) ++ rest)
            = Some (PInt (signed negative (Z.of_N whole)), rest)).
  { intros negative whole. rewrite scan_number_signed by done.
    by rewrite scan_fraction_none, scan_exponent_none. }
  destruct z as [|p|p].
  - exact (H false 0%N).
  - exact (H false (N.pos p)).
  - exact (H true (N.pos p)).
Qed.

(** The text of a float: its sign, the whole part and the rest. *)
Lemma floatstr_fixed (negative : bool) whole tenths digits :
  list_ascii_of_string (floatstr (FFixed negative whole tenths digits))
  = list_ascii_of_string (if negative then "-"%string else EmptyString)
    ++ list_ascii_of_string (uint_digits (N.to_uint whole))
    ++ "."%char :: list_ascii_of_string (uint_digits (cons_digit tenths digits)).
Proof.
  unfold floatstr. rewrite !list_ascii_of_append. by rewrite cons_digit_digits.
Qed.

Lemma floatstr_sci (negative : bool) whole fraction e :
  list_ascii_of_string (floatstr (FSci negative whole fraction e))
  = list_ascii_of_string (if negative then "-"%string else EmptyString)
    ++ list_ascii_of_string (uint_digits (N.to_uint whole))
    ++ match fraction with
       | Decimal.Nil => []
       | _ => "."%char :: list_ascii_of_string (uint_digits fraction)
       end
    ++ list_ascii_of_string (exponent_text e).
Proof.
  unfold floatstr. rewrite !list_ascii_of_append. by destruct fraction.
Qed.

Lemma exponent_text_head e t :
  nondigit (list_ascii_of_string (exponent_text e) ++ t).
Proof. done. Qed.

Lemma scan_fraction_exponent e t :
  scan_fraction (list_ascii_of_string (exponent_text e) ++ t) = None.
Proof. done. Qed.

Lemma scan_number_float f rest :
  delimited rest ->
  match f with FFixed _ _ _ _ | FSci _ _ _ _ => True | _ => False end ->
  scan_number (list_ascii_of_string (floatstr f) ++ rest) = Some (PFloat f, rest).
Proof.
  intros Hrest Hf. pose proof (delimited_nondigit _ Hrest) as Hnd.
  destruct f as [| |negative whole tenths digits|negative whole fraction e]; try done.
  - rewrite floatstr_fixed, <- !app_assoc. rewrite scan_number_signed by done.
    cbn [app]. rewrite scan_fraction_encoded by (done || apply cons_digit_nonnil).
    by rewrite scan_exponent_none, uncons_cons_digit.
  - rewrite floatstr_sci, <- !app_assoc.
    assert (Hcases : fraction = Decimal.Nil \/ fraction <> Decimal.Nil)
      by (destruct fraction; auto).
    destruct Hcases as [->|Hfr].
    + cbn [app]. rewrite scan_number_signed by apply exponent_text_head.
      by rewrite scan_fraction_exponent, scan_exponent_encoded.
    + replace (match fraction with
               | Decimal.Nil => []
               | _ => "."%char :: list_ascii_of_string (uint_digits fraction)
               end) with ("."%char :: list_ascii_of_string (uint_digits fraction))
        by (by destruct fraction).
      rewrite scan_number_signed by done. cbn [app].
      rewrite scan_fraction_encoded by (done || apply exponent_text_head).
      by rewrite scan_exponent_encoded.
Qed.

Lemma parse_value_number fuel c s :
  number_start c = true ->
  parse_value (S fuel) (c :: s)
  = match scan_number (c :: s) with
    | Some r => Some r
    | None => scan_constant (c :: s)
    end.
Proof.
  intros H. destruct c as [[] [] [] [] [] [] [] []]; try discriminate H; reflexivity.
Qed.

Lemma uint_digits_head d :
  d <> Decimal.Nil ->
  exists c t, list_ascii_of_string (uint_digits d) = c :: t /\ is_digit c = true.
Proof. destruct d; try done; intros _; cbn; eexists _, _; done. Qed.

Lemma str_int_head z :
  exists c t, list_ascii_of_string (str_int z) = c :: t /\ number_start c = true.
Proof.
  destruct z as [|p|p].
  - by eexists _, _.
  - unfold str_int. change (N.to_uint (Z.to_N (Z.pos p))) with (Pos.to_uint p).
    destruct (uint_digits_head (Pos.to_uint p)) as (c & t & E & Hc).
    { apply DecimalPos.Unsigned.to_uint_nonnil. }
    exists c, t. split; [done|]. unfold number_start. by rewrite Hc.
  - by eexists _, _.
Qed.

Lemma finite_head f :
  match f with FFixed _ _ _ _ | FSci _ _ _ _ => True | _ => False end ->
  exists c t, list_ascii_of_string (floatstr f) = c :: t /\ number_start c = true.
Proof.
  intros Hf.
  assert (H : forall (negative : bool) whole tail,
            exists c t, list_ascii_of_string (if negative then "-"%string else EmptyString)
                        ++ list_ascii_of_string (uint_digits (N.to_uint whole)) ++ tail
                        = c :: t /\ number_start c = true).
  { intros [] whole tail; [by eexists _, _|].
    destruct (nat_digits_head whole) as (c & t & E & Hc & _). rewrite E.
    exists c, (t ++ tail). split; [done|]. unfold number_start. by rewrite Hc. }
  destruct f as [| |negative whole tenths digits|negative whole fraction e]; try done.
  - rewrite floatstr_fixed. apply H.
  - rewrite floatstr_sci. apply H.
Qed.

Lemma parse_int fuel z rest :
  delimited rest ->
  parse_value (S fuel) (list_ascii_of_string (str_int z) ++ rest) = Some (PInt z, rest).
Proof.
  intros Hrest. destruct (str_int_head z) as (c & t & E & Hc).
  pose proof (scan_number_int z rest Hrest) as Hscan.
  rewrite E in *. cbn [app] in *. rewrite (parse_value_number _ _ _ Hc).
  by rewrite Hscan.
Qed.

Lemma parse_float fuel f rest :
  delimited rest ->
  parse_value (S fuel) (list_ascii_of_string (floatstr f) ++ rest) = Some (PFloat f, rest).
Proof.
  intros Hrest.
  destruct f as [|[]|negative whole tenths digits|negative whole fraction e] eqn:Ef;
    try reflexivity.
  - destruct (finite_head f) as (c & t & E & Hc); [by rewrite Ef|].
    pose proof (scan_number_float f rest Hrest) as Hscan. rewrite Ef in *.
    rewrite E in *. cbn [app] in *. rewrite (parse_value_number _ _ _ Hc).
    by rewrite Hscan.
  - destruct (finite_head f) as (c & t & E & Hc); [by rewrite Ef|].
    pose proof (scan_number_float f rest Hrest) as Hscan. rewrite Ef in *.
    rewrite E in *. cbn [app] in *. rewrite (parse_value_number _ _ _ Hc).
    by rewrite Hscan.
Qed.

Lemma parse_str fuel s rest :
  parse_value (S fuel) (encode_string s ++ rest) = Some (PStr s, rest).
Proof.
  unfold encode_string, encode_chars. cbn [app parse_value].
  change (Ascii.eqb dquote "[") with false. change (Ascii.eqb dquote "{") with false.
  change (Ascii.eqb dquote dquote) with true. cbn iota.
  rewrite <- app_assoc. cbn [app]. rewrite scan_string_encoded.
  by rewrite string_of_list_ascii_of_string.
Qed.

Lemma number_start_value c t : number_start c = true -> value_start (c :: t).
Proof.
  intros H. exists c, t. split; [done|].
  destruct c as [[] [] [] [] [] [] [] []]; try discriminate H; done.
Qed.

Lemma encode_start indent level v :
  unserializable v = None -> value_start (encode indent level v).
Proof.
  destruct v as [| [] | z | f | s | [|x l] | [|kv d] | cls]; cbn; intros H;
    try discriminate; try (by eexists _, _).
  - destruct (str_int_head z) as (c & t & E & Hc). rewrite E.
    by apply number_start_value.
  - destruct f as [|[]| |]; try (by eexists _, _).
    + destruct (finite_head (FFixed negative whole tenths rest)) as (c & t & E & Hc);
        [done|]. rewrite E. by apply number_start_value.
    + destruct (finite_head (FSci negative whole fraction exponent)) as (c & t & E & Hc);
        [done|]. rewrite E. by apply number_start_value.
Qed.

Lemma value_start_app s t : value_start s -> value_start (s ++ t).
Proof. intros (c & u & -> & H). by exists c, (u ++ t). Qed.

Lemma skip_ws_value s : value_start s -> skip_ws s = s.
Proof. intros (c & t & -> & H & _). by apply skip_ws_stop. Qed.

Lemma join_cons sep x y l : join sep (x :: y :: l) = x ++ sep ++ join sep (y :: l).
Proof. done. Qed.

Lemma of_pairs_snoc {V} (l : list (string * V)) k v :
  of_pairs (l ++ [(k, v)]) = set k v (of_pairs l).
Proof. unfold of_pairs. by rewrite fold_left_app. Qed.

Lemma set_fresh {V} (d : list (string * V)) k v :
  k ∉ map fst d -> set k v d = d ++ [(k, v)].
Proof.
  induction d as [|[k' v'] d IH]; cbn; intros H; [done|].
  apply not_elem_of_cons in H as [Hne H].
  destruct (String.eqb_spec k k'); [done|]. by rewrite IH.
Qed.

Lemma of_pairs_nodup {V} (l : list (string * V)) :
  NoDup (map fst l) -> of_pairs l = l.
Proof.
  induction l as [|[k v] l IH] using rev_ind; [done|].
  rewrite map_app, of_pairs_snoc. cbn. intros H.
  apply NoDup_app in H as (H1 & H2 & _).
  rewrite IH by done. apply set_fresh. intros Hin. apply (H2 k Hin). constructor.
Qed.

Lemma ok_list_cons x l : ok (PList (x :: l)) <-> ok x /\ ok (PList l).
Proof.
  unfold ok. cbn [well_formed unserializable forallb map first_some fold_right].
  rewrite andb_true_iff. destruct (unserializable x); [|tauto].
  split; [intros [_ H]|intros [[_ H] _]]; discriminate H.
Qed.

Lemma ok_dict_cons k x d :
  ok (PDict ((k, x) :: d)) <-> (k ∉ map fst d) /\ ok x /\ ok (PDict d).
Proof.
  unfold ok. cbn [well_formed unserializable forallb map first_some fold_right fst].
  rewrite !andb_true_iff, !bool_decide_eq_true, NoDup_cons.
  destruct (unserializable x); [|tauto].
  split; [intros [_ H]|intros (_ & [_ H] & _)]; discriminate H.
Qed.

Lemma ok_dict_nodup d : ok (PDict d) -> NoDup (map fst d).
Proof.
  unfold ok. cbn [well_formed]. rewrite andb_true_iff, bool_decide_eq_true. tauto.
Qed.

Lemma encode_list indent level x l :
  encode indent level (PList (x :: l))
  = "["%char :: newline_indent indent (S level) ++ items indent (S level) (x :: l)
    ++ newline_indent indent level ++ ["]"%char].
Proof. reflexivity. Qed.

Lemma encode_dict indent level kv d :
  encode indent level (PDict (kv :: d))
  = "{"%char :: newline_indent indent (S level) ++ members indent (S level) (kv :: d)
    ++ newline_indent indent level ++ ["}"%char].
Proof. reflexivity. Qed.

Lemma parse_elements_S f s :
  parse_elements (S f) s =
  match parse_value f s with
  | None => None
  | Some (v, rest) =>
      match skip_ws rest with
      | [] => None
      | c :: r =>
          if Ascii.eqb c "," then
            match parse_elements f (skip_ws r) with
            | Some (l, rest') => Some (v :: l, rest')
            | None => None
            end
          else if Ascii.eqb c "]" then Some ([v], r)
          else None
      end
  end.
Proof. reflexivity. Qed.

Lemma parse_members_S f k s :
  value_start s ->
  parse_members (S f) (encode_string k ++ key_separator ++ s) =
  match parse_value f s with
  | None => None
  | Some (v, rest) =>
      match skip_ws rest with
      | [] => None
      | c :: r =>
          if Ascii.eqb c "," then
            match parse_members f (skip_ws r) with
            | Some (d, rest') => Some ((k, v) :: d, rest')
            | None => None
            end
          else if Ascii.eqb c "}" then Some ([(k, v)], r)
          else None
      end
  end.
Proof.
  intros Hs. unfold encode_string, encode_chars. cbn [app parse_members].
  change (Ascii.eqb dquote dquote) with true. cbn iota.
  rewrite <- app_assoc. cbn [app]. rewrite scan_string_encoded.
  rewrite string_of_list_ascii_of_string.
  change (skip_ws (key_separator ++ s)) with (":"%char :: " "%char :: s).
  change (Ascii.eqb ":" ":") with true. cbn iota.
  change (skip_ws (" "%char :: s)) with (skip_ws s).
  by rewrite (skip_ws_value s Hs).
Qed.

Lemma parse_value_list f w text :
  all_ws w -> value_start text ->
  parse_value (S f) ("["%char :: w ++ text) =
  match parse_elements f text with
  | Some (l, rest) => Some (PList l, rest)
  | None => None
  end.
Proof.
  intros Hw Ht. cbn [parse_value]. change (Ascii.eqb "[" "[") with true. cbn iota.
  rewrite skip_ws_app, (skip_ws_value _ Ht) by done.
  destruct Ht as (c & t & -> & _ & Hc & _). by rewrite Hc.
Qed.

Lemma parse_value_dict f w text :
  all_ws w -> value_start text ->
  parse_value (S f) ("{"%char :: w ++ text) =
  match parse_members f text with
  | Some (d, rest) => Some (PDict (of_pairs d), rest)
  | None => None
  end.
Proof.
  intros Hw Ht. cbn [parse_value]. change (Ascii.eqb "{" "[") with false.
  change (Ascii.eqb "{" "{") with true. cbn iota.
  rewrite skip_ws_app, (skip_ws_value _ Ht) by done.
  destruct Ht as (c & t & -> & _ & _ & Hc). by rewrite Hc.
Qed.

Lemma encode_string_start k : value_start (encode_string k).
Proof. by eexists _, _. Qed.

Lemma items_start indent level x l :
  ok x -> value_start (items indent level (x :: l)).
Proof.
  intros [_ Hx]. unfold items. cbn [map]. destruct l; cbn [map join].
  - by apply encode_start.
  - by apply value_start_app, encode_start.
Qed.

Lemma members_start indent level kv d : value_start (members indent level (kv :: d)).
Proof.
  unfold members. destruct kv as [k x]. cbn [map member].
  destruct d; cbn [map join]; repeat apply value_start_app; apply encode_string_start.
Qed.

Lemma separator_shape indent level :
  exists w, item_separator indent level = ","%char :: w /\ all_ws w.
Proof.
  destruct indent as [n|]; cbn [item_separator].
  - eexists. split; [done|]. apply newline_indent_ws.
  - eexists. split; [done|]. by repeat constructor.
Qed.

Lemma delimited_comma t : delimited (","%char :: t).
Proof. done. Qed.

Lemma delimited_close w c t :
  all_ws w -> digit_of c = None -> is_float_mark c = false -> delimited (w ++ c :: t).
Proof.
  intros Hw Hc1 Hc2. destruct Hw as [|a w Ha _]; cbn; [done|].
  destruct a as [[] [] [] [] [] [] [] []]; try discriminate Ha; done.
Qed.

Lemma encode_nonempty indent level v :
  unserializable v = None -> 1 <= length (encode indent level v).
Proof.
  intros H. destruct (encode_start indent level v H) as (c & t & -> & _). cbn. lia.
Qed.

Lemma elements_step indent f :
  value_ok indent f -> elements_ok indent f -> elements_ok indent (S f).
Proof.
  intros IHv IHe l level w rest Hne Hl Hlen Hw.
  destruct l as [|x l]; [done|]. clear Hne.
  apply Forall_cons in Hl as [Hx Hl].
  destruct (separator_shape indent level) as (ws & Hsep & Hws).
  rewrite parse_elements_S. unfold items in *. cbn [map] in *.
  destruct l as [|y l].
  - cbn [map join] in *. rewrite IHv; [|done|lia|by apply delimited_close].
    rewrite skip_ws_app by done. done.
  - change (map _ (y :: l)) with (encode indent level y :: map (encode indent level) l) in *.
    rewrite join_cons in *. rewrite Hsep in *.
    rewrite length_app in Hlen. cbn [length app] in Hlen. rewrite length_app in Hlen.
    rewrite <- !app_assoc. cbn [app].
    rewrite IHv; [|done|lia|done].
    rewrite skip_ws_stop by done.
    change (Ascii.eqb "," ",") with true. cbn iota.
    rewrite skip_ws_app by done.
    pose proof (items_start indent level y l (proj1 (proj1 (Forall_cons _ _ _) Hl))) as Hst.
    unfold items in Hst. rewrite Hsep in Hst. cbn [map] in Hst.
    rewrite skip_ws_value by (by apply value_start_app).
    pose proof (IHe (y :: l) level w rest) as IH. unfold items in IH.
    rewrite Hsep in IH. cbn [map] in IH.
    rewrite IH; [done|done|done| |done].
    pose proof (encode_nonempty indent level x (proj2 Hx)). lia.
Qed.

Lemma members_step indent f :
  value_ok indent f -> members_ok indent f -> members_ok indent (S f).
Proof.
  intros IHv IHm d level w rest Hne Hd Hlen Hw.
  destruct d as [|[k x] d]; [done|]. clear Hne.
  apply Forall_cons in Hd as [Hx Hd]. cbn [snd] in Hx.
  destruct (separator_shape indent level) as (ws & Hsep & Hws).
  unfold members in *. cbn [map member] in *.
  destruct d as [|kv d].
  - cbn [map join] in *. rewrite <- !app_assoc.
    rewrite !length_app in Hlen.
    rewrite parse_members_S by (by apply value_start_app, encode_start, Hx).
    rewrite IHv; [|done|lia|by apply delimited_close].
    rewrite skip_ws_app by done. done.
  - change (map _ (kv :: d)) with (member indent level kv :: map (member indent level) d) in *.
    rewrite join_cons in *. rewrite Hsep in *.
    rewrite !length_app in Hlen. cbn [length app] in Hlen. rewrite ?length_app in Hlen.
    rewrite <- !app_assoc. cbn [app].
    rewrite parse_members_S by (by apply value_start_app, encode_start, Hx).
    rewrite IHv; [|done|lia|done].
    rewrite skip_ws_stop by done.
    change (Ascii.eqb "," ",") with true. cbn iota.
    rewrite skip_ws_app by done.
    pose proof (members_start indent level kv d) as Hst.
    unfold members in Hst. rewrite Hsep in Hst. cbn [map] in Hst.
    rewrite skip_ws_value by (by apply value_start_app).
    pose proof (IHm (kv :: d) level w rest) as IH. unfold members in IH.
    rewrite Hsep in IH. cbn [map] in IH.
    rewrite IH; [done|done|done| |done]. lia.
Qed.

Lemma value_step indent f :
  value_ok indent f -> elements_ok indent f -> members_ok indent f ->
  value_ok indent (S f).
Proof.
  intros IHv IHe IHm v level rest Hv Hlen Hrest.
  destruct v as [| [] | z | x | s | [|x l] | [|[k x] d] | cls].
  - reflexivity.
  - reflexivity.
  - reflexivity.
  - by apply parse_int.
  - by apply parse_float.
  - by apply parse_str.
  - reflexivity.
  - rewrite encode_list in *. cbn [app length] in *. rewrite <- !app_assoc.
    rewrite !length_app in Hlen. cbn [length] in Hlen.
    apply ok_list_cons in Hv as Hv'. destruct Hv' as [Hx Hl].
    assert (Hall : Forall ok (x :: l)).
    { clear -Hv. revert Hv. generalize (x :: l). intros l'. induction l' as [|y l' IH].
      - constructor.
      - intros [? ?]%ok_list_cons. constructor; auto. }
    rewrite parse_value_list;
      [|apply newline_indent_ws|by apply value_start_app, items_start].
    cbn [app]. rewrite IHe; [done|done|done|lia|apply newline_indent_ws].
  - reflexivity.
  - rewrite encode_dict in *. cbn [app length] in *. rewrite <- !app_assoc.
    rewrite !length_app in Hlen. cbn [length] in Hlen.
    assert (Hall : Forall (fun kv => ok (snd kv)) ((k, x) :: d)).
    { clear -Hv. revert Hv. generalize ((k, x) :: d). intros l. induction l as [|[k' y] l IH].
      - constructor.
      - intros (_ & ? & ?)%ok_dict_cons. constructor; auto. }
    rewrite parse_value_dict;
      [|apply newline_indent_ws|by apply value_start_app, members_start].
    cbn [app]. rewrite IHm; [|done|done|lia|apply newline_indent_ws].
    rewrite of_pairs_nodup; [done|]. by apply ok_dict_nodup.
  - destruct Hv as [_ Hv]. discriminate Hv.
Qed.

Lemma roundtrip_fuel indent fuel :
  value_ok indent fuel /\ elements_ok indent fuel /\ members_ok indent fuel.
Proof.
  induction fuel as [|f (IHv & IHe & IHm)].
  - split; [|split].
    + intros v level rest [_ Hv] Hlen _.
      pose proof (encode_nonempty indent level v Hv). lia.
    + intros l level w rest _ _ Hlen _. lia.
    + intros d level w rest _ _ Hlen _. lia.
  - split; [|split].
    + by apply value_step.
    + by apply elements_step.
    + by apply members_step.
Qed.

Lemma loads_dumps indent v :
  well_formed v = true -> unserializable v = None ->
  exists s, dumps indent v = Return s /\ loads s = Some v.
Proof.
  intros Hwf Hser. unfold dumps. rewrite Hser. eexists. split; [done|].
  unfold loads. rewrite list_ascii_of_string_of_list_ascii.
  pose proof (encode_start indent 0 v Hser) as Hst.
  rewrite (skip_ws_value _ Hst).
  destruct (roundtrip_fuel indent (S (length (encode indent 0 v)))) as [Hv _].
  pose proof (Hv v 0 [] (conj Hwf Hser)) as H. rewrite app_nil_r in H.
  rewrite H; [done|lia|done].
Qed.

(** *** Equality of values *)

Lemma number_eq_refl a : a <> NotANumber -> number_eq a a = true.
Proof.
  destruct a as [|negative|m e]; [done| |]; intros _; cbn.
  - by destruct negative.
  - apply Z.eqb_refl.
Qed.

Lemma first_some_none {A} (l : list (option A)) :
  first_some l = None -> Forall (fun o => o = None) l.
Proof.
  induction l as [|[a|] l IH]; cbn; [constructor|done|]. intros H. constructor; auto.
Qed.

Lemma lookup_nodup {V} (d : list (string * V)) k x :
  NoDup (map fst d) -> (k, x) ∈ d -> lookup k d = Some x.
Proof.
  induction d as [|[k' x'] d IH]; cbn [map fst lookup]; intros Hnd Hin.
  - by apply elem_of_nil in Hin.
  - apply NoDup_cons in Hnd as [Hfresh Hnd].
    apply elem_of_cons in Hin as [[= -> ->]|Hin]; [by rewrite String.eqb_refl|].
    destruct (String.eqb_spec k k') as [->|_]; [|by apply IH].
    destruct Hfresh. apply list_elem_of_fmap. by exists (k', x).
Qed.

Lemma py_eq_list l :
  Forall (fun x => py_eq x x = true) l -> py_eq (PList l) (PList l) = true.
Proof.
  cbn. induction 1 as [|x l Hx _ IH]; [done|]. by rewrite Hx, IH.
Qed.

Lemma py_eq_dict d :
  NoDup (map fst d) -> Forall (fun kv => py_eq (snd kv) (snd kv) = true) d ->
  py_eq (PDict d) (PDict d) = true.
Proof.
  intros Hnd Hall. cbn. rewrite Nat.eqb_refl. cbn [andb].
  apply forallb_forall. intros [k x] Hin. cbn [fst snd].
  rewrite (lookup_nodup d k x Hnd) by (by apply list_elem_of_In).
  rewrite Forall_forall in Hall. by apply (Hall (k, x)), list_elem_of_In.
Qed.

(** A value without [nan] equals itself. *)
Lemma py_eq_refl (v : pyval) :
  well_formed v = true -> unserializable v = None -> nan_free v = true ->
  py_eq v v = true.
Proof.
  revert v. fix py_eq_refl 1.
  intros v Hwf Hser Hnan. destruct v as [|b|z|x|s|l|d|cls].
  - reflexivity.
  - cbn. by destruct b.
  - cbn. apply Z.eqb_refl.
  - cbn [py_eq as_number]. apply number_eq_refl. by destruct x.
  - cbn. apply String.eqb_refl.
  - apply py_eq_list.
    cbn [well_formed unserializable nan_free] in *.
    apply first_some_none in Hser. rewrite Forall_fmap in Hser.
    rewrite forallb_forall in Hwf, Hnan. rewrite Forall_forall in Hser.
    assert (Hall : Forall (fun x => well_formed x = true -> unserializable x = None ->
                                    nan_free x = true -> py_eq x x = true) l).
    { clear -py_eq_refl. induction l as [|y l IH]; constructor; [apply py_eq_refl|exact IH]. }
    rewrite Forall_forall in Hall. apply Forall_forall. intros x Hx.
    apply Hall; [done|by apply Hwf, list_elem_of_In|by apply Hser
                |by apply Hnan, list_elem_of_In].
  - cbn [well_formed unserializable nan_free] in *.
    apply andb_prop in Hwf as [Hkeys Hwf]. apply bool_decide_eq_true in Hkeys.
    apply py_eq_dict; [done|].
    apply first_some_none in Hser. rewrite Forall_fmap in Hser.
    rewrite forallb_forall in Hwf, Hnan. rewrite Forall_forall in Hser.
    assert (Hall : Forall (fun kv : string * pyval =>
                      well_formed (snd kv) = true -> unserializable (snd kv) = None ->
                      nan_free (snd kv) = true -> py_eq (snd kv) (snd kv) = true) d).
    { clear -py_eq_refl. induction d as [|[k y] d IH]; constructor; [apply py_eq_refl|exact IH]. }
    rewrite Forall_forall in Hall. apply Forall_forall. intros [k x] Hx.
    apply Hall; [done| | |].
    + apply list_elem_of_In in Hx. exact (Hwf (k, x) Hx).
    + exact (Hser (k, x) Hx).
    + apply list_elem_of_In in Hx. exact (Hnan (k, x) Hx).
  - discriminate Hser.
Qed.

End JsonFacts.

(* ===================================================================== *)
(** * The schema reader of [db_config.py] *)
(* ===================================================================== *)

Module DbFacts.
Import Py Db DbConfig.
Local Open Scope string_scope.

(** *** The order of the [ORDER BY] clause *)

Lemma string_compare_refl s : String.compare s s = Eq.
Proof.
  destruct (String.compare s s) eqn:E; [done| |];
    pose proof (String.compare_antisym s s) as H; rewrite E in H; discriminate H.
Qed.

Lemma string_compare_lt_trans a b c :
  String.compare a b = Lt -> String.compare b c = Lt -> String.compare a c = Lt.
Proof.
  intros H1 H2. apply String_as_OT.cmp_lt in H1, H2. apply String_as_OT.cmp_lt.
  by eapply String_as_OT.lt_trans.
Qed.

Lemma string_compare_gt a b : String.compare a b = Gt <-> String.compare b a = Lt.
Proof. rewrite (String.compare_antisym b a). destruct (String.compare a b); by cbn. Qed.

Lemma key_compare_lt a b : key_compare a b = Lt <-> key_lt a b.
Proof.
  destruct a as [[s1 t1] o1], b as [[s2 t2] o2]. cbn.
  destruct (String.compare s1 s2) eqn:Es.
  - apply String.compare_eq_iff in Es as ->.
    destruct (String.compare t1 t2) eqn:Et.
    + apply String.compare_eq_iff in Et as ->. rewrite Z.compare_lt_iff.
      split; [auto|]. intros [?|[_ [?|[_ ?]]]]; try done.
    + split; [auto|done].
    + split; [done|]. intros [?|[_ [?|[-> _]]]]; try done.
      by rewrite string_compare_refl in Et.
  - split; [auto|done].
  - split; [done|]. intros [?|[-> _]]; [done|]. by rewrite string_compare_refl in Es.
Qed.

Lemma key_compare_eq a b : key_compare a b = Eq <-> a = b.
Proof.
  destruct a as [[s1 t1] o1], b as [[s2 t2] o2]. cbn. split.
  - destruct (String.compare s1 s2) eqn:Es; try done.
    destruct (String.compare t1 t2) eqn:Et; try done.
    intros ->%Z.compare_eq. apply String.compare_eq_iff in Es, Et. by subst.
  - intros [= -> -> ->]. by rewrite !string_compare_refl, Z.compare_refl.
Qed.

Lemma key_compare_gt a b : key_compare a b = Gt <-> key_compare b a = Lt.
Proof.
  destruct a as [[s1 t1] o1], b as [[s2 t2] o2]. cbn.
  rewrite (String.compare_antisym s1 s2), (String.compare_antisym t1 t2),
    (Z.compare_antisym o2 o1).
  destruct (String.compare s2 s1), (String.compare t2 t1), (Z.compare o2 o1);
    cbn; split; congruence.
Qed.

Lemma key_lt_trans a b c : key_lt a b -> key_lt b c -> key_lt a c.
Proof.
  destruct a as [[s1 t1] o1], b as [[s2 t2] o2], c as [[s3 t3] o3]. cbn.
  intros [H1|[-> H1]] [H2|[-> H2]].
  - left. by eapply string_compare_lt_trans.
  - by left.
  - by left.
  - right. split; [done|]. destruct H1 as [H1|[-> H1]], H2 as [H2|[-> H2]].
    + left. by eapply string_compare_lt_trans.
    + by left.
    + by left.
    + right. split; [done|]. lia.
Qed.

Lemma key_lt_irrefl a : ~ key_lt a a.
Proof. intros H. apply key_compare_lt in H. by rewrite (proj2 (key_compare_eq a a)) in H. Qed.

Lemma order_le_cases a b :
  order_le a b <-> key_lt (order_key a) (order_key b) \/ order_key a = order_key b.
Proof.
  unfold order_le. rewrite <- key_compare_lt, <- key_compare_eq.
  destruct (key_compare (order_key a) (order_key b)); intuition congruence.
Qed.

#[export] Instance order_le_trans : Transitive order_le.
Proof.
  intros a b c. rewrite !order_le_cases. intros [H1|H1] [H2|H2].
  - left. by eapply key_lt_trans.
  - left. by rewrite <- H2.
  - left. by rewrite H1.
  - right. congruence.
Qed.

#[export] Instance order_le_total : Total order_le.
Proof.
  intros a b. unfold order_le.
  destruct (key_compare (order_key a) (order_key b)) eqn:E; [by left|by left|].
  right. apply key_compare_gt in E. by rewrite E.
Qed.

Lemma order_le_antisym a b : order_le a b -> order_le b a -> order_key a = order_key b.
Proof.
  rewrite !order_le_cases. intros [H1|H1] [H2|H2]; try done.
  destruct (key_lt_irrefl (order_key a)). by eapply key_lt_trans.
Qed.

(** *** The join respects the contents of the catalog *)

Lemma flat_map_pointwise {A B} (f g : A -> list B) (l : list A) :
  (forall x, f x ≡ₚ g x) -> flat_map f l ≡ₚ flat_map g l.
Proof.
  intros Hfg. induction l as [|x l IH]; cbn; [done|]. by rewrite IH, Hfg.
Qed.

Lemma inner_join_perm (c1 c2 : Catalog) :
  TABLES c1 ≡ₚ TABLES c2 -> COLUMNS c1 ≡ₚ COLUMNS c2 ->
  inner_join c1 ≡ₚ inner_join c2.
Proof.
  intros Ht Hc. unfold inner_join.
  etrans; [by apply Permutation_flat_map|].
  apply flat_map_pointwise. intros t. destruct (where_clause t); [|done].
  apply Permutation_map. by apply filter_Permutation.
Qed.

Lemma nodup_map_inj {A B} (f : A -> B) (l : list A) x y :
  NoDup (map f l) -> x ∈ l -> y ∈ l -> f x = f y -> x = y.
Proof.
  induction l as [|z l IH]; cbn; intros Hnd Hx Hy Hf.
  - by apply elem_of_nil in Hx.
  - apply NoDup_cons in Hnd as [Hz Hnd].
    apply elem_of_cons in Hx as [->|Hx], Hy as [->|Hy]; [done| | |by apply IH].
    + destruct Hz. rewrite Hf. by apply list_elem_of_fmap_2.
    + destruct Hz. rewrite <- Hf. by apply list_elem_of_fmap_2.
Qed.

(** With distinct sort keys the sorted join does not depend on the order
    in which the catalog stores its rows. *)
Lemma catalog_query_perm (c1 c2 : Catalog) :
  TABLES c1 ≡ₚ TABLES c2 -> COLUMNS c1 ≡ₚ COLUMNS c2 ->
  order_key_unique c1 ->
  catalog_query c1 = catalog_query c2.
Proof.
  intros Ht Hc Hkey. unfold catalog_query. f_equal.
  pose proof (inner_join_perm c1 c2 Ht Hc) as Hj.
  apply (Sorted_unique_strong order_le).
  - intros x1 x2 Hx1 Hx2 H12 H21. unfold sorted_join in *.
    rewrite merge_sort_Permutation in Hx1. rewrite merge_sort_Permutation, <- Hj in Hx2.
    apply (nodup_map_inj order_key (inner_join c1)); try done.
    by apply order_le_antisym.
  - apply Sorted_merge_sort, _.
  - apply Sorted_merge_sort, _.
  - unfold sorted_join. by rewrite !merge_sort_Permutation.
Qed.

(** C9.  The text of [get_schema_info] is a function of the catalog (and
    of whether a connection can be opened): two databases with the same
    catalog give the same text, whatever rows their tables hold. *)
Theorem schema_text_ignores_rows (e1 e2 : Engine) (limit_tables : option (list string))
    (max_tables : Z) :
  connect_error e1 = connect_error e2 ->
  catalog e1 = catalog e2 ->
  get_schema_info e1 limit_tables max_tables = get_schema_info e2 limit_tables max_tables.
Proof. intros Hc Hcat. unfold get_schema_info. by rewrite Hc, Hcat. Qed.

(** *** The loop that organizes the rows by table *)

Lemma first_occurrences_snoc l x :
  first_occurrences (l ++ [x])
  = if decide (x ∈ l) then first_occurrences l else (first_occurrences l ++ [x])%list.
Proof.
  unfold first_occurrences. rewrite reverse_app, reverse_singleton.
  cbn [app remove_dups].
  destruct (decide_rel elem_of x (reverse l)) as [Hin|Hout];
    rewrite elem_of_reverse in *.
  - by rewrite decide_True by done.
  - rewrite decide_False by done. by rewrite reverse_cons.
Qed.

Lemma elem_of_first_occurrences l x : x ∈ first_occurrences l <-> x ∈ l.
Proof.
  unfold first_occurrences.
  by rewrite elem_of_reverse, elem_of_remove_dups, elem_of_reverse.
Qed.

Lemma NoDup_first_occurrences l : NoDup (first_occurrences l).
Proof. unfold first_occurrences. rewrite reverse_Permutation. apply NoDup_remove_dups. Qed.

Lemma lookup_tabulate {V} (f : string -> V) names n :
  lookup n (tabulate f names) = if decide (n ∈ names) then Some (f n) else None.
Proof.
  unfold tabulate. induction names as [|m names IH]; cbn [map lookup].
  - done.
  - destruct (String.eqb_spec n m) as [->|Hne].
    + by rewrite decide_True by left.
    + rewrite IH. destruct (decide (n ∈ names)) as [Hin|Hout].
      * by rewrite decide_True by (by right).
      * rewrite decide_False; [done|]. by intros [?|?]%elem_of_cons.
Qed.

Lemma keys_tabulate {V} (f : string -> V) names : keys (tabulate f names) = names.
Proof. unfold keys, tabulate. rewrite map_map. cbn. apply map_id. Qed.

Lemma set_tabulate {V} (f : string -> V) names n v :
  NoDup names -> n ∈ names ->
  set n v (tabulate f names)
  = tabulate (fun m => if String.eqb m n then v else f m) names.
Proof.
  unfold tabulate. induction names as [|m names IH]; cbn [map set]; intros Hnd Hin.
  - by apply elem_of_nil in Hin.
  - apply NoDup_cons in Hnd as [Hm Hnd].
    destruct (String.eqb_spec n m) as [->|Hne].
    + rewrite String.eqb_refl. f_equal. apply map_ext_in.
      intros k Hk. destruct (String.eqb_spec k m) as [->|]; [|done].
      destruct Hm. by apply list_elem_of_In.
    + destruct (String.eqb_spec m n) as [|_]; [congruence|]. f_equal.
      apply IH; [done|]. apply elem_of_cons in Hin as [?|?]; done.
Qed.

Lemma set_app_fresh {V} (d1 d2 : list (string * V)) n v :
  n ∉ map fst d1 -> set n v (d1 ++ d2) = (d1 ++ set n v d2)%list.
Proof.
  induction d1 as [|[k x] d1 IH]; cbn [map fst app set]; intros H; [done|].
  apply not_elem_of_cons in H as [Hne H].
  destruct (String.eqb_spec n k); [done|]. by rewrite IH.
Qed.

Lemma lookup_app_fresh {V} (d1 d2 : list (string * V)) n :
  n ∉ map fst d1 -> lookup n (d1 ++ d2) = lookup n d2.
Proof.
  induction d1 as [|[k x] d1 IH]; cbn [map fst app lookup]; intros H; [done|].
  apply not_elem_of_cons in H as [Hne H].
  destruct (String.eqb_spec n k); [done|]. by rewrite IH.
Qed.

Lemma tabulate_keys {V} (f : string -> V) names : map fst (tabulate f names) = names.
Proof. apply keys_tabulate. Qed.

Lemma tabulate_ext {V} (f g : string -> V) names :
  (forall n, n ∈ names -> f n = g n) -> tabulate f names = tabulate g names.
Proof.
  intros H. unfold tabulate. apply map_ext_in. intros n Hn. f_equal.
  by apply H, list_elem_of_In.
Qed.

Lemma columns_in_snoc rows r n :
  columns_in (rows ++ [r]) n
  = (columns_in rows n ++ if String.eqb (full_name r) n then [column_of r] else [])%list.
Proof.
  unfold columns_in. rewrite List.filter_app, map_app. cbn.
  by destruct (String.eqb (full_name r) n).
Qed.

Lemma columns_in_absent rows n : n ∉ map full_name rows -> columns_in rows n = [].
Proof.
  unfold columns_in. induction rows as [|r rows IH]; cbn; intros H; [done|].
  apply not_elem_of_cons in H as [Hne H].
  destruct (String.eqb_spec (full_name r) n); [done|]. by apply IH.
Qed.

Lemma organize_kept limit_tables tables r :
  organize limit_tables tables r
  = if kept limit_tables r then
      let tables' := match lookup (full_name r) tables with
                     | None => set (full_name r) [] tables
                     | Some _ => tables
                     end in
      set (full_name r) (get (full_name r) [] tables' ++ [column_of r])%list tables'
    else tables.
Proof.
  unfold organize, kept. fold (full_name r). fold (column_of r).
  destruct limit_tables as [[|x l]|]; try done.
  by destruct (bool_decide _).
Qed.

(** The dictionary built by the loop lists the tables in the order in
    which the rows first name them, each with its columns in row order. *)
Lemma tables_of_spec rows limit_tables :
  tables_of rows limit_tables = tables_in_row_order rows limit_tables.
Proof.
  unfold tables_of, tables_in_row_order.
  induction rows as [|r rows IH] using rev_ind; [done|].
  rewrite fold_left_app. cbn [fold_left]. rewrite IH, organize_kept.
  rewrite List.filter_app. cbn [List.filter].
  destruct (kept limit_tables r); [|by rewrite app_nil_r].
  set (rows' := List.filter (kept limit_tables) rows).
  rewrite map_app. cbn [map]. rewrite first_occurrences_snoc, lookup_tabulate.
  destruct (decide (full_name r ∈ map full_name rows')) as [Hin|Hout].
  - rewrite decide_True by (by apply elem_of_first_occurrences).
    cbn zeta. unfold get. rewrite lookup_tabulate.
    rewrite decide_True by (by apply elem_of_first_occurrences).
    rewrite set_tabulate;
      [|apply NoDup_first_occurrences|by apply elem_of_first_occurrences].
    unfold tabulate. apply map_ext. intros n. f_equal.
    rewrite columns_in_snoc. rewrite (String.eqb_sym n).
    destruct (String.eqb_spec (full_name r) n) as [->|]; [done|]. by rewrite app_nil_r.
  - rewrite decide_False by (by rewrite elem_of_first_occurrences).
    cbn zeta.
    assert (Hfresh : full_name r ∉ map fst (tabulate (columns_in rows')
                       (first_occurrences (map full_name rows')))).
    { by rewrite tabulate_keys, elem_of_first_occurrences. }
    rewrite (JsonFacts.set_fresh _ (full_name r) []) by done.
    unfold get. rewrite lookup_app_fresh by done. cbn [lookup].
    rewrite String.eqb_refl, set_app_fresh by done. cbn [set app].
    rewrite String.eqb_refl.
    unfold tabulate at 2. rewrite map_app. cbn [map]. fold (tabulate (columns_in (rows' ++ [r]))). f_equal.
    + apply tabulate_ext. intros n Hn. rewrite columns_in_snoc.
      destruct (String.eqb_spec (full_name r) n) as [<-|]; [|by rewrite app_nil_r].
      destruct Hout. by apply elem_of_first_occurrences.
    + rewrite columns_in_snoc, String.eqb_refl, columns_in_absent by done. done.
Qed.

(** *** The text *)

Lemma append_assoc (a b c : string) : (a ++ b) ++ c = a ++ (b ++ c).
Proof.
  induction a as [|x a IH]; [done|].
  change (String x ((a ++ b) ++ c) = String x (a ++ (b ++ c))). by rewrite IH.
Qed.

Lemma append_nil_r (a : string) : a ++ EmptyString = a.
Proof.
  induction a as [|x a IH]; [done|].
  change (String x (a ++ EmptyString) = String x a). by rewrite IH.
Qed.

(** A loop of [text += f(x)] appends the pieces in order. *)
Lemma fold_left_append {A} (f : A -> string) (l : list A) (init : string) :
  fold_left (fun text x => text ++ f x) l init = init ++ concat_all (map f l).
Proof.
  unfold concat_all.
  revert init. induction l as [|x l IH]; intros init; cbn [fold_left map fold_right].
  - by rewrite append_nil_r.
  - by rewrite IH, append_assoc.
Qed.

Lemma filter_all {A} (p : A -> bool) (l : list A) :
  (forall x, p x = true) -> List.filter p l = l.
Proof. intros H. induction l as [|x l IH]; cbn; [done|]. by rewrite H, IH. Qed.

Lemma keys_tables_of rows :
  keys (tables_of rows None) = first_occurrences (map full_name rows).
Proof.
  rewrite tables_of_spec. unfold tables_in_row_order.
  rewrite keys_tabulate. by rewrite filter_all.
Qed.

(** *** The tables the query finds *)

Lemma elem_of_inner_join cat t c :
  (t, c) ∈ inner_join cat
  <-> t ∈ TABLES cat /\ where_clause t = true /\ c ∈ COLUMNS cat /\ on_clause t c = true.
Proof.
  unfold inner_join. rewrite (list_elem_of_In _ (t, c)), in_flat_map. split.
  - intros (t' & Ht' & Hin). destruct (where_clause t') eqn:Hw; [|done].
    apply in_map_iff in Hin as (c' & [= -> ->] & Hc').
    apply list_elem_of_In, list_elem_of_filter in Hc' as [Hon Hc'].
    split; [by apply list_elem_of_In|done].
  - intros (Ht & Hw & Hc & Hon). exists t. split; [by apply list_elem_of_In|].
    rewrite Hw. apply in_map, list_elem_of_In, list_elem_of_filter. done.
Qed.

Lemma full_name_select_list t c : full_name (select_list (t, c)) = qualified_name t.
Proof. done. Qed.

Lemma queried_tables cat n :
  catalog_wf cat ->
  n ∈ map full_name (catalog_query cat) <-> n ∈ map qualified_name (base_tables cat).
Proof.
  intros [_ Hcols]. unfold catalog_query, sorted_join, base_tables.
  rewrite !list_elem_of_fmap. split.
  - intros (r & -> & (j & -> & Hj)%list_elem_of_fmap).
    rewrite merge_sort_Permutation in Hj. destruct j as [t c].
    apply elem_of_inner_join in Hj as (Ht & Hw & _).
    exists t. split; [done|]. apply list_elem_of_In, filter_In.
    by rewrite <- list_elem_of_In.
  - intros (t & -> & Ht). apply list_elem_of_In in Ht as Ht'.
    destruct (Hcols t Ht') as (c & Hc & Hon).
    apply filter_In in Ht' as [Ht' Hw].
    exists (select_list (t, c)). split; [done|]. apply list_elem_of_fmap.
    exists (t, c). split; [done|]. rewrite merge_sort_Permutation.
    apply elem_of_inner_join. by rewrite !list_elem_of_In.
Qed.

Lemma tables_count cat :
  catalog_wf cat ->
  length (tables_of (catalog_query cat) None) = length (base_tables cat).
Proof.
  intros Hwf. rewrite <- (length_map fst). fold (keys (tables_of (catalog_query cat) None)).
  rewrite keys_tables_of, <- (length_map qualified_name (base_tables cat)).
  apply Permutation_length, NoDup_Permutation.
  - apply NoDup_first_occurrences.
  - apply Hwf.
  - intros n. rewrite elem_of_first_occurrences. by apply queried_tables.
Qed.

(** *** Filtering by [limit_tables] *)

Lemma first_occurrences_filter (p : string -> bool) l :
  first_occurrences (List.filter p l) = List.filter p (first_occurrences l).
Proof.
  induction l as [|x l IH] using rev_ind; [done|].
  rewrite List.filter_app, first_occurrences_snoc. cbn [List.filter].
  destruct (p x) eqn:Hp.
  - rewrite first_occurrences_snoc, IH.
    destruct (decide (x ∈ l)) as [Hin|Hout].
    + rewrite decide_True; [done|].
      apply list_elem_of_In, filter_In. by rewrite <- list_elem_of_In.
    + rewrite decide_False.
      * rewrite List.filter_app. cbn [List.filter]. by rewrite Hp.
      * intros [Hin _]%list_elem_of_In%filter_In. by apply Hout, list_elem_of_In.
  - rewrite app_nil_r, IH.
    destruct (decide (x ∈ l)); [done|].
    rewrite List.filter_app. cbn [List.filter]. by rewrite Hp, app_nil_r.
Qed.

Lemma filter_map_comm {A B} (f : A -> B) (p : B -> bool) (l : list A) :
  List.filter p (map f l) = map f (List.filter (fun x => p (f x)) l).
Proof.
  induction l as [|x l IH]; [done|]. cbn. destruct (p (f x)); cbn; by rewrite IH.
Qed.

Lemma filter_filter_and {A} (p q : A -> bool) (l : list A) :
  List.filter p (List.filter q l) = List.filter (fun x => q x && p x) l.
Proof.
  induction l as [|x l IH]; [done|]. cbn.
  destruct (q x); cbn; [destruct (p x)|]; by rewrite IH.
Qed.

Lemma filter_tabulate {V} (f : string -> V) (p : string -> bool) names :
  List.filter (fun kv => p (fst kv)) (tabulate f names) = tabulate f (List.filter p names).
Proof.
  unfold tabulate. induction names as [|n names IH]; [done|]. cbn.
  destruct (p n); cbn; by rewrite IH.
Qed.

Lemma kept_listed names r :
  names <> [] -> kept (Some names) r = bool_decide (full_name r ∈ names).
Proof. by destruct names. Qed.

Lemma columns_in_filter (p : string -> bool) rows n :
  p n = true ->
  columns_in (List.filter (fun r => p (full_name r)) rows) n = columns_in rows n.
Proof.
  intros Hn. unfold columns_in. f_equal. rewrite filter_filter_and.
  apply filter_ext. intros r.
  destruct (String.eqb_spec (full_name r) n) as [->|]; [by rewrite Hn|by rewrite andb_false_r].
Qed.

Lemma tables_of_limited rows names :
  names <> [] ->
  tables_of rows (Some names)
  = List.filter (fun kv => bool_decide (fst kv ∈ names)) (tables_of rows None).
Proof.
  intros Hne. rewrite !tables_of_spec. unfold tables_in_row_order.
  rewrite (filter_all (kept None)) by done.
  rewrite (filter_ext (kept (Some names)) (fun r => bool_decide (full_name r ∈ names)))
    by (intros r; by apply kept_listed).
  pose (p := fun n : string => bool_decide (n ∈ names)).
  change (fun kv : string * list column_info => bool_decide (fst kv ∈ names))
    with (fun kv : string * list column_info => p (fst kv)).
  change (fun r : row => bool_decide (full_name r ∈ names))
    with (fun r : row => p (full_name r)).
  rewrite (filter_tabulate _ p), <- first_occurrences_filter, (filter_map_comm full_name p).
  apply tabulate_ext. intros n Hn.
  apply (columns_in_filter p).
  apply elem_of_first_occurrences, list_elem_of_fmap in Hn as (r & -> & Hr).
  apply list_elem_of_In, filter_In in Hr. tauto.
Qed.

Lemma length_keys {V} (d : list (string * V)) : length (keys d) = length d.
Proof. apply length_map. Qed.

Lemma listed_names_come_from_rows rows limit_tables n :
  n ∈ keys (tables_of rows limit_tables) -> n ∈ map full_name rows.
Proof.
  rewrite tables_of_spec. unfold tables_in_row_order.
  rewrite keys_tabulate, elem_of_first_occurrences.
  intros (r & -> & Hr)%list_elem_of_fmap. apply list_elem_of_fmap.
  exists r. split; [done|]. apply list_elem_of_In, filter_In in Hr as [Hr _].
  by apply list_elem_of_In.
Qed.

Lemma get_tables_of rows n : get n [] (tables_of rows None) = columns_in rows n.
Proof.
  rewrite tables_of_spec. unfold tables_in_row_order, get.
  rewrite (filter_all (kept None)) by done.
  rewrite lookup_tabulate.
  destruct (decide _) as [|Hout]; [done|].
  rewrite elem_of_first_occurrences in Hout.
  by rewrite columns_in_absent.
Qed.

Lemma filter_Permutation_bool {A} (p : A -> bool) (l1 l2 : list A) :
  l1 ≡ₚ l2 -> List.filter p l1 ≡ₚ List.filter p l2.
Proof.
  induction 1 as [|x l1 l2 _ IH|x y l|l1 l2 l3 _ IH1 _ IH2]; cbn.
  - done.
  - destruct (p x); [by constructor|done].
  - destruct (p x), (p y); try done. apply perm_swap.
  - by etrans.
Qed.

Lemma filter_none {A} (p : A -> bool) (l : list A) :
  (forall x, In x l -> p x = false) -> List.filter p l = [].
Proof.
  induction l as [|x l IH]; cbn; intros H; [done|].
  rewrite (H x) by auto. apply IH. auto.
Qed.

(** The rows of the join that carry the qualified name of a base table
    are the rows of that table, when no other base table has that name. *)
Lemma join_rows_of_table cols (t : table_row) (ts : list table_row) :
  NoDup (map qualified_name (List.filter where_clause ts)) ->
  In t (List.filter where_clause ts) ->
  List.filter (fun j => String.eqb (qualified_name (fst j)) (qualified_name t))
    (flat_map (fun t => if where_clause t
                        then map (fun c => (t, c))
                               (filter (fun c => on_clause t c = true) cols)
                        else []) ts)
  = map (fun c => (t, c)) (filter (fun c => on_clause t c = true) cols).
Proof.
  induction ts as [|t' ts IH]; cbn [List.filter flat_map]; [done|].
  destruct (where_clause t') eqn:Hw; [|by rewrite app_nil_l].
  cbn [map]. intros [Hfresh Hnd]%NoDup_cons Hin. rewrite List.filter_app.
  assert (Hrest : forall j, In j (flat_map (fun t => if where_clause t
                        then map (fun c => (t, c))
                               (filter (fun c => on_clause t c = true) cols)
                        else []) ts) ->
                  qualified_name (fst j) ∈ map qualified_name (List.filter where_clause ts)).
  { intros j (t2 & Ht2 & Hj)%in_flat_map. destruct (where_clause t2) eqn:Hw2; [|done].
    apply in_map_iff in Hj as (c & <- & _). apply list_elem_of_fmap.
    exists t2. split; [done|]. apply list_elem_of_In, filter_In. done. }
  destruct Hin as [->|Hin].
  - assert (Hmine : forall cs : list column_row,
              List.filter (fun j => String.eqb (qualified_name (fst j)) (qualified_name t))
                (map (fun c => (t, c)) cs) = map (fun c => (t, c)) cs).
    { intros cs. induction cs as [|c cs IHcs]; [done|].
      cbn. by rewrite String.eqb_refl, IHcs. }
    rewrite Hmine, filter_none, app_nil_r; [done|].
    intros j Hj. apply String.eqb_neq. intros E. apply Hfresh. rewrite <- E. by apply Hrest.
  - rewrite filter_none, app_nil_l; [by apply IH|].
    intros j (c & <- & _)%in_map_iff. apply String.eqb_neq. intros E.
    apply Hfresh. cbn [fst] in E. rewrite E. apply list_elem_of_fmap.
    exists t. split; [done|]. by apply list_elem_of_In.
Qed.


(** *** The text, piece by piece *)

Lemma format_table_block tables entry :
  NoDup (keys tables) -> entry ∈ tables ->
  format_table tables (fst entry) = table_block entry.
Proof.
  intros Hnd Hin. destruct entry as [n cols]. unfold format_table, table_block, get.
  cbn [fst snd]. rewrite (JsonFacts.lookup_nodup tables n cols Hnd Hin).
  rewrite fold_left_append. by rewrite !append_assoc.
Qed.

Lemma slice_to_map {A B} (f : A -> B) (l : list A) stop :
  slice_to (map f l) stop = map f (slice_to l stop).
Proof.
  unfold slice_to. rewrite length_map. by destruct (0 <=? stop)%Z; rewrite <- fmap_take.
Qed.

Lemma slice_to_subseteq {A} (l : list A) stop x : x ∈ slice_to l stop -> x ∈ l.
Proof. unfold slice_to. destruct (0 <=? stop)%Z; apply subseteq_take. Qed.

Lemma keys_tables_of_nodup rows limit_tables : NoDup (keys (tables_of rows limit_tables)).
Proof.
  rewrite tables_of_spec. unfold tables_in_row_order. rewrite keys_tabulate.
  apply NoDup_first_occurrences.
Qed.

(** The text that [get_schema_info] builds is the header, the blocks of
    the tables up to the cap, and the closing line. *)
Lemma schema_text_rendered rows limit_tables max_tables :
  schema_text_of rows limit_tables max_tables
  = rendered (tables_of rows limit_tables) max_tables.
Proof.
  unfold schema_text_of, rendered, listing, more_tables_line.
  set (tables := tables_of rows limit_tables).
  rewrite fold_left_append.
  assert (E : map (format_table tables) (slice_to (keys tables) max_tables)
              = map table_block (slice_to tables max_tables)).
  { unfold keys. rewrite slice_to_map, map_map. apply map_ext_in.
    intros entry Hin. apply format_table_block.
    - apply keys_tables_of_nodup.
    - by apply (slice_to_subseteq _ max_tables), list_elem_of_In. }
  rewrite E. destruct (max_tables <? Z.of_nat (length tables))%Z.
  - by rewrite !append_assoc.
  - by rewrite append_nil_r, !append_assoc.
Qed.

Lemma get_schema_info_rendered engine limit_tables max_tables :
  connect_error engine = None ->
  get_schema_info engine limit_tables max_tables
  = rendered (tables_of (catalog_query (catalog engine)) limit_tables) max_tables.
Proof. intros H. unfold get_schema_info. rewrite H. apply schema_text_rendered. Qed.


(** *** The groups of the join *)

Lemma first_occurrences_cons x l :
  first_occurrences (x :: l)
  = x :: List.filter (fun y => negb (String.eqb y x)) (first_occurrences l).
Proof.
  induction l as [|z l IH] using rev_ind; [done|].
  rewrite app_comm_cons, !first_occurrences_snoc, IH.
  destruct (String.eqb_spec z x) as [->|Hne].
  - rewrite decide_True by left.
    destruct (decide (x ∈ l)); [done|].
    rewrite List.filter_app. cbn [List.filter]. rewrite String.eqb_refl. cbn [negb].
    by rewrite app_nil_r.
  - destruct (decide (z ∈ l)) as [Hin|Hout].
    + rewrite decide_True by (by right). done.
    + rewrite decide_False by (by intros [?|?]%elem_of_cons).
      rewrite List.filter_app. cbn [List.filter].
      destruct (String.eqb_spec z x); [done|]. done.
Qed.

Lemma elem_of_rows_named rows n j :
  j ∈ rows_named rows n <-> j ∈ rows /\ name_of j = n.
Proof.
  unfold rows_named. rewrite (list_elem_of_In _ j), filter_In, <- list_elem_of_In.
  by rewrite String.eqb_eq.
Qed.

Lemma rows_named_head rows n :
  n ∈ map name_of rows ->
  exists j js, rows_named rows n = j :: js /\ name_of j = n /\ j ∈ rows.
Proof.
  intros (j & -> & Hj)%list_elem_of_fmap.
  destruct (rows_named rows (name_of j)) as [|j' js] eqn:E.
  - assert (Hin : j ∈ rows_named rows (name_of j)) by (by apply elem_of_rows_named).
    rewrite E in Hin. by apply elem_of_nil in Hin.
  - assert (Hin : j' ∈ rows_named rows (name_of j)) by (rewrite E; left).
    apply elem_of_rows_named in Hin as [Hin Hn]. by exists j', js.
Qed.

Lemma column_of_joined t j :
  column_of (select_list (t, snd j)) = column_of (select_list j).
Proof. by destruct j. Qed.

Lemma full_name_joined j : full_name (select_list j) = name_of j.
Proof. by destruct j. Qed.

(** The dictionary of the loop lists the groups of the join. *)
Lemma tables_of_groups rows :
  tables_of (map select_list rows) None = map entry_of (groups_of rows).
Proof.
  rewrite tables_of_spec. unfold tables_in_row_order, groups_of.
  rewrite (filter_all (kept None)) by done.
  rewrite map_map. rewrite (map_ext _ name_of full_name_joined).
  unfold tabulate. rewrite map_map. apply map_ext_in. intros n Hn.
  rewrite <- list_elem_of_In, elem_of_first_occurrences in Hn.
  assert (Hn' : n ∈ map name_of rows) by exact Hn.
  destruct (rows_named_head rows n Hn') as (j & js & E & Hj & _).
  unfold entry_of, group_named. rewrite E. cbn [fst snd]. f_equal; [by symmetry|].
  rewrite <- E. unfold columns_in, rows_named. rewrite filter_map_comm, !map_map.
  rewrite (filter_ext (fun x => String.eqb (full_name (select_list x)) n)
             (fun j0 => String.eqb (name_of j0) n))
    by (intros j0; by rewrite full_name_joined).
  apply map_ext. intros j0. symmetry. apply column_of_joined.
Qed.

Lemma groups_of_cons j rows :
  groups_of (j :: rows)
  = (fst j, snd j :: map snd (rows_named rows (name_of j)))
    :: map (group_named rows)
         (List.filter (fun n => negb (String.eqb n (name_of j)))
            (first_occurrences (map name_of rows))).
Proof.
  unfold groups_of. cbn [map]. rewrite first_occurrences_cons. cbn [map]. f_equal.
  - unfold group_named, rows_named. cbn [List.filter].
    by rewrite String.eqb_refl.
  - apply map_ext_in. intros n Hn. apply filter_In in Hn as [_ Hn].
    unfold group_named, rows_named. cbn [List.filter].
    rewrite String.eqb_sym. by destruct (String.eqb n (name_of j)).
Qed.

(** *** The order of the groups *)

Lemma StronglySorted_filter_map {A B} (R : B -> B -> Prop) (g : A -> B) (p : A -> bool) l :
  StronglySorted R (map g l) -> StronglySorted R (map g (List.filter p l)).
Proof.
  induction l as [|x l IH]; cbn [map List.filter]; intros H; [done|].
  apply StronglySorted_inv in H as [Hl Hx]. destruct (p x); [|by apply IH].
  cbn [map]. constructor; [by apply IH|].
  rewrite Forall_forall in *. intros y Hy. apply Hx.
  apply list_elem_of_fmap in Hy as (a & -> & Ha).
  apply list_elem_of_In, filter_In in Ha as [Ha _].
  apply list_elem_of_fmap. exists a. split; [done|]. by apply list_elem_of_In.
Qed.

Lemma group_named_head rows n :
  n ∈ map name_of rows ->
  exists j, j ∈ rows /\ name_of j = n /\ fst (group_named rows n) = fst j.
Proof.
  intros Hn. destruct (rows_named_head rows n Hn) as (j & js & E & Hj & Hin).
  exists j. split; [done|]. split; [done|]. unfold group_named. by rewrite E.
Qed.

Lemma order_le_tables a b :
  order_le a b -> name_of a <> name_of b -> table_lt (fst a) (fst b).
Proof.
  intros [Hlt|Heq]%order_le_cases Hne.
  - unfold order_key, key_lt, table_lt in *.
    destruct Hlt as [?|[Hs [?|[Ht _]]]]; [by left|by right|].
    destruct Hne. unfold name_of, qualified_name. by rewrite Hs, Ht.
  - destruct Hne. unfold order_key in Heq. injection Heq as Hs Ht _.
    unfold name_of, qualified_name. by rewrite Hs, Ht.
Qed.

(** The tables of the groups stand in the order of the sort: by schema,
    then by table name. *)
Lemma groups_are_sorted rows :
  StronglySorted order_le rows -> StronglySorted table_lt (map fst (groups_of rows)).
Proof.
  induction 1 as [|j rows Hrows IH Hj]; [constructor|].
  rewrite groups_of_cons. cbn [map fst]. rewrite map_map. constructor.
  - rewrite <- (map_map (group_named rows) fst).
    unfold groups_of in IH. rewrite map_map in IH.
    rewrite map_map. by apply (StronglySorted_filter_map table_lt).
  - apply Forall_forall. intros t (n & -> & Hn)%list_elem_of_fmap.
    apply list_elem_of_In, filter_In in Hn as [Hn Hne].
    rewrite <- list_elem_of_In, elem_of_first_occurrences in Hn.
    destruct (group_named_head rows n Hn) as (j' & Hin & Hname & ->).
    apply order_le_tables.
    + rewrite Forall_forall in Hj. by apply Hj.
    + rewrite Hname. intros E. rewrite E, String.eqb_refl in Hne. done.
Qed.


(** *** What the groups hold *)

Lemma tables_of_listed rows limit_tables :
  tables_of rows limit_tables
  = List.filter (fun kv => listed limit_tables (fst kv)) (tables_of rows None).
Proof.
  destruct limit_tables as [[|n names]|].
  - change (tables_of rows (Some [])) with (tables_of rows None).
    by rewrite filter_all.
  - by apply tables_of_limited.
  - by rewrite filter_all.
Qed.

Lemma joined_is_base cat j :
  j ∈ sorted_join cat -> In (fst j) (base_tables cat) /\ on_clause (fst j) (snd j) = true
                         /\ snd j ∈ COLUMNS cat.
Proof.
  unfold sorted_join. rewrite merge_sort_Permutation. destruct j as [t c].
  intros (Ht & Hw & Hc & Hon)%elem_of_inner_join. cbn [fst snd].
  split; [|done]. apply filter_In. by rewrite <- list_elem_of_In.
Qed.

Lemma named_rows_of_table cat t :
  NoDup (map qualified_name (base_tables cat)) -> In t (base_tables cat) ->
  rows_named (sorted_join cat) (qualified_name t)
  ≡ₚ map (fun c => (t, c)) (filter (fun c => on_clause t c = true) (COLUMNS cat)).
Proof.
  intros Hnd Hin. unfold rows_named.
  rewrite (filter_Permutation_bool _ (sorted_join cat) (inner_join cat))
    by apply merge_sort_Permutation.
  unfold inner_join, name_of, joined.
  by rewrite (join_rows_of_table (COLUMNS cat) t (TABLES cat) Hnd Hin).
Qed.

(** Each group is a base table with its columns. *)
Lemma groups_hold_tables cat :
  NoDup (map qualified_name (base_tables cat)) ->
  Forall (fun g : group =>
            In (fst g) (base_tables cat)
            /\ snd g <> []
            /\ snd g ≡ₚ filter (fun c => on_clause (fst g) c = true) (COLUMNS cat)
            /\ forall j, j ∈ rows_named (sorted_join cat) (qualified_name (fst g)) ->
                         fst j = fst g)
         (groups_of (sorted_join cat)).
Proof.
  intros Hnd. apply Forall_forall. intros g (n & -> & Hn)%list_elem_of_fmap.
  rewrite elem_of_first_occurrences in Hn.
  destruct (rows_named_head _ n Hn) as (j & js & E & Hj & Hin).
  destruct (joined_is_base cat j Hin) as (Hbase & _).
  assert (Hg : fst (group_named (sorted_join cat) n) = fst j)
    by (unfold group_named; by rewrite E).
  assert (Hname : n = qualified_name (fst j)) by (by symmetry).
  pose proof (named_rows_of_table cat (fst j) Hnd Hbase) as Hperm.
  rewrite <- Hname in Hperm.
  rewrite Hg. split; [done|]. split; [|split].
  - unfold group_named. rewrite E. done.
  - unfold group_named. cbn [snd]. rewrite Hperm, map_map. cbn [snd]. by rewrite map_id.
  - rewrite <- Hname. intros j' Hj'. rewrite Hperm in Hj'.
    by apply list_elem_of_fmap in Hj' as (c & -> & _).
Qed.

Lemma strictly_sorted rows :
  StronglySorted order_le rows -> NoDup (map order_key rows) ->
  StronglySorted (fun a b => key_lt (order_key a) (order_key b)) rows.
Proof.
  induction 1 as [|j rows Hrows IH Hj]; cbn [map]; intros Hnd; [constructor|].
  apply NoDup_cons in Hnd as [Hfresh Hnd]. constructor; [by apply IH|].
  rewrite Forall_forall in *. intros j' Hin.
  destruct (proj1 (order_le_cases j j') (Hj j' Hin)) as [?|Heq]; [done|].
  destruct Hfresh. rewrite Heq. by apply list_elem_of_fmap_2.
Qed.

Lemma StronglySorted_filter {A} (R : A -> A -> Prop) (p : A -> bool) l :
  StronglySorted R l -> StronglySorted R (List.filter p l).
Proof.
  intros H. rewrite <- (map_id (List.filter p l)).
  apply StronglySorted_filter_map. by rewrite map_id.
Qed.

Lemma positions_sorted t (rows : list joined) :
  StronglySorted (fun a b => key_lt (order_key a) (order_key b)) rows ->
  (forall j, j ∈ rows -> fst j = t) ->
  StronglySorted position_lt (map snd rows).
Proof.
  induction 1 as [|j rows Hrows IH Hj]; cbn [map]; intros Ht; [constructor|].
  constructor.
  - apply IH. intros j' Hj'. apply Ht. by right.
  - apply Forall_forall. intros c (j' & -> & Hin)%list_elem_of_fmap.
    rewrite Forall_forall in Hj. specialize (Hj j' Hin).
    unfold order_key, key_lt in Hj.
    rewrite (Ht j) in Hj by left. rewrite (Ht j') in Hj by (by right).
    rewrite !string_compare_refl in Hj.
    destruct Hj as [?|[_ [?|[_ ?]]]]; done.
Qed.

(** The columns of a group stand in the order of their positions. *)
Lemma groups_columns_sorted cat :
  order_key_unique cat ->
  NoDup (map qualified_name (base_tables cat)) ->
  Forall (fun g : group => StronglySorted position_lt (snd g)) (groups_of (sorted_join cat)).
Proof.
  intros Hkey Hnd.
  assert (Hstrict : StronglySorted (fun a b => key_lt (order_key a) (order_key b))
                      (sorted_join cat)).
  { apply strictly_sorted.
    - apply Sorted_StronglySorted; [apply _|]. apply Sorted_merge_sort, _.
    - unfold sorted_join. by rewrite merge_sort_Permutation. }
  pose proof (groups_hold_tables cat Hnd) as Hall.
  rewrite Forall_forall in *. intros g Hg.
  destruct (Hall g Hg) as (_ & _ & _ & Hone).
  apply list_elem_of_fmap in Hg as (n & -> & Hn).
  rewrite elem_of_first_occurrences in Hn.
  destruct (rows_named_head _ n Hn) as (j & js & E & Hj & Hin).
  assert (Hname : qualified_name (fst (group_named (sorted_join cat) n)) = n).
  { unfold group_named. by rewrite E. }
  rewrite Hname in Hone.
  unfold group_named at 1. cbn [snd].
  apply (positions_sorted (fst (group_named (sorted_join cat) n))); [|done].
  by apply StronglySorted_filter.
Qed.

(** *** Keys *)

Lemma order_key_joined t c : on_clause t c = true -> order_key (t, c) = column_key c.
Proof.
  unfold on_clause, order_key, column_key. cbn [fst snd].
  intros [H1 H2]%andb_prop. apply String.eqb_eq in H1, H2. by rewrite H1, H2.
Qed.

(** The keys of the two views give each row of the join its own sort
    key. *)
Lemma keys_give_order_key_unique cat : catalog_keys cat -> order_key_unique cat.
Proof.
  intros [Ht Hc]. unfold order_key_unique, inner_join, base_tables in *.
  induction (TABLES cat) as [|t ts IH]; [constructor|].
  cbn [flat_map List.filter] in *. rewrite map_app.
  destruct (where_clause t) eqn:Hw; [|by apply IH].
  cbn [map] in Ht. apply NoDup_cons in Ht as [Hfresh Ht].
  apply NoDup_app. split; [|split].
  - rewrite map_map.
    rewrite (map_ext_in _ column_key).
    + apply (sublist_NoDup _ (map column_key (COLUMNS cat))); [exact Hc|].
      apply (fmap_sublist column_key), sublist_filter.
    + intros c Hin. apply list_elem_of_In, list_elem_of_filter in Hin as [Hon _].
      by apply order_key_joined.
  - intros k Hk1 Hk2. apply Hfresh.
    apply list_elem_of_fmap in Hk1 as (j1 & -> & Hj1).
    apply list_elem_of_fmap in Hj1 as (c1 & -> & _).
    apply list_elem_of_fmap in Hk2 as ([t2 c2] & Hk & Hj2).
    apply list_elem_of_In, in_flat_map in Hj2 as (t' & Ht' & Hin).
    destruct (where_clause t') eqn:Hw'; [|done].
    apply in_map_iff in Hin as (c' & [= -> ->] & _).
    apply list_elem_of_fmap. exists t2. split.
    + unfold order_key in Hk. cbn [fst snd] in Hk. unfold table_key. congruence.
    + apply list_elem_of_In, filter_In. done.
  - by apply IH.
Qed.

(** *** The listing of a catalog *)

(** The dictionary of the loop, for whatever [limit_tables], lists groups
    of the join: base tables in the order of the sort, each with its
    columns. *)
Lemma tables_are_groups cat limit_tables :
  exists groups : list group,
    tables_of (catalog_query cat) limit_tables = map entry_of groups
    /\ StronglySorted table_lt (map fst groups)
    /\ (forall g, g ∈ groups -> g ∈ groups_of (sorted_join cat)).
Proof.
  exists (List.filter (fun g => listed limit_tables (fst (entry_of g)))
            (groups_of (sorted_join cat))).
  split; [|split].
  - rewrite tables_of_listed. unfold catalog_query. rewrite tables_of_groups.
    by rewrite filter_map_comm.
  - apply StronglySorted_filter_map, groups_are_sorted.
    apply Sorted_StronglySorted; [apply _|]. apply Sorted_merge_sort, _.
  - intros g Hg. apply list_elem_of_In, filter_In in Hg as [Hg _].
    by apply list_elem_of_In.
Qed.

(** C5 (amended).  When the catalog holds more base tables than
    [max_tables], a cap that is not negative, and its base tables have
    distinct qualified names and a column each, the text of
    [get_schema_info] is the header, the blocks of exactly [max_tables]
    tables, each a base table of the catalog under its own heading and
    with its own columns, and the closing line that tells how many more
    tables there are. *)
Theorem schema_is_capped (engine : Engine) (max_tables : Z) :
  connect_error engine = None ->
  catalog_wf (catalog engine) ->
  (0 <= max_tables < Z.of_nat (length (base_tables (catalog engine))))%Z ->
  let shown := take (Z.to_nat max_tables) (tables_of (catalog_query (catalog engine)) None) in
  length shown = Z.to_nat max_tables
  /\ NoDup (map fst shown)
  /\ (forall entry, entry ∈ shown ->
        exists t, In t (base_tables (catalog engine))
                  /\ fst entry = qualified_name t
                  /\ snd entry
                     ≡ₚ map (fun c => column_of (select_list (t, c)))
                            (filter (fun c => on_clause t c = true)
                                    (COLUMNS (catalog engine))))
  /\ get_schema_info engine None max_tables
     = listing shown
       ++ more_tables_line (Z.of_nat (length (base_tables (catalog engine))) - max_tables).
Proof.
  intros Hconn Hwf Hmax shown.
  pose proof (tables_count (catalog engine) Hwf) as Hcount.
  set (tables := tables_of (catalog_query (catalog engine)) None) in *.
  split; [|split; [|split]].
  - unfold shown. rewrite length_take. lia.
  - unfold shown. rewrite fmap_take. eapply sublist_NoDup; [|apply sublist_take].
    apply keys_tables_of_nodup.
  - intros entry Hin. apply subseteq_take in Hin. unfold tables, catalog_query in Hin.
    rewrite tables_of_groups in Hin. apply list_elem_of_fmap in Hin as (g & -> & Hg).
    pose proof (groups_hold_tables (catalog engine) (proj1 Hwf)) as Hall.
    rewrite Forall_forall in Hall. destruct (Hall g Hg) as (Hbase & _ & Hperm & _).
    exists (fst g). split; [done|]. split; [done|]. unfold entry_of. cbn [snd].
    by apply Permutation_map.
  - rewrite get_schema_info_rendered by done. fold tables. unfold rendered, slice_to.
    destruct (Z.leb_spec 0 max_tables) as [_|]; [|lia]. fold shown. rewrite Hcount.
    by destruct (Z.ltb_spec max_tables (Z.of_nat (length (base_tables (catalog engine)))))
      as [_|]; [|lia].
Qed.

(** C5, as the spec states it, fails on three kinds of input.  Two base
    tables with one qualified name share a heading: of three base tables
    with a cap of two, two headings are printed and no closing line.  A
    negative cap is a slice bound counted from the end: of two tables one
    is printed, and the closing line counts three.  A base table that
    shows no column is not found by the join: of two base tables with a
    cap of one, one is printed and no closing line. *)
Lemma colliding_names_escape_the_cap :
  (length (base_tables MoreScenarios.colliding_catalog) = 3
   /\ get_schema_info (MoreScenarios.engine_over MoreScenarios.colliding_catalog) None 2
      = "Database Schema:" ++ nl ++ nl
        ++ "Table: a.b.c" ++ nl ++ "Columns:" ++ nl
        ++ "  - x (int, NOT NULL)" ++ nl ++ "  - z (int, NOT NULL)" ++ nl ++ nl
        ++ "Table: a.c" ++ nl ++ "Columns:" ++ nl
        ++ "  - y (int, NOT NULL)" ++ nl ++ nl)
  /\ (length (base_tables Scenarios.sample_catalog) = 2
      /\ get_schema_info (Scenarios.sample_engine Scenarios.sample_products) None (-1)
         = "Database Schema:" ++ nl ++ nl
           ++ "Table: dbo.Orders" ++ nl ++ "Columns:" ++ nl
           ++ "  - OrderID (int, NOT NULL)" ++ nl ++ nl
           ++ nl ++ "... and 3 more tables" ++ nl)
  /\ (length (base_tables MoreScenarios.columnless_catalog) = 2
      /\ get_schema_info (MoreScenarios.engine_over MoreScenarios.columnless_catalog) None 1
         = "Database Schema:" ++ nl ++ nl
           ++ "Table: dbo.Products" ++ nl ++ "Columns:" ++ nl
           ++ "  - ProductID (int, NOT NULL)" ++ nl ++ nl).
Proof. repeat split; reflexivity. Qed.

Lemma qualified_names_give_keys (l : list table_row) :
  NoDup (map qualified_name l) -> NoDup (map table_key l).
Proof.
  intros H. apply (NoDup_fmap_1 (fun k : string * string => fst k ++ "." ++ snd k)).
  by rewrite <- list_fmap_compose.
Qed.

(** C8 (amended).  The text of [get_schema_info] depends on what the
    catalog holds and not on how its rows are stored: two catalogs with
    the same rows give the same text.  And when the base tables of the
    catalog have distinct qualified names, the text lists base tables in
    the order of their schema names and then of their table names, and
    under each heading the columns of that table, all of them, in the
    order of their positions. *)
Theorem schema_text_is_deterministic (e1 e2 : Engine)
    (limit_tables : option (list string)) (max_tables : Z) :
  connect_error e1 = connect_error e2 ->
  TABLES (catalog e1) ≡ₚ TABLES (catalog e2) ->
  COLUMNS (catalog e1) ≡ₚ COLUMNS (catalog e2) ->
  catalog_keys (catalog e1) ->
  get_schema_info e1 limit_tables max_tables = get_schema_info e2 limit_tables max_tables
  /\ (connect_error e1 = None ->
      NoDup (map qualified_name (base_tables (catalog e1))) ->
      exists groups : list group,
        get_schema_info e1 limit_tables max_tables
        = rendered (map entry_of groups) max_tables
        /\ StronglySorted table_lt (map fst groups)
        /\ Forall (fun g : group =>
                     In (fst g) (base_tables (catalog e1))
                     /\ StronglySorted position_lt (snd g)
                     /\ snd g ≡ₚ filter (fun c => on_clause (fst g) c = true)
                                        (COLUMNS (catalog e1))) groups).
Proof.
  intros Hconn Ht Hc Hkeys.
  pose proof (keys_give_order_key_unique _ Hkeys) as Hkey. split.
  - unfold get_schema_info. rewrite Hconn.
    by rewrite (catalog_query_perm _ _ Ht Hc Hkey).
  - intros Hnone Hnd.
    destruct (tables_are_groups (catalog e1) limit_tables) as (groups & Htables & Hsorted & Hsub).
    exists groups. split; [|split; [done|]].
    + rewrite get_schema_info_rendered by done. by rewrite Htables.
    + pose proof (groups_hold_tables (catalog e1) Hnd) as Hhold.
      pose proof (groups_columns_sorted (catalog e1) Hkey Hnd) as Hcols.
      rewrite Forall_forall in *. intros g Hg. specialize (Hsub g Hg).
      destruct (Hhold g Hsub) as (Hbase & _ & Hperm & _). by auto.
Qed.

(** C8, as the spec states it, fails when two base tables have one
    qualified name: the column [z] of the table [c] of the schema [a.b]
    is printed under the heading [a.b.c] of the table [b.c] of the schema
    [a], before the table [c] of the schema [a], which sorts before its
    own table. *)
Lemma colliding_names_break_the_order :
  get_schema_info (MoreScenarios.engine_over MoreScenarios.colliding_catalog) None 20
  = "Database Schema:" ++ nl ++ nl
    ++ "Table: a.b.c" ++ nl ++ "Columns:" ++ nl
    ++ "  - x (int, NOT NULL)" ++ nl ++ "  - z (int, NOT NULL)" ++ nl ++ nl
    ++ "Table: a.c" ++ nl ++ "Columns:" ++ nl
    ++ "  - y (int, NOT NULL)" ++ nl ++ nl
  /\ table_lt (MoreScenarios.base_table "a" "c") (MoreScenarios.base_table "a.b" "c").
Proof. split; [reflexivity|]. by left. Qed.

Lemma sample_catalog_wf : catalog_wf Scenarios.sample_catalog.
Proof.
  split.
  - apply (bool_decide_unpack _). by vm_compute.
  - intros t Ht.
    assert (H : forallb (fun t => existsb (on_clause t) (COLUMNS Scenarios.sample_catalog))
                        (base_tables Scenarios.sample_catalog) = true) by reflexivity.
    rewrite forallb_forall in H. by apply existsb_exists, H.
Qed.

Lemma sample_catalog_keys : catalog_keys Scenarios.sample_catalog.
Proof. split; apply (bool_decide_unpack _); by vm_compute. Qed.

Lemma sample_order_key_unique : order_key_unique Scenarios.sample_catalog.
Proof. apply keys_give_order_key_unique, sample_catalog_keys. Qed.

Lemma schema_is_capped_witness :
  let engine := Scenarios.sample_engine Scenarios.sample_products in
  let shown := take (Z.to_nat 1) (tables_of (catalog_query (catalog engine)) None) in
  length shown = Z.to_nat 1
  /\ NoDup (map fst shown)
  /\ (forall entry, entry ∈ shown ->
        exists t, In t (base_tables (catalog engine))
                  /\ fst entry = qualified_name t
                  /\ snd entry
                     ≡ₚ map (fun c => column_of (select_list (t, c)))
                            (filter (fun c => on_clause t c = true)
                                    (COLUMNS (catalog engine))))
  /\ get_schema_info engine None 1
     = listing shown
       ++ more_tables_line (Z.of_nat (length (base_tables (catalog engine))) - 1).
Proof.
  apply (schema_is_capped (Scenarios.sample_engine Scenarios.sample_products) 1).
  - reflexivity.
  - exact sample_catalog_wf.
  - cbn. lia.
Defined.

Lemma schema_text_is_deterministic_witness :
  let e1 := Scenarios.sample_engine Scenarios.sample_products in
  let e2 := {| connect_error := None; catalog := Scenarios.shuffled_catalog;
               run_select := run_select e1 |} in
  get_schema_info e1 None 20 = get_schema_info e2 None 20
  /\ exists groups : list group,
       get_schema_info e1 None 20 = rendered (map entry_of groups) 20
       /\ StronglySorted table_lt (map fst groups)
       /\ Forall (fun g : group =>
                    In (fst g) (base_tables (catalog e1))
                    /\ StronglySorted position_lt (snd g)
                    /\ snd g ≡ₚ filter (fun c => on_clause (fst g) c = true)
                                       (COLUMNS (catalog e1))) groups.
Proof.
  destruct (schema_text_is_deterministic
              (Scenarios.sample_engine Scenarios.sample_products)
              {| connect_error := None; catalog := Scenarios.shuffled_catalog;
                 run_select := run_select (Scenarios.sample_engine Scenarios.sample_products) |}
              None 20) as [Hsame Hgroups].
  - reflexivity.
  - cbn [catalog TABLES Scenarios.sample_engine Scenarios.shuffled_catalog].
    apply Permutation_rev.
  - cbn [catalog COLUMNS Scenarios.sample_engine Scenarios.shuffled_catalog].
    apply Permutation_rev.
  - exact sample_catalog_keys.
  - split; [exact Hsame|]. apply Hgroups; [reflexivity|exact (proj1 sample_catalog_wf)].
Defined.

Lemma schema_text_ignores_rows_witness :
  get_schema_info (Scenarios.sample_engine Scenarios.sample_products) None 20
  = get_schema_info (Scenarios.sample_engine []) None 20.
Proof.
  apply (schema_text_ignores_rows
           (Scenarios.sample_engine Scenarios.sample_products)
           (Scenarios.sample_engine []) None 20); reflexivity.
Defined.

End DbFacts.

(* ===================================================================== *)
(** * The query tools of [tools.py] *)
(* ===================================================================== *)

Module ToolsFacts.
Import Py Db DbConfig Tools SqlExecutor.
Local Open Scope string_scope.

(** *** Dictionaries built by assignment hold no key twice *)

Lemma set_keys {V} (k : string) (v : V) d :
  k ∈ map fst d -> map fst (set k v d) = map fst d.
Proof.
  induction d as [|[k' v'] d IH]; cbn; intros H.
  - by apply elem_of_nil in H.
  - destruct (String.eqb_spec k k') as [->|Hne]; [done|].
    cbn. f_equal. apply IH. apply elem_of_cons in H as [?|?]; done.
Qed.

Lemma set_keys_nodup {V} (k : string) (v : V) d :
  NoDup (map fst d) -> NoDup (map fst (set k v d)).
Proof.
  intros Hd. destruct (decide (k ∈ map fst d)) as [Hin|Hout].
  - by rewrite set_keys.
  - rewrite JsonFacts.set_fresh, map_app by done. cbn.
    apply NoDup_app. split; [done|]. split; [|apply NoDup_singleton].
    intros x Hx Hx'. apply list_elem_of_singleton in Hx'. by subst.
Qed.

Lemma of_pairs_keys_nodup {V} (l : list (string * V)) : NoDup (map fst (of_pairs l)).
Proof.
  induction l as [|[k v] l IH] using rev_ind; [constructor|].
  rewrite JsonFacts.of_pairs_snoc. by apply set_keys_nodup.
Qed.

Lemma set_values {V} (P : V -> Prop) (k : string) (v : V) d :
  P v -> Forall (fun kv => P (snd kv)) d -> Forall (fun kv => P (snd kv)) (set k v d).
Proof.
  intros Hv. induction 1 as [|[k' v'] d Hx Hd IH]; cbn.
  - by repeat constructor.
  - destruct (String.eqb k k'); constructor; done.
Qed.

Lemma of_pairs_values {V} (P : V -> Prop) (l : list (string * V)) :
  Forall (fun kv => P (snd kv)) l -> Forall (fun kv => P (snd kv)) (of_pairs l).
Proof.
  induction l as [|[k v] l IH] using rev_ind; [constructor|].
  intros [Hl Hkv]%Forall_app. rewrite JsonFacts.of_pairs_snoc.
  apply set_values; [|by apply IH]. rewrite Forall_singleton in Hkv. exact Hkv.
Qed.

(** *** The records of a result frame *)

Lemma cell_well_formed c : Json.well_formed (cell_value c) = true.
Proof. by destruct c. Qed.

Lemma well_formed_dict d :
  NoDup (map fst d) -> Forall (fun kv => Json.well_formed (snd kv) = true) d ->
  Json.well_formed (PDict d) = true.
Proof.
  intros Hk Hv. cbn. apply andb_true_iff. split; [by apply bool_decide_eq_true|].
  apply forallb_forall. intros [k x] Hin.
  rewrite Forall_forall in Hv. apply (Hv (k, x)). by apply list_elem_of_In.
Qed.

Lemma record_well_formed cols (cells : list cell) :
  Json.well_formed (PDict (of_pairs (combine cols (map cell_value cells)))) = true.
Proof.
  apply well_formed_dict; [apply of_pairs_keys_nodup|].
  apply (of_pairs_values (fun v => Json.well_formed v = true)).
  apply Forall_forall. intros [k x] Hin. cbn.
  apply list_elem_of_In, in_combine_r, in_map_iff in Hin as (c & <- & _).
  apply cell_well_formed.
Qed.

Lemma records_well_formed df :
  Forall (fun r => Json.well_formed (PDict r) = true) (to_dict_records df).
Proof.
  unfold to_dict_records. apply Forall_forall. intros r Hr.
  apply list_elem_of_In, in_map_iff in Hr as (cells & <- & _). apply record_well_formed.
Qed.

(** *** Envelopes as JSON values *)

Lemma well_formed_list l :
  Forall (fun v => Json.well_formed v = true) l -> Json.well_formed (PList l) = true.
Proof.
  intros H. cbn. apply forallb_forall. intros x Hx.
  rewrite Forall_forall in H. by apply H, list_elem_of_In.
Qed.

Lemma envelope_well_formed e :
  Forall (fun r => Json.well_formed (PDict r) = true) (data e) ->
  Json.well_formed (envelope_dict e) = true.
Proof.
  intros Hd. unfold envelope_dict. apply well_formed_dict.
  - cbn. apply (bool_decide_unpack _). by vm_compute.
  - repeat constructor; cbn [snd].
    + apply well_formed_list. by apply Forall_fmap.
    + apply well_formed_list. apply Forall_fmap, Forall_forall. done.
    + by destruct (error e).
Qed.

Lemma strings_serializable cols :
  Json.first_some (map Json.unserializable (map PStr cols)) = None.
Proof. induction cols; done. Qed.

Lemma envelope_unserializable e :
  Json.unserializable (envelope_dict e)
  = Json.unserializable (PList (map PDict (data e))).
Proof.
  unfold envelope_dict.
  cbn [Json.unserializable map Json.first_some fold_right].
  change (fold_right _ None (map Json.unserializable (map PStr (columns e))))
    with (Json.first_some (map Json.unserializable (map PStr (columns e)))).
  rewrite strings_serializable.
  destruct (Json.first_some _); [done|]. by destruct (error e).
Qed.

Lemma records_serializable (records : list dict) :
  Forall (fun r => Json.unserializable (PDict r) = None) records ->
  Json.unserializable (PList (map PDict records)) = None.
Proof.
  induction 1 as [|r l Hr _ IH]; [done|].
  cbn [map Json.unserializable Json.first_some fold_right] in *. by rewrite Hr.
Qed.

(** Encoding an envelope and decoding the text gives the envelope back,
    whenever the encoder accepts its cells. *)
Lemma envelope_loads_dumps indent e s :
  Forall (fun r => Json.well_formed (PDict r) = true) (data e) ->
  Json.dumps indent (envelope_dict e) = Return s ->
  Json.loads s = Some (envelope_dict e).
Proof.
  intros Hwf Hs. unfold Json.dumps in Hs.
  destruct (Json.unserializable (envelope_dict e)) eqn:Hser; [done|].
  destruct (JsonFacts.loads_dumps indent (envelope_dict e)) as (s' & Hs' & Hl);
    [by apply envelope_well_formed|done|].
  unfold Json.dumps in Hs'. rewrite Hser in Hs'. congruence.
Qed.

Lemma dumps_cases indent v :
  (exists s, Json.dumps indent v = Return s)
  \/ (exists msg, Json.dumps indent v = Raise (Exception msg)).
Proof. unfold Json.dumps. destruct (Json.unserializable v); eauto. Qed.

Lemma failure_dumps indent err :
  exists s, Json.dumps indent (envelope_dict (failure_envelope err)) = Return s
            /\ Json.loads s = Some (envelope_dict (failure_envelope err)).
Proof.
  destruct (JsonFacts.loads_dumps indent (envelope_dict (failure_envelope err)))
    as (s & Hs & Hl); [by destruct err|by destruct err|]. eauto.
Qed.

Lemma response_well_formed result :
  Forall (fun r => Json.well_formed (PDict r) = true) (data (response_of result)).
Proof.
  unfold response_of. destruct (qr_success result); cbn; [|constructor].
  destruct (qr_data result) as [df|]; [|constructor].
  destruct (negb (df_empty df)); [apply records_well_formed|constructor].
Qed.

(** The ways [execute_sql_and_format] ends. *)
Lemma execute_sql_and_format_cases execute_query w sql_query :
  let out := execute_sql_and_format execute_query w sql_query in
  (all_set (credentials w) = false /\
   out = (Json.dumps None (envelope_dict (failure_envelope
            (Some "Database credentials not configured in environment variables"))), []))
  \/ (all_set (credentials w) = true /\
      exists msg, fst out = Json.dumps None (envelope_dict (failure_envelope
                                (Some ("Tool error: " ++ msg)))))
  \/ (all_set (credentials w) = true /\
      exists cs engine result tr s,
        create_engine (lib w) cs = Return engine
        /\ execute_query engine sql_query = (Return result, tr)
        /\ Json.dumps (Some 2) (envelope_dict (response_of result)) = Return s
        /\ out = (Return s, EvCreateEngine cs :: tr ++ [EvDispose])%list)
  \/ (exists e, fst out = Raise e /\ is_Exception e = false
        /\ ((exists cs, create_engine (lib w) cs = Raise e)
            \/ (exists engine q, fst (execute_query engine q) = Raise e))).
Proof.
  intros out. subst out. unfold execute_sql_and_format.
  fold (credentials w). destruct (all_set (credentials w)) eqn:Hc; cbn [negb].
  2:{ left. split; [done|].
      destruct (failure_dumps None
        (Some "Database credentials not configured in environment variables"))
        as (s & Hs & _).
      unfold failure_envelope in *. unfold io_lift, io_try. by rewrite !Hs. }
  right. unfold create_db_engine, emit, io_lift, io_bind, io_try.
  match goal with |- context [create_engine (lib w) ?c] => set (cs := c) end.
  destruct (create_engine (lib w) cs) as [engine|e] eqn:Hce.
  2:{ destruct (is_Exception e) eqn:He.
      - left. split; [done|]. exists (exn_str e). by destruct (Json.dumps None _).
      - right. right. exists e. eauto. }
  destruct (execute_query engine sql_query) as [[result|e] tr] eqn:Heq.
  2:{ destruct (is_Exception e) eqn:He.
      - left. split; [done|]. exists (exn_str e). by destruct (Json.dumps None _).
      - right. right. exists e. split; [done|]. split; [done|]. right.
        exists engine, sql_query. by rewrite Heq. }
  change (if qr_success result then _ else _) with (response_of result).
  destruct (dumps_cases (Some 2) (envelope_dict (response_of result)))
    as [[s Hs]|[msg Hs]]; rewrite Hs.
  - right. left. split; [done|]. exists cs, engine, result, tr, s.
    repeat split; done.
  - left. split; [done|]. by exists msg.
Qed.

Lemma nan_free_list l :
  Forall (fun v => Json.nan_free v = true) l -> Json.nan_free (PList l) = true.
Proof.
  intros H. cbn. apply forallb_forall. intros x Hx.
  rewrite Forall_forall in H. by apply H, list_elem_of_In.
Qed.

Lemma envelope_nan_free e :
  Forall (fun r => Json.nan_free (PDict r) = true) (data e) ->
  Json.nan_free (envelope_dict e) = true.
Proof.
  intros Hd. unfold envelope_dict. cbn [Json.nan_free forallb].
  change (Json.nan_free (PList (map PDict (data e))))
    with (forallb Json.nan_free (map PDict (data e))).
  change (Json.nan_free (PList (map PStr (columns e))))
    with (forallb Json.nan_free (map PStr (columns e))).
  rewrite (proj2 (forallb_forall _ (map PDict (data e)))).
  2:{ intros x (r & <- & Hr)%in_map_iff. rewrite Forall_forall in Hd.
      by apply Hd, list_elem_of_In. }
  rewrite (proj2 (forallb_forall _ (map PStr (columns e)))).
  2:{ by intros x (c & <- & _)%in_map_iff. }
  by destruct (error e).
Qed.

(** C7 (amended).  Encoding a Result Envelope with [json.dumps] (with or
    without [indent]) and decoding the text with [json.loads] gives back
    the dictionary of the envelope, with its five keys in place and equal
    to the original under [==], provided the records of [data] hold
    values the encoder accepts and no [nan].  The records are Python
    dictionaries (no key twice). *)
Theorem envelope_json_roundtrip (indent : option nat) (e : Envelope) :
  Forall (fun r => Json.well_formed (PDict r) = true
                   /\ Json.unserializable (PDict r) = None
                   /\ Json.nan_free (PDict r) = true) (data e) ->
  exists s d,
    Json.dumps indent (envelope_dict e) = Return s
    /\ Json.loads s = Some (PDict d)
    /\ PDict d = envelope_dict e
    /\ py_eq (PDict d) (envelope_dict e) = true
    /\ keys d = ["success"; "data"; "columns"; "row_count"; "error"].
Proof.
  intros [Hwf [Hser Hnan]%Forall_and]%Forall_and.
  assert (Hwf' : Json.well_formed (envelope_dict e) = true)
    by (by apply envelope_well_formed).
  assert (Hser' : Json.unserializable (envelope_dict e) = None).
  { rewrite envelope_unserializable. by apply records_serializable. }
  destruct (JsonFacts.loads_dumps indent (envelope_dict e)) as (s & Hs & Hl); [done..|].
  exists s. eexists. split; [done|]. split; [exact Hl|]. split; [done|].
  split; [|done]. apply JsonFacts.py_eq_refl; [done|done|by apply envelope_nan_free].
Qed.

Lemma envelope_json_roundtrip_witness :
  Forall (fun r => Json.well_formed (PDict r) = true
                   /\ Json.unserializable (PDict r) = None
                   /\ Json.nan_free (PDict r) = true)
         (data MoreScenarios.priced_envelope)
  /\ exists s d,
       Json.dumps (Some 2) (envelope_dict MoreScenarios.priced_envelope) = Return s
       /\ Json.loads s = Some (PDict d)
       /\ PDict d = envelope_dict MoreScenarios.priced_envelope
       /\ py_eq (PDict d) (envelope_dict MoreScenarios.priced_envelope) = true
       /\ keys d = ["success"; "data"; "columns"; "row_count"; "error"].
Proof.
  assert (H : Forall (fun r => Json.well_formed (PDict r) = true
                               /\ Json.unserializable (PDict r) = None
                               /\ Json.nan_free (PDict r) = true)
                     (data MoreScenarios.priced_envelope)) by repeat constructor.
  split; [exact H|].
  exact (envelope_json_roundtrip (Some 2) MoreScenarios.priced_envelope H).
Defined.

(** C7, as the spec states it, fails: an envelope whose record holds
    [nan] is written with the token [NaN] and read back as [nan], which
    equals nothing, so that the decoded structure is not equal to the
    original; and an envelope whose record holds a [Decimal] is not
    encoded at all. *)
Lemma nan_cell_breaks_the_roundtrip :
  (exists s v,
     Json.dumps (Some 2) (envelope_dict MoreScenarios.nan_envelope) = Return s
     /\ Json.loads s = Some v
     /\ py_eq v (envelope_dict MoreScenarios.nan_envelope) = false)
  /\ Json.dumps (Some 2) (envelope_dict MoreScenarios.decimal_envelope)
     = Raise (Exception "Object of type Decimal is not JSON serializable").
Proof.
  split; [|reflexivity]. eexists _, _. split; [reflexivity|]. split; reflexivity.
Qed.

(** C10.  Whatever [Exception] its internals raise, [execute_sql_and_format]
    returns a string, the string is JSON text, and it decodes to the
    dictionary of a Result Envelope (the five keys, no other); when a
    credential is missing the envelope is a failure and nothing has been
    done at the database. *)
Theorem execute_sql_and_format_total execute_query (w : World) (sql_query : string) :
  (forall cs e, create_engine (lib w) cs = Raise e -> is_Exception e = true) ->
  (forall engine q e, fst (execute_query engine q) = Raise e -> is_Exception e = true) ->
  exists s e,
    fst (execute_sql_and_format execute_query w sql_query) = Return s
    /\ Json.loads s = Some (envelope_dict e)
    /\ (all_set (credentials w) = false ->
        success e = false
        /\ snd (execute_sql_and_format execute_query w sql_query) = []).
Proof.
  intros Hlib Hq.
  destruct (execute_sql_and_format_cases execute_query w sql_query)
    as [[Hc ->]|[[Hc [msg ->]]|[[Hc (cs & engine & result & tr & s & _ & _ & Hs & ->)]
       |(e & _ & He & [[cs Hr]|(engine & q & Hr)])]]].
  - destruct (failure_dumps None
      (Some "Database credentials not configured in environment variables"))
      as (s & Hs & Hl).
    exists s, (failure_envelope
      (Some "Database credentials not configured in environment variables")).
    cbn [fst snd]. done.
  - destruct (failure_dumps None (Some ("Tool error: " ++ msg))) as (s & Hs & Hl).
    exists s, (failure_envelope (Some ("Tool error: " ++ msg))).
    split; [done|]. split; [done|]. congruence.
  - exists s, (response_of result). cbn [fst]. split; [done|].
    split; [|congruence].
    eapply envelope_loads_dumps; [apply response_well_formed|done].
  - apply Hlib in Hr. congruence.
  - apply Hq in Hr. congruence.
Qed.

(** *** The query executor *)

Lemma append_cons c (s t : string) : String c s ++ t = String c (s ++ t).
Proof. reflexivity. Qed.

Lemma startswith_empty s : startswith s EmptyString = true.
Proof. by destruct s. Qed.

Lemma line_comment_ends body t :
  contains body nl = false ->
  skip_trivia InLineComment (body ++ nl ++ t) = skip_trivia InCode t.
Proof.
  induction body as [|c body IH]; intros H.
  - reflexivity.
  - rewrite append_cons. cbn [skip_trivia].
    cbn [contains] in H. apply orb_false_elim in H as [Hc Hb].
    unfold nl in Hc. cbn [startswith] in Hc.
    rewrite startswith_empty, andb_true_r in Hc. rewrite Ascii.eqb_sym in Hc.
    rewrite Hc. by apply IH.
Qed.

Lemma block_comment_ends body t :
  contains body "*/" = false ->
  skip_trivia InBlockComment (body ++ "*/" ++ t) = skip_trivia InCode t.
Proof.
  induction body as [|c body IH]; intros H.
  - reflexivity.
  - rewrite append_cons. cbn [contains] in H. apply orb_false_elim in H as [Hc Hb].
    specialize (IH Hb). cbn [skip_trivia].
    destruct body as [|c' body].
    + change (EmptyString ++ "*/" ++ t) with (String "*" (String "/" t)) in *.
      cbv iota. replace (Ascii.eqb "*" "/") with false by reflexivity.
      rewrite andb_false_r. exact IH.
    + rewrite append_cons in *. cbn [startswith] in Hc.
      rewrite startswith_empty, andb_true_r in Hc.
      rewrite (Ascii.eqb_sym c), (Ascii.eqb_sym c'), Hc. exact IH.
Qed.

Lemma line_comment_open body :
  contains body nl = false -> skip_trivia InLineComment body = EmptyString.
Proof.
  induction body as [|c body IH]; intros H; [done|].
  cbn [skip_trivia]. cbn [contains] in H. apply orb_false_elim in H as [Hc Hb].
  unfold nl in Hc. cbn [startswith] in Hc.
  rewrite startswith_empty, andb_true_r in Hc. rewrite Ascii.eqb_sym in Hc.
  rewrite Hc. by apply IH.
Qed.

Lemma block_comment_open body :
  contains body "*/" = false -> skip_trivia InBlockComment body = EmptyString.
Proof.
  induction body as [|c body IH]; intros H; [done|].
  cbn [contains] in H. apply orb_false_elim in H as [Hc Hb].
  specialize (IH Hb). cbn [skip_trivia]. destruct body as [|c' body]; [done|].
  cbn [startswith] in Hc. rewrite startswith_empty, andb_true_r in Hc.
  rewrite (Ascii.eqb_sym c), (Ascii.eqb_sym c'), Hc. exact IH.
Qed.

Lemma skip_trivia_app pre s :
  trivia pre -> skip_trivia InCode (pre ++ s) = skip_trivia InCode s.
Proof.
  induction 1 as [|c p Hc _ IH|body p Hb _ IH|body p Hb _ IH].
  - reflexivity.
  - rewrite append_cons. cbn [skip_trivia]. by rewrite Hc.
  - change (("--" ++ body ++ nl ++ p) ++ s)
      with (String "-" (String "-" ((body ++ nl ++ p) ++ s))).
    cbn [skip_trivia]. replace (isspace "-") with false by reflexivity.
    replace (Ascii.eqb "-" "-") with true by reflexivity. cbn [andb].
    rewrite !DbFacts.append_assoc. rewrite (line_comment_ends body (p ++ s) Hb).
    exact IH.
  - change (("/*" ++ body ++ "*/" ++ p) ++ s)
      with (String "/" (String "*" ((body ++ "*/" ++ p) ++ s))).
    cbn [skip_trivia]. replace (isspace "/") with false by reflexivity.
    replace (Ascii.eqb "/" "-") with false by reflexivity.
    replace (Ascii.eqb "/" "/") with true by reflexivity.
    replace (Ascii.eqb "*" "*") with true by reflexivity. cbn [andb].
    rewrite !DbFacts.append_assoc.
    rewrite (block_comment_ends body (p ++ s) Hb). exact IH.
Qed.

Lemma statement_text_app pre s :
  trivia pre -> statement_text (pre ++ s) = statement_text s.
Proof. apply skip_trivia_app. Qed.

Lemma word_char_is_code c :
  is_word_char c = true ->
  isspace c = false /\ Ascii.eqb c "-" = false /\ Ascii.eqb c "/" = false
  /\ Ascii.eqb c ";" = false.
Proof. destruct c as [[] [] [] [] [] [] [] []]; vm_compute; intuition congruence. Qed.

Lemma statement_text_word c s : is_word_char c = true -> statement_text (String c s) = String c s.
Proof.
  intros H. destruct (word_char_is_code c H) as (H1 & H2 & H3 & _).
  unfold statement_text. cbn [skip_trivia]. rewrite H1, H2, H3. by destruct s.
Qed.

(** Text that starts neither with white space nor with a comment is the
    statement. *)
Lemma statement_text_code c s :
  isspace c = false -> startswith (String c s) "--" = false ->
  startswith (String c s) "/*" = false ->
  statement_text (String c s) = String c s.
Proof.
  intros Hs H1 H2. unfold statement_text. cbn [skip_trivia]. rewrite Hs.
  destruct s as [|c' s]; [done|].
  cbn [startswith] in H1, H2. rewrite !startswith_empty, !andb_true_r in H1, H2.
  rewrite (Ascii.eqb_sym c "-"), (Ascii.eqb_sym c' "-"), H1.
  by rewrite (Ascii.eqb_sym c "/"), (Ascii.eqb_sym c' "*"), H2.
Qed.

Lemma take_word_app w rest :
  all_word w = true -> ends_word rest = true -> take_word (w ++ rest) = w.
Proof.
  induction w as [|c w IH]; cbn [all_word]; intros Hw Hr.
  - destruct rest as [|c rest]; [done|].
    change (take_word (String c rest) = EmptyString). cbn [take_word ends_word] in *.
    by destruct (is_word_char c).
  - apply andb_prop in Hw as [Hc Hw]. rewrite append_cons. cbn [take_word].
    rewrite Hc. f_equal. by apply IH.
Qed.

Lemma drop_word_app w rest :
  all_word w = true -> ends_word rest = true -> drop_word (w ++ rest) = rest.
Proof.
  induction w as [|c w IH]; cbn [all_word]; intros Hw Hr.
  - destruct rest as [|c rest]; [done|].
    change (drop_word (String c rest) = String c rest). cbn [drop_word ends_word] in *.
    by destruct (is_word_char c).
  - apply andb_prop in Hw as [Hc Hw]. rewrite append_cons. cbn [drop_word].
    rewrite Hc. by apply IH.
Qed.

(** Leading trivia and the case of the letters do not hide the first
    keyword. *)
Lemma leading_keyword_dressed pre w rest :
  trivia pre -> is_word w -> ends_word rest = true ->
  leading_keyword (pre ++ w ++ rest) = upper w.
Proof.
  intros Hp [Hne Hw] Hr. unfold leading_keyword. fold (statement_text (pre ++ w ++ rest)).
  rewrite statement_text_app by done.
  destruct w as [|c w]; [done|].
  pose proof Hw as Hw'. cbn [all_word] in Hw'. apply andb_prop in Hw' as [Hc _].
  rewrite append_cons, statement_text_word by done.
  by rewrite <- append_cons, take_word_app.
Qed.

Lemma rest_dressed pre w rest :
  trivia pre -> is_word w -> ends_word rest = true ->
  drop_word (statement_text (pre ++ w ++ rest)) = rest.
Proof.
  intros Hp [Hne Hw] Hr. rewrite statement_text_app by done.
  destruct w as [|c w]; [done|].
  pose proof Hw as Hw'. cbn [all_word] in Hw'. apply andb_prop in Hw' as [Hc _].
  rewrite append_cons, statement_text_word by done.
  by rewrite <- append_cons, drop_word_app.
Qed.

(** *** Words *)

Lemma upper_app a b : upper (a ++ b) = upper a ++ upper b.
Proof.
  unfold upper. induction a as [|c a IH]; [done|].
  rewrite append_cons. cbn [map_string]. by rewrite IH.
Qed.

Lemma words_from_word w : forall cur rest,
  all_word w = true -> ends_word rest = true ->
  words_from cur (w ++ rest)
  = match rest with
    | EmptyString =>
        match cur ++ upper w with EmptyString => [] | _ => [cur ++ upper w] end
    | String _ rest' =>
        match cur ++ upper w with
        | EmptyString => words_from EmptyString rest'
        | _ => (cur ++ upper w) :: words_from EmptyString rest'
        end
    end.
Proof.
  induction w as [|c w IH]; intros cur rest Hw Hr.
  - change (EmptyString ++ rest) with rest. change (upper EmptyString) with EmptyString.
    rewrite DbFacts.append_nil_r. destruct rest as [|d rest]; [done|].
    cbn [words_from ends_word] in *. by destruct (is_word_char d).
  - cbn [all_word] in Hw. apply andb_prop in Hw as [Hc Hw].
    rewrite append_cons. cbn [words_from]. rewrite Hc. rewrite IH by done.
    rewrite DbFacts.append_assoc. done.
Qed.

Lemma append_nonempty a b : b <> EmptyString -> a ++ b <> EmptyString.
Proof. destruct a; [done|]. by rewrite append_cons. Qed.

Lemma upper_nonempty w : w <> EmptyString -> upper w <> EmptyString.
Proof. by destruct w. Qed.

(** A word between two separators is among the words. *)
Lemma word_is_found gap : forall cur c w rest,
  is_word_char c = false -> is_word w -> ends_word rest = true ->
  upper w ∈ words_from cur (gap ++ String c EmptyString ++ w ++ rest).
Proof.
  induction gap as [|a gap IH]; intros cur c w rest Hc [Hne Hw] Hr.
  - change (EmptyString ++ String c EmptyString ++ w ++ rest) with (String c (w ++ rest)).
    cbn [words_from]. rewrite Hc.
    assert (Hfound : upper w ∈ words_from EmptyString (w ++ rest)).
    { rewrite words_from_word by done. change (EmptyString ++ upper w) with (upper w).
      pose proof (upper_nonempty w Hne).
      destruct rest; destruct (upper w) eqn:E; try done; left. }
    destruct cur; [done|by right].
  - rewrite append_cons. cbn [words_from].
    destruct (is_word_char a); [by apply IH|].
    destruct cur; [by apply IH|]. right. by apply IH.
Qed.

(** *** Semicolons *)

Lemma strip_trailing_solid a : forall d more,
  is_solid d = true ->
  exists r, strip_trailing (a ++ String d more) = a ++ String d r.
Proof.
  induction a as [|c a IH]; intros d more Hd.
  - change (EmptyString ++ String d more) with (String d more). cbn [strip_trailing].
    destruct (strip_trailing more) as [|x r] eqn:E.
    + unfold is_solid in Hd. apply negb_true_iff in Hd. rewrite Hd. by exists EmptyString.
    + by exists (String x r).
  - rewrite append_cons. cbn [strip_trailing].
    destruct (IH d more Hd) as [r ->].
    destruct (a ++ String d r) eqn:E; [by destruct a|]. exists r. by rewrite append_cons, E.
Qed.

Lemma contains_app a b needle : contains b needle = true -> contains (a ++ b) needle = true.
Proof.
  intros H. induction a as [|c a IH]; [done|].
  rewrite append_cons. cbn [contains]. by rewrite IH, orb_true_r.
Qed.

Lemma semicolon_is_kept first gap d more :
  is_solid d = true ->
  contains (strip_trailing (first ++ ";" ++ gap ++ String d more)) ";" = true.
Proof.
  intros Hd.
  destruct (strip_trailing_solid (first ++ ";" ++ gap) d more Hd) as [r Hr].
  rewrite !DbFacts.append_assoc in Hr. rewrite Hr.
  apply contains_app.
  change (";" ++ gap ++ String d r) with (String ";" (gap ++ String d r)).
  cbn [contains startswith]. by rewrite startswith_empty.
Qed.

(** *** The verdicts *)

Lemma validate_sql_spec sql :
  fst (validate_sql sql) = single_read_only_select sql.
Proof.
  unfold validate_sql, single_read_only_select.
  destruct (String.eqb_spec (statement_body sql) EmptyString) as [Hb|_].
  - unfold leading_keyword. fold (statement_text sql).
    unfold statement_body in Hb.
    destruct (statement_text sql) as [|c s]; [done|].
    cbn [strip_trailing] in Hb. cbn [take_word].
    destruct (strip_trailing s); [|done].
    destruct (isspace c || Ascii.eqb c ";") eqn:Hc; [|done].
    destruct (is_word_char c) eqn:Hw; [|done].
    destruct (word_char_is_code c Hw) as (H1 & _ & _ & H2). by rewrite H1, H2 in Hc.
  - destruct (String.eqb (leading_keyword sql) "SELECT"); [|done].
    cbn [negb andb].
    destruct (contains (statement_body sql) ";"); [done|].
    by destruct (names_refused_keyword sql).
Qed.

Lemma validate_sql_message sql msg :
  validate_sql sql = (false, msg) -> msg <> EmptyString.
Proof.
  unfold validate_sql.
  repeat (match goal with |- context [if ?b then _ else _] => destruct b end);
    intros [= <-]; done.
Qed.

Lemma failed_message prefix msg : prefix <> EmptyString -> prefix ++ msg <> EmptyString.
Proof. by destruct prefix. Qed.

(** [execute_query] always returns, and a result that is not a success
    carries a message. *)
Lemma execute_query_returns max_rows engine sql :
  exists r tr,
    execute_query max_rows engine sql = (Return r, tr)
    /\ (qr_success r = false ->
        exists msg, r = failed msg /\ msg <> EmptyString).
Proof.
  unfold execute_query.
  destruct (validate_sql sql) as [[] msg] eqn:Hv.
  2:{ eexists _, _. split; [done|]. intros _. exists msg.
      split; [done|]. by eapply validate_sql_message. }
  unfold emit, io_bind, io_ret.
  destruct (connect_error engine) as [err|].
  { eexists _, _. split; [done|]. intros _. eexists. split; [done|].
    by apply failed_message. }
  destruct (run_select engine sql) as [[kind err]|df].
  - eexists _, _. split; [done|]. intros _. eexists. split; [done|].
    apply failed_message. by destruct kind.
  - eexists _, _. split; [done|]. done.
Qed.

Lemma execute_query_rejects max_rows engine sql :
  single_read_only_select sql = false ->
  exists msg,
    execute_query max_rows engine sql = (Return (failed msg), []).
Proof.
  intros H. rewrite <- validate_sql_spec in H. unfold execute_query.
  destruct (validate_sql sql) as [[] msg]; [done|]. by exists msg.
Qed.

Lemma not_single_select_is_refused sql :
  not_single_select sql -> single_read_only_select sql = false.
Proof.
  unfold single_read_only_select.
  intros [pre Hp|pre body Hp Hb|pre body Hp Hb|pre w rest Hp Hw Hr Hk
          |pre c rest Hp Hc Hs H1 H2|pre c first gap d more Hp Hc Hd
          |pre first gap c w rest Hp Hf Hg Hc Hw Hr Hk].
  - unfold leading_keyword. fold (statement_text pre).
    rewrite <- (DbFacts.append_nil_r pre), statement_text_app by done. done.
  - unfold leading_keyword. fold (statement_text (pre ++ "--" ++ body)).
    rewrite statement_text_app by done.
    change (statement_text ("--" ++ body)) with (skip_trivia InLineComment body).
    by rewrite line_comment_open.
  - unfold leading_keyword. fold (statement_text (pre ++ "/*" ++ body)).
    rewrite statement_text_app by done.
    change (statement_text ("/*" ++ body)) with (skip_trivia InBlockComment body).
    by rewrite block_comment_open.
  - rewrite leading_keyword_dressed by done.
    by destruct (String.eqb_spec (upper w) "SELECT").
  - unfold leading_keyword. fold (statement_text (pre ++ String c rest)).
    rewrite statement_text_app, statement_text_code by done.
    cbn [take_word]. by rewrite Hc.
  - unfold statement_body. rewrite statement_text_app by done.
    rewrite append_cons, statement_text_word by done.
    rewrite <- append_cons, semicolon_is_kept by done.
    by rewrite andb_false_r.
  - unfold names_refused_keyword.
    rewrite rest_dressed; [|done|done|].
    2:{ rewrite DbFacts.append_assoc.
        destruct gap; [by rewrite append_cons|]. by rewrite append_cons in *. }
    replace (existsb _ _) with true; [by rewrite andb_false_r|].
    symmetry. apply existsb_exists. exists (upper w). split.
    + apply list_elem_of_In. unfold words. rewrite !DbFacts.append_assoc.
      by apply word_is_found.
    + by apply bool_decide_eq_true.
Qed.


(** C1.  A statement that is not a single read-only [SELECT] makes
    [execute_sql_query] return a failure envelope, and nothing is done at
    the database: no connection is opened and no statement is executed.
    The statements covered are told by their text: one whose first
    keyword, read after leading comments and in any case, is not [SELECT]
    ([INSERT], [UPDATE], [DELETE], [DROP], [ALTER], [TRUNCATE] and any
    other); one with no keyword at all; one after which a semicolon is
    followed by more than semicolons and white space; and one in which a
    refused keyword follows the first ([SELECT ... INTO], a second
    statement of a batch). *)
Theorem non_select_is_rejected (max_rows : nat) (engine : Engine) (sql_query : string) :
  SqlExecutor.not_single_select sql_query ->
  exists msg,
    execute_sql_query (SqlExecutor.execute_query max_rows) engine sql_query
    = (Return (failure_envelope (Some msg)), []).
Proof.
  intros H%not_single_select_is_refused.
  destruct (execute_query_rejects max_rows engine sql_query H) as [msg Hq].
  exists msg. unfold execute_sql_query. by rewrite Hq.
Qed.

Lemma map_injective {A B} (f : A -> B) (l1 l2 : list A) :
  (forall x y, f x = f y -> x = y) -> map f l1 = map f l2 -> l1 = l2.
Proof.
  intros Hf. revert l2. induction l1 as [|x l1 IH]; intros [|y l2]; cbn; try done.
  intros [= Hxy Hl]. f_equal; auto.
Qed.

Lemma envelope_dict_inj e1 e2 : envelope_dict e1 = envelope_dict e2 -> e1 = e2.
Proof.
  destruct e1 as [s1 d1 c1 r1 err1], e2 as [s2 d2 c2 r2 err2].
  unfold envelope_dict. cbn. intros [= -> Hd Hc -> He].
  apply map_injective in Hd; [|congruence]. apply map_injective in Hc; [|congruence].
  subst. f_equal. destruct err1, err2; congruence.
Qed.

Lemma decoded_envelope_unique s e1 e2 :
  Json.loads s = Some (envelope_dict e1) -> Json.loads s = Some (envelope_dict e2) ->
  e1 = e2.
Proof. intros H1 H2. apply envelope_dict_inj. congruence. Qed.

(** C2.  An envelope with [success = false], whether returned by
    [execute_sql_query] or written as JSON by [execute_sql_and_format],
    carries no data, no columns and a row count of zero, whatever
    [execute_query] answers; and it carries an error message that is not
    empty when the failures of [execute_query] do (the messages of the
    tools themselves are constants that are not empty). *)
Theorem failure_envelope_is_canonical
    (execute_query : Engine -> string -> io QueryResult)
    (engine : Engine) (w : World) (sql_query : string) (e : Envelope) :
  (fst (execute_sql_query execute_query engine sql_query) = Return e
   \/ exists s,
        fst (execute_sql_and_format execute_query w sql_query) = Return s
        /\ Json.loads s = Some (envelope_dict e)) ->
  success e = false ->
  data e = [] /\ columns e = [] /\ row_count e = 0%Z
  /\ ((forall engine q r,
         fst (execute_query engine q) = Return r -> qr_success r = false ->
         exists msg, qr_error r = Some msg /\ msg <> EmptyString) ->
      exists msg, error e = Some msg /\ msg <> EmptyString).
Proof.
  intros [He|(s & Hs & Hl)] Hsuccess.
  - unfold execute_sql_query, io_bind, io_ret in He.
    destruct (execute_query engine sql_query) as [[r|x] tr] eqn:Hq; [|done].
    destruct (qr_success r) eqn:Hr; cbn in He; injection He as <-; [done|].
    cbn. repeat split. intros Hcontract. apply (Hcontract engine sql_query r); [|done].
    by rewrite Hq.
  - destruct (execute_sql_and_format_cases execute_query w sql_query)
      as [[Hc Hout]|[[Hc [msg Hout]]|[[Hc (cs & eng & result & tr & s' & _ & Hq & Hd & Hout)]
         |(x & Hout & _)]]].
    + destruct (failure_dumps None
        (Some "Database credentials not configured in environment variables"))
        as (s' & Hs' & Hl').
      rewrite Hout in Hs. cbn [fst] in Hs. rewrite Hs' in Hs. injection Hs as ->.
      rewrite (decoded_envelope_unique _ _ _ Hl Hl'). cbn.
      repeat split. intros _. by eexists.
    + destruct (failure_dumps None (Some ("Tool error: " ++ msg))) as (s' & Hs' & Hl').
      rewrite Hout, Hs' in Hs. injection Hs as ->.
      rewrite (decoded_envelope_unique _ _ _ Hl Hl'). cbn.
      repeat split. intros _. by eexists.
    + rewrite Hout in Hs. cbn [fst] in Hs. injection Hs as ->.
      pose proof (envelope_loads_dumps _ _ _ (response_well_formed result) Hd) as Hl'.
      rewrite (decoded_envelope_unique _ _ _ Hl Hl') in *.
      unfold response_of in *. destruct (qr_success result) eqn:Hr; [done|].
      cbn. repeat split. intros Hcontract. apply (Hcontract eng sql_query result); [|done].
      by rewrite Hq.
    + congruence.
Qed.

(** C6.  A statement that is executed and whose result set has no rows
    gives the envelope [success = true], [data = []], [row_count = 0], both
    from [execute_sql_query] and, as JSON, from [execute_sql_and_format]. *)
Theorem empty_result_envelope (max_rows : nat) (engine : Engine) (w : World)
    (sql_query : string) (df : DataFrame) :
  SqlExecutor.single_read_only_select sql_query = true ->
  connect_error engine = None ->
  run_select engine sql_query = inr df ->
  df_rows df = [] ->
  all_set (credentials w) = true ->
  (forall cs, create_engine (lib w) cs = Return engine) ->
  let e := {| success := true; data := []; columns := df_columns df;
              row_count := 0; error := None |} in
  fst (execute_sql_query (SqlExecutor.execute_query max_rows) engine sql_query) = Return e
  /\ exists s,
       fst (execute_sql_and_format (SqlExecutor.execute_query max_rows) w sql_query)
       = Return s
       /\ Json.loads s = Some (envelope_dict e).
Proof.
  intros Hsel Hconn Hrun Hrows Hc Hlib e.
  assert (Hq : SqlExecutor.execute_query max_rows engine sql_query
               = (Return {| qr_success := true;
                            qr_data := Some {| df_columns := df_columns df; df_rows := [] |};
                            qr_columns := df_columns df; qr_row_count := 0;
                            qr_error := None |}, [EvConnect; EvExecute sql_query])).
  { unfold SqlExecutor.execute_query. rewrite <- validate_sql_spec in Hsel.
    destruct (SqlExecutor.validate_sql sql_query) as [[] msg]; [|done].
    unfold emit, io_bind, io_ret. rewrite Hconn, Hrun, Hrows. by rewrite take_nil. }
  split.
  - unfold execute_sql_query. rewrite Hq. done.
  - destruct (JsonFacts.loads_dumps (Some 2) (envelope_dict e)) as (s & Hs & Hl).
    { by apply envelope_well_formed. }
    { by rewrite envelope_unserializable. }
    exists s. split; [|done].
    unfold execute_sql_and_format. fold (credentials w). rewrite Hc. cbn [negb].
    unfold create_db_engine, emit, io_lift, io_bind, io_try. rewrite Hlib, Hq.
    cbn [qr_success qr_data qr_columns qr_row_count].
    replace (df_empty _) with true by (by destruct (df_columns df)).
    cbn [negb]. fold e. by rewrite Hs.
Qed.

Lemma execute_sql_and_format_total_witness :
  exists s e,
    fst (execute_sql_and_format (SqlExecutor.execute_query 1000)
           Scenarios.world_without_password "SELECT * FROM Products") = Return s
    /\ Json.loads s = Some (envelope_dict e)
    /\ (all_set (credentials Scenarios.world_without_password) = false ->
        success e = false
        /\ snd (execute_sql_and_format (SqlExecutor.execute_query 1000)
                  Scenarios.world_without_password "SELECT * FROM Products") = []).
Proof.
  apply (execute_sql_and_format_total (SqlExecutor.execute_query 1000)
           Scenarios.world_without_password "SELECT * FROM Products").
  - intros cs e H. discriminate H.
  - intros engine q e H.
    destruct (execute_query_returns 1000 engine q) as (r & tr & Hq & _).
    rewrite Hq in H. discriminate H.
Defined.

Lemma cleanup_is_trivia : trivia "/* cleanup */ ".
Proof.
  apply (trivia_block " cleanup " " "); [reflexivity|].
  apply trivia_space; [reflexivity|]. apply trivia_nil.
Qed.

Lemma non_select_is_rejected_witness :
  exists msg,
    execute_sql_query (SqlExecutor.execute_query 1000)
      (Scenarios.sample_engine Scenarios.sample_products)
      "/* cleanup */ drop table Products;"
    = (Return (failure_envelope (Some msg)), []).
Proof.
  apply (non_select_is_rejected 1000 (Scenarios.sample_engine Scenarios.sample_products)
           "/* cleanup */ drop table Products;").
  apply (other_kind "/* cleanup */ " "drop" " table Products;").
  - exact cleanup_is_trivia.
  - split; [discriminate|reflexivity].
  - reflexivity.
  - discriminate.
Defined.

(** The failures of the modelled [execute_query] carry a message. *)
Lemma execute_query_failures_carry_a_message max_rows engine q r :
  fst (SqlExecutor.execute_query max_rows engine q) = Return r -> qr_success r = false ->
  exists msg, qr_error r = Some msg /\ msg <> EmptyString.
Proof.
  intros Hq Hr. destruct (execute_query_returns max_rows engine q) as (r' & tr & Hq' & Hfail).
  rewrite Hq' in Hq. injection Hq as ->.
  destruct (Hfail Hr) as (msg & -> & Hmsg). by exists msg.
Qed.

Lemma failure_envelope_is_canonical_witness :
  exists e,
    fst (execute_sql_query (SqlExecutor.execute_query 1000)
           (Scenarios.sample_engine Scenarios.sample_products) "DELETE FROM Products")
    = Return e
    /\ success e = false
    /\ data e = [] /\ columns e = [] /\ row_count e = 0%Z
    /\ exists msg, error e = Some msg /\ msg <> EmptyString.
Proof.
  exists (failure_envelope (Some "Only SELECT queries are allowed")).
  split; [reflexivity|]. split; [reflexivity|].
  destruct (failure_envelope_is_canonical (SqlExecutor.execute_query 1000)
              (Scenarios.sample_engine Scenarios.sample_products) Scenarios.sample_world
              "DELETE FROM Products"
              (failure_envelope (Some "Only SELECT queries are allowed")))
    as (Hd & Hc & Hn & He).
  - left. reflexivity.
  - reflexivity.
  - split; [exact Hd|]. split; [exact Hc|]. split; [exact Hn|].
    apply He. apply execute_query_failures_carry_a_message.
Defined.

Lemma empty_result_envelope_witness :
  fst (execute_sql_query (SqlExecutor.execute_query 1000)
         (Scenarios.sample_engine Scenarios.sample_products)
         "SELECT * FROM Products WHERE 1 = 0")
  = Return {| success := true; data := []; columns := ["ProductID"; "Category"];
              row_count := 0; error := None |}
  /\ exists s,
       fst (execute_sql_and_format (SqlExecutor.execute_query 1000)
              Scenarios.sample_world "SELECT * FROM Products WHERE 1 = 0") = Return s
       /\ Json.loads s
          = Some (envelope_dict
                    {| success := true; data := []; columns := ["ProductID"; "Category"];
                       row_count := 0; error := None |}).
Proof.
  apply (empty_result_envelope 1000 (Scenarios.sample_engine Scenarios.sample_products)
           Scenarios.sample_world "SELECT * FROM Products WHERE 1 = 0"
           (Scenarios.products_frame [])); reflexivity.
Defined.

(** Leading comments, case and trailing semicolons do not hide the kind of
    a statement. *)
Example obfuscated_writes_are_recognised :
  map leading_keyword
      ["INSERT INTO t VALUES (1)"; "update t set a = 1;"; "  DeLeTe FROM t ;; ";
       "/* c */ -- d" ++ nl ++ "drop table t"; "/**/alter table t add c int";
       "--" ++ nl ++ "TRUNCATE TABLE t;"]
  = WRITE_KEYWORDS.
Proof. reflexivity. Qed.

(** Writes and batches behind a leading [SELECT] are refused, and plain
    selections are let through. *)
Example select_prefixed_writes_are_refused :
  map single_read_only_select
      ["SELECT * INTO backup FROM Products";
       "SELECT 1 EXEC xp_cmdshell 'dir'";
       "SELECT 1 CREATE TABLE t (a int)";
       "select 1 merge into t using s on 1 = 1 when matched then delete";
       "SELECT 1 SELECT 2";
       "SELECT 1; DROP TABLE t";
       "SELECT_1";
       "(SELECT 1)";
       "WITH c AS (SELECT 1) DELETE FROM t";
       "SELECT TOP 5 * FROM Products";
       "select Category, count(*) as n from Products group by Category;"]
  = [false; false; false; false; false; false; false; false; false; true; true].
Proof. reflexivity. Qed.

End ToolsFacts.

(* ===================================================================== *)
(** * The retry loop of [evaluate_sql.py] *)
(* ===================================================================== *)

Module EvaluateFacts.
Import Py EvaluateSql.
Local Open Scope string_scope.

Lemma backoff_S k : backoff (S k) = (backoff k ++ [(Z.of_nat (S k) * 20)%Z])%list.
Proof. unfold backoff. by rewrite seq_S, map_app. Qed.

(** [k] rate-limited turns, starting from turn [calls st], use up [k] of
    the remaining turns. *)
Lemma retry_loop_failures model k : forall remaining st,
  (forall i, i < k -> rate_limited (model (calls st + i))) ->
  retry_loop model (k + remaining) st
  = retry_loop model remaining
      {| retry_count := retry_count st + k;
         generated_sql := match k with 0 => generated_sql st | _ => Some EmptyString end;
         waits := (waits st
                   ++ map (fun i => (Z.of_nat (retry_count st + i) * 20)%Z) (seq 1 k))%list;
         calls := calls st + k |}.
Proof.
  induction k as [|k IH]; intros remaining st Hfail.
  - cbn. rewrite !Nat.add_0_r, app_nil_r. by destruct st.
  - destruct (Hfail 0 ltac:(lia)) as (e & Ha & He & Hr). rewrite Nat.add_0_r in Ha.
    cbn [Nat.add retry_loop]. rewrite Ha, He, Hr. cbn [negb consume fold_left].
    rewrite IH.
    2:{ intros i Hi. cbn [calls]. replace (S (calls st) + i) with (calls st + S i) by lia.
        apply Hfail. lia. }
    cbn [retry_count generated_sql waits calls]. f_equal. f_equal.
    + lia.
    + by destruct k.
    + rewrite <- app_assoc. f_equal. cbn [app seq map]. rewrite <- (seq_shift k 1), map_map.
      f_equal; [f_equal; lia|]. apply map_ext. intros i. f_equal. lia.
    + lia.
Qed.

(** [k] rate-limit failures of any kind, starting from turn [calls st],
    use up [k] of the remaining turns and wait 20 s longer each time; what
    the variable [generated_sql] holds afterwards depends on the events
    the failed runs yielded. *)
Lemma retry_loop_rate_limit_failures model k : forall remaining st,
  (forall i, i < k -> rate_limit_failure (model (calls st + i))) ->
  exists sql,
    retry_loop model (k + remaining) st
    = retry_loop model remaining
        {| retry_count := retry_count st + k;
           generated_sql := sql;
           waits := (waits st
                     ++ map (fun i => (Z.of_nat (retry_count st + i) * 20)%Z) (seq 1 k))%list;
           calls := calls st + k |}.
Proof.
  induction k as [|k IH]; intros remaining st Hfail.
  - exists (generated_sql st). cbn. rewrite !Nat.add_0_r, app_nil_r. by destruct st.
  - destruct (Hfail 0 ltac:(lia)) as (e & Ha & He & Hr). rewrite Nat.add_0_r in Ha.
    cbn [Nat.add retry_loop].
    destruct Ha as [Ha|[events Ha]]; rewrite Ha, He, Hr; cbn [negb];
      match goal with
      | |- context [retry_loop model (k + remaining) ?st'] =>
          destruct (IH remaining st') as [sql IH'];
          [ intros i Hi; cbn [calls];
            replace (S (calls st) + i) with (calls st + S i) by lia; apply Hfail; lia
          | exists sql; rewrite IH' ]
      end;
      cbn [retry_count generated_sql waits calls]; f_equal; f_equal;
      try lia;
      (rewrite <- app_assoc; f_equal; cbn [app seq map];
       rewrite <- (seq_shift k 1), map_map;
       f_equal; [f_equal; lia|]; apply map_ext; intros i; f_equal; lia).
Qed.

(** C3 (amended).  Rate-limit failures are retried after a wait that grows
    linearly, 20 s times the number of failures so far: after fewer than
    [max_retries = 3] rate-limit failures in a row, wherever in the turn
    they arise, a turn that completes gives its output, and the waits
    were 20, 40, ... seconds. *)
Theorem retry_is_bounded (model : nat -> attempt) (previous : option string)
    (k : nat) (events : list Event) :
  k < max_retries ->
  (forall i, i < k -> rate_limit_failure (model i)) ->
  model k = RunCompletes events ->
  generate model previous =
  Return (finish (consume events EmptyString),
          {| retry_count := k;
             generated_sql := Some (consume events EmptyString);
             waits := backoff k;
             calls := S k |}).
Proof.
  intros Hk Hfail Hok. unfold generate.
  replace max_retries with (k + S (max_retries - S k)) at 1 by lia.
  destruct (retry_loop_rate_limit_failures model k (S (max_retries - S k))
              {| retry_count := 0; generated_sql := previous; waits := []; calls := 0 |})
    as [sql ->]; [intros i Hi; by apply Hfail|].
  cbn [retry_count generated_sql waits calls Nat.add app retry_loop].
  fold (backoff k). rewrite Hok. cbn [mbind result_bind generated_sql].
  reflexivity.
Qed.

Lemma two_failures_are_rate_limit_failures i :
  i < 2 -> rate_limit_failure (Scenarios.failures_then_success 2 i).
Proof.
  intros Hi. destruct i as [|[|i]]; [| |lia];
    eexists; (split; [right; eexists; reflexivity|split; reflexivity]).
Qed.

Lemma retry_is_bounded_witness :
  2 < max_retries
  /\ generate (Scenarios.failures_then_success 2) None
     = Return (GeneratedSql "SELECT 1",
               {| retry_count := 2; generated_sql := Some "SELECT 1";
                  waits := [20; 40]%Z; calls := 3 |}).
Proof.
  split; [unfold max_retries; lia|].
  apply (retry_is_bounded (Scenarios.failures_then_success 2) None 2
           [{| state_delta := [("sql_query", "SELECT 1")] |}]).
  - unfold max_retries; lia.
  - exact two_failures_are_rate_limit_failures.
  - reflexivity.
Defined.

(** C3, as the spec states it, fails: after three rate-limit failures the
    loop has used its three turns, the successful fourth turn is never
    made, and the case is skipped with no query; and the waits 20, 40, 60
    grow by a constant step, not by a constant factor. *)
Lemma three_failures_exhaust_the_retries :
  generate (Scenarios.failures_then_success 3) None
  = Return (NoSql, {| retry_count := 3; generated_sql := Some EmptyString;
                      waits := [20; 40; 60]%Z; calls := 3 |})
  /\ ~ (exists r : Z, 40 = 20 * r /\ 60 = 40 * r)%Z.
Proof. split; [reflexivity|]. intros (r & H1 & H2). lia. Qed.

End EvaluateFacts.

(* ===================================================================== *)
(** * The presentation adapter of [app.py] *)
(* ===================================================================== *)

Module AppFacts.
Import Py Db App.
Local Open Scope string_scope.

(** C4 (amended).  On a run whose pipeline returned and whose query text
    is a string, a failure of the presentation stage is isolated:
    - when the query results fail to parse as JSON, the response shows the
      query text, with the parse error below it, and no table and no chart;
    - when the chart code raises an exception that derives from
      [Exception], the response shows the query text and the explanation,
      no chart, and the data frame [df'] in the state the chart code left
      it in, which need not be the table that was read.
    In both cases [process_request_async] returns. *)
Theorem presentation_failure_is_isolated (rt : Runtime) (message : string)
    (results : dict) (raw_sql : string) :
  truthy (PStr (strip message)) = true ->
  run_bi_pipeline_async rt message = Return results ->
  get "sql_query" (PStr EmptyString) results = PStr raw_sql ->
  let sql_query := unfence "```sql" (strip raw_sql) in
  (forall text e,
      get "query_results" (PStr "{}") results = PStr text ->
      json_loads rt text = Raise e ->
      process_request_async rt message
      = Return ("-- Error executing query" ++ nl ++ sql_query ++ nl ++ nl
                ++ "-- Error: Failed to parse query results",
                None, None,
                PStr "Error executing query: Failed to parse query results"))
  /\ (forall query_results df chart_spec e df',
      loads_if_str rt (get "query_results" (PStr "{}") results)
      = Return (PDict query_results) ->
      truthy (get "success" (PBool false) query_results) = true ->
      truthy (get "data" (PList []) query_results) = true ->
      pd_DataFrame rt (get "data" (PList []) query_results) = Return df ->
      get "chart_spec" (PStr EmptyString) results = PStr chart_spec ->
      chart_spec <> EmptyString ->
      exec rt (unfence "```python" (strip chart_spec)) df = ExecRaises e df' ->
      is_Exception e = true ->
      process_request_async rt message
      = Return (sql_query, Some df', None,
                get "explanation_text" (PStr EmptyString) results)).
Proof.
  intros Hmsg Hrun Hsql sql_query. unfold process_request_async.
  unfold mbind, result_bind.
  rewrite Hmsg, Hrun. cbn [negb bind]. rewrite Hsql.
  cbn [method_strip bind]. fold sql_query. split.
  - intros text e Htext Hloads. rewrite Htext. cbn [loads_if_str].
    rewrite Hloads. reflexivity.
  - intros query_results df chart_spec e df' Hq Hok Hdata Hdf Hspec Hne Hexec He.
    rewrite Hq. cbn [try_except_all bind method_get]. rewrite Hok. cbn [negb].
    rewrite Hdata. cbn [negb]. rewrite Hdf. cbn [bind]. rewrite Hspec.
    unfold chart_block. cbn [truthy method_strip].
    destruct (String.eqb_spec chart_spec EmptyString) as [|_]; [done|].
    cbn [negb]. rewrite Hexec, He. reflexivity.
Qed.

Lemma presentation_failure_is_isolated_witness :
  process_request_async Scenarios.run_with_bad_json Scenarios.sample_question
  = Return ("-- Error executing query" ++ nl
            ++ "SELECT Category, COUNT(*) AS n FROM Products GROUP BY Category"
            ++ nl ++ nl ++ "-- Error: Failed to parse query results",
            None, None, PStr "Error executing query: Failed to parse query results")
  /\ process_request_async Scenarios.run_with_bad_chart Scenarios.sample_question
     = Return ("SELECT Category, COUNT(*) AS n FROM Products GROUP BY Category",
               Some {| df_columns := ["Category"; "n"];
                       df_rows := [[CStr "Bikes"; CInt 3]; [CStr "Helmets"; CInt (-1)]] |},
               None, PStr "Bikes lead with 3 products.").
Proof.
  split.
  - refine (proj1 (presentation_failure_is_isolated
              Scenarios.run_with_bad_json Scenarios.sample_question
              (Scenarios.sample_results "I could not run the query" "chart = alt.Chart(df)")
              "```sql SELECT Category, COUNT(*) AS n FROM Products GROUP BY Category```"
              _ _ _) "I could not run the query" (Exception "Expecting value") _ _);
      vm_compute; reflexivity.
  - refine (proj2 (presentation_failure_is_isolated
              Scenarios.run_with_bad_chart Scenarios.sample_question
              (Scenarios.sample_results Scenarios.sample_json "chart = alt.Chart(frame)")
              "```sql SELECT Category, COUNT(*) AS n FROM Products GROUP BY Category```"
              _ _ _)
              [("success", PBool true);
               ("data", PList [PDict [("Category", PStr "Bikes"); ("n", PInt 3)];
                               PDict [("Category", PStr "Helmets"); ("n", PInt (-1))]]);
               ("columns", PList [PStr "Category"; PStr "n"]);
               ("row_count", PInt 2); ("error", PNone)]
              {| df_columns := ["Category"; "n"];
                 df_rows := [[CStr "Bikes"; CInt 3]; [CStr "Helmets"; CInt (-1)]] |}
              "chart = alt.Chart(frame)"
              (Exception "name 'frame' is not defined")
              _ _ _ _ _ _ _ _ _);
      try (vm_compute; reflexivity). discriminate.
Defined.

(** C4, as the spec states it, fails: chart code that calls [sys.exit(1)]
    raises [SystemExit], which does not derive from [Exception]; neither
    [except Exception] clause catches it and it leaves
    [process_request_async]. *)
Lemma exiting_chart_code_is_not_isolated :
  process_request_async Scenarios.run_with_exiting_chart Scenarios.sample_question
  = Raise {| is_Exception := false; exn_str := "1" |}.
Proof. vm_compute. reflexivity. Qed.

End AppFacts.

(* ===================================================================== *)
(** * Further facts about the schema reader of [db_config.py] *)
(* ===================================================================== *)

Module SchemaFacts.
Import Py Db DbConfig DbFacts.

(** *** Filtering by [limit_tables] *)

(** X1.  [limit_tables] is applied before the cap: with a list that is not
    empty the text is that of the tables of the unfiltered dictionary
    whose name is in the list, in the same order and with the same
    columns, cut at [max_tables] and closed by the line that counts the
    rest of them; names that match no table are ignored.  An empty list,
    being false in Python, filters nothing. *)
Theorem limit_tables_selects (engine : Engine) (names : list string) (max_tables : Z) :
  connect_error engine = None ->
  (names <> [] ->
   get_schema_info engine (Some names) max_tables
   = rendered (List.filter (fun kv => bool_decide (fst kv ∈ names))
                 (tables_of (catalog_query (catalog engine)) None)) max_tables)
  /\ get_schema_info engine (Some []) max_tables = get_schema_info engine None max_tables.
Proof.
  intros Hconn. split.
  - intros Hne. rewrite get_schema_info_rendered by done. by rewrite tables_of_limited.
  - unfold get_schema_info. by rewrite Hconn.
Qed.

(** *** The cap *)

(** X2.  When the tables found are no more than [max_tables], the text is
    the header and the block of each of them, and no line about further
    tables is added. *)
Theorem schema_within_cap (engine : Engine) (limit_tables : option (list string))
    (max_tables : Z) :
  connect_error engine = None ->
  let tables := tables_of (catalog_query (catalog engine)) limit_tables in
  (Z.of_nat (length tables) <= max_tables)%Z ->
  get_schema_info engine limit_tables max_tables
  = "Database Schema:" ++ nl ++ nl ++ concat_all (map table_block tables).
Proof.
  intros Hconn tables Hmax. rewrite get_schema_info_rendered by done. fold tables.
  unfold rendered, listing, slice_to.
  destruct (Z.leb_spec 0 max_tables) as [_|]; [|lia].
  rewrite take_ge by lia.
  destruct (Z.ltb_spec max_tables (Z.of_nat (length tables))) as [|_]; [lia|].
  by rewrite append_nil_r.
Qed.

(** X3.  A negative [max_tables] is a Python slice bound counted from the
    end: the text holds the blocks of all tables but the last
    [- max_tables], and the closing line is always added, with a count
    that exceeds the number of tables. *)
Theorem negative_cap_counts_from_the_end (engine : Engine)
    (limit_tables : option (list string)) (max_tables : Z) :
  connect_error engine = None ->
  (max_tables < 0)%Z ->
  let tables := tables_of (catalog_query (catalog engine)) limit_tables in
  let shown := take (length tables - Z.to_nat (- max_tables)) tables in
  get_schema_info engine limit_tables max_tables
  = "Database Schema:" ++ nl ++ nl
    ++ concat_all (map table_block shown)
    ++ nl ++ "... and " ++ str_int (Z.of_nat (length tables) - max_tables)
    ++ " more tables" ++ nl
  /\ (Z.of_nat (length tables) < Z.of_nat (length tables) - max_tables)%Z.
Proof.
  intros Hconn Hmax tables shown. split; [|lia].
  rewrite get_schema_info_rendered by done. fold tables.
  unfold rendered, listing, more_tables_line, slice_to.
  destruct (Z.leb_spec 0 max_tables) as [|_]; [lia|]. fold shown.
  destruct (Z.ltb_spec max_tables (Z.of_nat (length tables))) as [_|]; [|lia].
  by rewrite !append_assoc.
Qed.

(** *** What is listed *)

(** X4.  Only base tables that have a column are listed: every name in
    the listing is [schema.table] for a row of [TABLES] of type
    [BASE TABLE] to which a row of [COLUMNS] belongs.  Views, and tables
    without a visible column, never appear. *)
Theorem only_base_tables_are_listed (cat : Catalog) (limit_tables : option (list string))
    (n : string) :
  n ∈ keys (tables_of (catalog_query cat) limit_tables) ->
  exists t c,
    t ∈ TABLES cat /\ TABLE_TYPE t = "BASE TABLE"
    /\ c ∈ COLUMNS cat
    /\ COL_TABLE_SCHEMA c = TABLE_SCHEMA t /\ COL_TABLE_NAME c = TABLE_NAME t
    /\ n = TABLE_SCHEMA t ++ "." ++ TABLE_NAME t.
Proof.
  intros Hn%listed_names_come_from_rows. unfold catalog_query in Hn.
  apply list_elem_of_fmap in Hn as (r & -> & (j & -> & Hj)%list_elem_of_fmap).
  unfold sorted_join in Hj. rewrite merge_sort_Permutation in Hj.
  destruct j as [t c]. apply elem_of_inner_join in Hj as (Ht & Hw & Hc & Hon).
  exists t, c. unfold where_clause in Hw. apply String.eqb_eq in Hw.
  unfold on_clause in Hon. apply andb_prop in Hon as [H1%String.eqb_eq H2%String.eqb_eq].
  done.
Qed.

(** X5.  Under the heading of a base table stand exactly the columns of
    that table, each once, provided no other base table has the same
    qualified name [schema.table]. *)
Theorem table_lists_its_columns (cat : Catalog) (t : table_row) :
  NoDup (map qualified_name (base_tables cat)) ->
  In t (base_tables cat) ->
  get (qualified_name t) [] (tables_of (catalog_query cat) None)
  ≡ₚ map (fun c => column_of (select_list (t, c)))
         (filter (fun c => on_clause t c = true) (COLUMNS cat)).
Proof.
  intros Hnd Hin. rewrite get_tables_of. unfold columns_in, catalog_query.
  rewrite filter_map_comm, map_map.
  rewrite (filter_Permutation_bool _ (sorted_join cat) (inner_join cat))
    by apply merge_sort_Permutation.
  unfold inner_join.
  rewrite (filter_ext (fun x => String.eqb (full_name (select_list x)) (qualified_name t))
             (fun j => String.eqb (qualified_name (fst j)) (qualified_name t)))
    by (by intros [t2 c]).
  unfold joined. rewrite (join_rows_of_table (COLUMNS cat) t (TABLES cat) Hnd Hin).
  by rewrite map_map.
Qed.

(** *** Instances *)

Lemma limit_tables_selects_witness :
  get_schema_info (Scenarios.sample_engine Scenarios.sample_products)
    (Some ["dbo.Products"; "dbo.Missing"]) 1
  = rendered (List.filter (fun kv => bool_decide (fst kv ∈ ["dbo.Products"; "dbo.Missing"]))
                (tables_of (catalog_query Scenarios.sample_catalog) None)) 1
  /\ get_schema_info (Scenarios.sample_engine Scenarios.sample_products) (Some []) 1
     = get_schema_info (Scenarios.sample_engine Scenarios.sample_products) None 1.
Proof.
  destruct (limit_tables_selects (Scenarios.sample_engine Scenarios.sample_products)
              ["dbo.Products"; "dbo.Missing"] 1) as [H1 H2].
  - reflexivity.
  - split; [apply H1; discriminate|exact H2].
Defined.

Lemma schema_within_cap_witness :
  let engine := Scenarios.sample_engine Scenarios.sample_products in
  let tables := tables_of (catalog_query (catalog engine)) None in
  get_schema_info engine None 2
  = "Database Schema:" ++ nl ++ nl ++ concat_all (map table_block tables).
Proof.
  apply (schema_within_cap (Scenarios.sample_engine Scenarios.sample_products) None 2).
  - reflexivity.
  - vm_compute. discriminate.
Defined.

Lemma negative_cap_counts_from_the_end_witness :
  let engine := Scenarios.sample_engine Scenarios.sample_products in
  let tables := tables_of (catalog_query (catalog engine)) None in
  let shown := take (length tables - Z.to_nat (- -1)) tables in
  get_schema_info engine None (-1)
  = "Database Schema:" ++ nl ++ nl
    ++ concat_all (map table_block shown)
    ++ nl ++ "... and " ++ str_int (Z.of_nat (length tables) - -1)
    ++ " more tables" ++ nl
  /\ (Z.of_nat (length tables) < Z.of_nat (length tables) - -1)%Z.
Proof.
  apply (negative_cap_counts_from_the_end
           (Scenarios.sample_engine Scenarios.sample_products) None (-1)).
  - reflexivity.
  - lia.
Defined.

Lemma only_base_tables_are_listed_witness :
  exists t c,
    t ∈ TABLES Scenarios.sample_catalog /\ TABLE_TYPE t = "BASE TABLE"
    /\ c ∈ COLUMNS Scenarios.sample_catalog
    /\ COL_TABLE_SCHEMA c = TABLE_SCHEMA t /\ COL_TABLE_NAME c = TABLE_NAME t
    /\ "dbo.Products" = TABLE_SCHEMA t ++ "." ++ TABLE_NAME t.
Proof.
  apply (only_base_tables_are_listed Scenarios.sample_catalog None "dbo.Products").
  apply (bool_decide_unpack _). vm_compute. reflexivity.
Defined.

Lemma table_lists_its_columns_witness :
  let t := {| TABLE_SCHEMA := "dbo"; TABLE_NAME := "Products";
              TABLE_TYPE := "BASE TABLE" |} in
  get (qualified_name t) [] (tables_of (catalog_query Scenarios.sample_catalog) None)
  ≡ₚ map (fun c => column_of (select_list (t, c)))
         (filter (fun c => on_clause t c = true) (COLUMNS Scenarios.sample_catalog)).
Proof.
  apply (table_lists_its_columns Scenarios.sample_catalog
           {| TABLE_SCHEMA := "dbo"; TABLE_NAME := "Products";
              TABLE_TYPE := "BASE TABLE" |}).
  - apply (bool_decide_unpack _). vm_compute. reflexivity.
  - left. reflexivity.
Defined.

End SchemaFacts.

(* ===================================================================== *)
(** * The connection check of [db_config.py] and the class [BIService] *)
(* ===================================================================== *)

Module ServiceFacts.
Import Py Db DbConfig DbConnection BIServiceClass.

Lemma length_append (a b : string) :
  String.length (a ++ b) = String.length a + String.length b.
Proof.
  induction a as [|c a IH]; [done|].
  change (S (String.length (a ++ b)) = S (String.length a + String.length b)).
  by rewrite IH.
Qed.

Lemma startswith_append (p s : string) : startswith (p ++ s) p = true.
Proof.
  induction p as [|c p IH]; [by destruct s|].
  change (startswith (String c (p ++ s)) (String c p) = true).
  cbn [startswith]. by rewrite Ascii.eqb_refl, IH.
Qed.

Lemma length_str_slice_to stop s : String.length (str_slice_to stop s) <= stop.
Proof.
  revert s. induction stop as [|stop IH]; intros [|c s]; cbn; try lia.
  specialize (IH s). lia.
Qed.

Lemma str_slice_to_short stop s : String.length s <= stop -> str_slice_to stop s = s.
Proof.
  revert s. induction stop as [|stop IH]; intros [|c s]; cbn; try done; try lia.
  intros H. f_equal. apply IH. lia.
Qed.

Lemma validate_connection_returns (engine : Engine) :
  exists answer tr, validate_connection engine = (Return answer, tr).
Proof.
  unfold validate_connection, io_try, io_bind, emit, io_raise, io_ret, io_lift.
  destruct (connect_error engine); [by eexists _, _|].
  destruct (run_select engine version_query) as [[kind err]|result]; [by eexists _, _|].
  destruct (scalar result); by eexists _, _.
Qed.

(** X6.  [validate_connection] never raises: it answers with a flag and
    a message.  The flag is [True] exactly when the connection opens and
    the version query gives back a string, of which the message shows at
    most the first 50 characters; a refused connection, a failed query and
    a version that is [NULL] are all answered with [False] and a message
    that starts with "Connection failed: ".  Nothing but the connection and
    the version query is asked of the database. *)
Theorem validate_connection_answers (engine : Engine) :
  exists ok msg tr,
    validate_connection engine = (Return (ok, msg), tr)
    /\ (ok = true <->
        connect_error engine = None
        /\ exists result version,
             run_select engine version_query = inr result
             /\ scalar result = CStr version)
    /\ (ok = true ->
        exists version,
          msg = "Connected successfully. SQL Server version: "
                ++ str_slice_to 50 version ++ "..."
          /\ String.length msg <= 97)
    /\ (ok = false -> startswith msg "Connection failed: " = true)
    /\ (tr = [EvConnect] \/ tr = [EvConnect; EvExecute version_query]).
Proof.
  unfold validate_connection, io_try, io_bind, emit, io_raise, io_ret, io_lift.
  destruct (connect_error engine) as [err|] eqn:Hc; cbn -[str_slice_to String.append].
  { exists false, ("Connection failed: " ++ err), [EvConnect].
    split; [done|]. split.
    { split; [done|]. intros [? _]. done. }
    split; [done|]. split; [intros _; apply startswith_append|]. by left. }
  destruct (run_select engine version_query) as [[kind err]|result] eqn:Hq;
    cbn -[str_slice_to String.append].
  { exists false, ("Connection failed: " ++ err), [EvConnect; EvExecute version_query].
    split; [done|]. split.
    { split; [done|]. intros [_ (? & ? & ? & _)]. done. }
    split; [done|]. split; [intros _; apply startswith_append|]. by right. }
  destruct (scalar result) as [|b|z|f|version|cls] eqn:Hs; cbn -[str_slice_to String.append].
  5:{ exists true, ("Connected successfully. SQL Server version: "
                    ++ str_slice_to 50 version ++ "..."),
             [EvConnect; EvExecute version_query].
      split; [done|]. split.
      { split; [|done]. intros _. split; [done|]. by exists result, version. }
      split; [|split; [done|by right]].
      intros _. exists version. split; [done|].
      rewrite !length_append. pose proof (length_str_slice_to 50 version).
      cbn -[str_slice_to]. lia. }
  all: eexists false, _, [EvConnect; EvExecute version_query].
  all: split; [done|]; split;
    [split; [done|]; intros [_ (r & v & [= <-] & Hv)]; congruence|].
  all: split; [done|]; split; [intros _; apply startswith_append|by right].
Qed.

(** X7.  Closing a service leaves it without an engine, whatever it
    held: the engine, if there was one, is disposed once; a second [close]
    does nothing; every later [execute_sql] is answered "Not connected to
    database" without a step at the database; the credentials and the
    loaded schema text are kept. *)
Theorem closed_service_is_inert
    (execute_query : Engine -> string -> io QueryResult)
    (self : BIService) (sql_query : string) :
  exists closed,
    close self = (Return closed, match engine self with Some _ => [EvDispose] | None => [] end)
    /\ engine closed = None
    /\ close closed = (Return closed, [])
    /\ execute_sql execute_query closed sql_query
       = (Return {| qr_success := false; qr_data := None;
                    qr_error := Some "Not connected to database";
                    qr_row_count := 0; qr_columns := [] |}, [])
    /\ schema_info closed = schema_info self
    /\ (server closed, database closed, username closed, password closed)
       = (server self, database self, username self, password self).
Proof.
  unfold close. destruct self as [s d u p dr tr [e|] si]; cbn.
  - by eexists.
  - by eexists.
Qed.

(** X8.  [connect] stores the engine before it validates the connection:
    once [create_db_engine] has returned, the service holds the engine
    whether or not the validation succeeds, so that after a failed
    [connect] an [execute_sql] still goes to [execute_query] with that
    engine.  When [create_db_engine] raises, the answer is [False] with
    "Connection error: ..." and the service is unchanged. *)
Theorem connect_keeps_the_engine (lib : Libraries) (self : BIService) :
  let created := create_db_engine lib (server self) (database self) (username self)
                   (password self) (driver self) (trust_server_certificate self) in
  (forall e, fst created = Return e ->
     exists answer tr,
       connect lib self = (Return (answer, set_engine self (Some e)), tr)
       /\ fst (validate_connection e) = Return answer
       /\ (forall msg, connect_error e = Some msg ->
             answer = (false, "Connection failed: " ++ msg))
       /\ forall execute_query sql_query,
            execute_sql execute_query (set_engine self (Some e)) sql_query
            = execute_query e sql_query)
  /\ (forall x, fst created = Raise x -> is_Exception x = true ->
        connect lib self
        = (Return ((false, "Connection error: " ++ exn_str x), self), snd created)).
Proof.
  intros created. unfold connect. fold created. split.
  - intros e He. destruct created as [r t]. cbn [fst] in He. subst r.
    destruct (validate_connection_returns e) as ([ok msg] & tr & Hv).
    rewrite Hv. exists (ok, msg), (t ++ tr)%list.
    split; [done|]. split; [done|]. split; [|done].
    intros err Herr. unfold validate_connection, io_try, io_bind, emit, io_raise in Hv.
    rewrite Herr in Hv. cbn in Hv. congruence.
  - intros x Hx Hexn. destruct created as [r t]. cbn [fst snd] in *. subst r.
    by rewrite Hexn.
Qed.

(** X9.  The schema text is read through the engine and kept: without an
    engine [load_schema] raises, and without a loaded text
    [get_schema_for_sql_generation] raises; with an engine [load_schema]
    always returns, and what it returns, be it the schema or the text
    "Error retrieving schema: ..." of a failed read, is the text that
    [get_schema_for_sql_generation] puts before the question. *)
Theorem schema_text_is_cached (self : BIService) (max_tables : Z) (question : string) :
  (engine self = None ->
   load_schema self max_tables
   = Raise (Exception "Not connected to database. Call connect() first."))
  /\ (schema_info self = None ->
      get_schema_for_sql_generation self question
      = Raise (Exception "Schema not loaded. Call load_schema() first."))
  /\ (forall e, engine self = Some e ->
      exists loaded,
        load_schema self max_tables = Return (get_schema_info e None max_tables, loaded)
        /\ engine loaded = Some e
        /\ get_schema_for_sql_generation loaded question
           = Return (get_schema_info e None max_tables ++ nl ++ nl
                     ++ "User Question: " ++ question ++ nl)
        /\ forall msg, connect_error e = Some msg ->
             get_schema_for_sql_generation loaded question
             = Return (("Error retrieving schema: " ++ msg) ++ nl ++ nl
                       ++ "User Question: " ++ question ++ nl)).
Proof.
  split; [|split].
  - intros H. unfold load_schema. by rewrite H.
  - intros H. unfold get_schema_for_sql_generation. by rewrite H.
  - intros e H. unfold load_schema. rewrite H. eexists. split; [done|].
    split; [done|]. split; [done|].
    intros msg Hmsg. cbn. unfold get_schema_info. by rewrite Hmsg.
Qed.

(** *** Instances *)

Lemma connect_keeps_the_engine_witness :
  (exists answer tr,
     connect (MoreScenarios.libraries_for MoreScenarios.unreachable_engine)
       MoreScenarios.sample_service
     = (Return (answer, set_engine MoreScenarios.sample_service
                          (Some MoreScenarios.unreachable_engine)), tr)
     /\ fst (validate_connection MoreScenarios.unreachable_engine) = Return answer
     /\ (forall msg, connect_error MoreScenarios.unreachable_engine = Some msg ->
           answer = (false, "Connection failed: " ++ msg))
     /\ forall execute_query sql_query,
          execute_sql execute_query
            (set_engine MoreScenarios.sample_service
               (Some MoreScenarios.unreachable_engine)) sql_query
          = execute_query MoreScenarios.unreachable_engine sql_query)
  /\ connect MoreScenarios.broken_libraries MoreScenarios.sample_service
     = (Return ((false, "Connection error: Can't load plugin: sqlalchemy.dialects:mssql"),
                MoreScenarios.sample_service),
        snd (create_db_engine MoreScenarios.broken_libraries "localhost" "shop" "reader"
               "secret" "ODBC Driver 18 for SQL Server" true)).
Proof.
  split.
  - apply (proj1 (connect_keeps_the_engine
                    (MoreScenarios.libraries_for MoreScenarios.unreachable_engine)
                    MoreScenarios.sample_service)).
    reflexivity.
  - apply (proj2 (connect_keeps_the_engine MoreScenarios.broken_libraries
                    MoreScenarios.sample_service)
             (Exception "Can't load plugin: sqlalchemy.dialects:mssql")); reflexivity.
Defined.

Lemma schema_text_is_cached_witness :
  load_schema MoreScenarios.sample_service 20
  = Raise (Exception "Not connected to database. Call connect() first.")
  /\ exists loaded,
       load_schema (set_engine MoreScenarios.sample_service
                      (Some MoreScenarios.unreachable_engine)) 20
       = Return (get_schema_info MoreScenarios.unreachable_engine None 20, loaded)
       /\ engine loaded = Some MoreScenarios.unreachable_engine
       /\ get_schema_for_sql_generation loaded "How many products are there?"
          = Return (get_schema_info MoreScenarios.unreachable_engine None 20 ++ nl ++ nl
                    ++ "User Question: " ++ "How many products are there?" ++ nl)
       /\ forall msg, connect_error MoreScenarios.unreachable_engine = Some msg ->
            get_schema_for_sql_generation loaded "How many products are there?"
            = Return (("Error retrieving schema: " ++ msg) ++ nl ++ nl
                      ++ "User Question: " ++ "How many products are there?" ++ nl).
Proof.
  split.
  - apply (proj1 (schema_text_is_cached MoreScenarios.sample_service 20 EmptyString)).
    reflexivity.
  - apply (proj2 (proj2 (schema_text_is_cached
                           (set_engine MoreScenarios.sample_service
                              (Some MoreScenarios.unreachable_engine))
                           20 "How many products are there?"))).
    reflexivity.
Defined.

End ServiceFacts.

(* ===================================================================== *)
(** * Further facts about the tools of [tools.py] *)
(* ===================================================================== *)

Module ToolsExtraFacts.
Import Py Db DbConfig Tools.

(** X10.  [execute_sql_and_format] disposes the engine it created only
    when [execute_query] returns: then the disposal is the last step at
    the database.  When [execute_query] raises, the handler answers with
    the "Tool error: ..." envelope and the engine is left undisposed. *)
Theorem engine_is_disposed_only_on_return
    (execute_query : Engine -> string -> io QueryResult)
    (w : World) (engine : Engine) (sql_query : string) :
  all_set (credentials w) = true ->
  (forall cs, create_engine (lib w) cs = Return engine) ->
  exists cs,
    (forall result tr,
        execute_query engine sql_query = (Return result, tr) ->
        snd (execute_sql_and_format execute_query w sql_query)
        = (EvCreateEngine cs :: tr ++ [EvDispose])%list)
    /\ (forall e tr,
        execute_query engine sql_query = (Raise e, tr) ->
        is_Exception e = true ->
        execute_sql_and_format execute_query w sql_query
        = (Json.dumps None (envelope_dict (failure_envelope
                               (Some ("Tool error: " ++ exn_str e)))),
           EvCreateEngine cs :: tr)).
Proof.
  intros Hc Hcreate. unfold execute_sql_and_format. fold (credentials w). rewrite Hc.
  cbn [negb]. unfold create_db_engine, emit, io_lift, io_bind, io_try.
  match goal with |- context [create_engine (lib w) ?c] => exists c; rewrite (Hcreate c) end.
  split.
  - intros result tr Hq. rewrite Hq.
    change (if qr_success result then _ else _) with (response_of result).
    destruct (Json.dumps (Some 2) (envelope_dict (response_of result))) as [s|e] eqn:Hs.
    + cbn. by rewrite ?app_nil_r.
    + destruct (ToolsFacts.dumps_cases (Some 2) (envelope_dict (response_of result)))
        as [[s Hs']|[msg Hs']]; [congruence|].
      rewrite Hs' in Hs. injection Hs as <-. cbn [is_Exception Exception exn_str].
      destruct (ToolsFacts.failure_dumps None (Some ("Tool error: " ++ msg)))
        as (s & Hs2 & _).
      unfold failure_envelope in Hs2. rewrite Hs2. cbn. by rewrite ?app_nil_r.
  - intros e tr Hq He. rewrite Hq, He.
    destruct (ToolsFacts.failure_dumps None (Some ("Tool error: " ++ exn_str e)))
      as (s & Hs2 & _).
    rewrite Hs2. unfold failure_envelope in Hs2. rewrite Hs2. cbn. by rewrite ?app_nil_r.
Qed.

Lemma to_dict_records_no_rows df : df_rows df = [] -> to_dict_records df = [].
Proof. unfold to_dict_records. by intros ->. Qed.

(** The envelope of [execute_sql_and_format] is that of
    [execute_sql_query] but for a frame with rows and no column. *)
Lemma response_of_query_envelope
    (execute_query : Engine -> string -> io QueryResult)
    (engine : Engine) (sql_query : string) result tr :
  execute_query engine sql_query = (Return result, tr) ->
  match qr_data result with
  | Some df => df_columns df <> [] \/ df_rows df = []
  | None => True
  end ->
  execute_sql_query execute_query engine sql_query = (Return (response_of result), tr).
Proof.
  intros Hq Hdf. unfold execute_sql_query, io_bind. rewrite Hq. unfold response_of.
  destruct (qr_success result); cbn; rewrite ?app_nil_r; [|done].
  destruct (qr_data result) as [df|]; [|done].
  unfold df_empty. destruct Hdf as [Hcols|Hrows].
  - destruct (df_columns df); [done|]. destruct (df_rows df) eqn:Hr; [|done].
    by rewrite to_dict_records_no_rows.
  - rewrite Hrows, to_dict_records_no_rows by done. by destruct (df_columns df).
Qed.

(** X11.  The two tools agree: whenever [DatabaseTools.execute_sql_query]
    returns an envelope whose cells the encoder accepts, the text of
    [execute_sql_and_format] for the same statement on the same engine
    decodes to that envelope.  (A frame with rows and no column, which no
    [SELECT] produces, is the one case in which their [data] differ.) *)
Theorem tools_agree
    (execute_query : Engine -> string -> io QueryResult)
    (w : World) (engine : Engine) (sql_query : string) (result : QueryResult)
    (tr : list db_event) :
  all_set (credentials w) = true ->
  (forall cs, create_engine (lib w) cs = Return engine) ->
  execute_query engine sql_query = (Return result, tr) ->
  match qr_data result with
  | Some df => df_columns df <> [] \/ df_rows df = []
  | None => True
  end ->
  exists envelope,
    fst (execute_sql_query execute_query engine sql_query) = Return envelope
    /\ (Json.unserializable (envelope_dict envelope) = None ->
        exists s,
          fst (execute_sql_and_format execute_query w sql_query) = Return s
          /\ Json.loads s = Some (envelope_dict envelope)).
Proof.
  intros Hc Hcreate Hq Hdf. exists (response_of result).
  rewrite (response_of_query_envelope execute_query engine sql_query result tr Hq Hdf).
  split; [done|]. intros Hser.
  assert (Hs : exists s, Json.dumps (Some 2) (envelope_dict (response_of result)) = Return s).
  { unfold Json.dumps. rewrite Hser. eauto. }
  destruct Hs as [s Hs]. exists s. split.
  - unfold execute_sql_and_format. fold (credentials w). rewrite Hc. cbn [negb].
    unfold create_db_engine, emit, io_lift, io_bind, io_try.
    match goal with |- context [create_engine (lib w) ?c] => rewrite (Hcreate c) end.
    rewrite Hq.
    change (if qr_success result then _ else _) with (response_of result).
    by rewrite Hs.
  - eapply ToolsFacts.envelope_loads_dumps; [apply ToolsFacts.response_well_formed|done].
Qed.

(** X12.  [get_database_schema] always returns a text, provided
    [create_engine] raises nothing but exceptions that derive from
    [Exception]: without the four credentials it is the configuration
    message and no engine is created; when the engine cannot be created it
    is "Error retrieving schema: ..."; otherwise it is the text of
    [get_schema_info] with at most 100 tables, and the engine created is
    disposed. *)
Theorem get_database_schema_returns (w : World) :
  (forall cs e, create_engine (lib w) cs = Raise e -> is_Exception e = true) ->
  exists text tr,
    get_database_schema w = (Return text, tr)
    /\ (all_set (credentials w) = false ->
        text = "Error: Database credentials not configured in environment variables"
        /\ tr = [])
    /\ (all_set (credentials w) = true ->
        exists cs,
          (forall e, create_engine (lib w) cs = Raise e ->
                     text = "Error retrieving schema: " ++ exn_str e
                     /\ tr = [EvCreateEngine cs])
          /\ (forall engine, create_engine (lib w) cs = Return engine ->
                             text = get_schema_info engine None 100
                             /\ tr = [EvCreateEngine cs; EvDispose])).
Proof.
  intros Hexn. unfold get_database_schema. fold (credentials w).
  destruct (all_set (credentials w)) eqn:Hc; cbn [negb].
  2:{ eexists _, _. split; [reflexivity|]. split; [done|]. done. }
  unfold create_db_engine, emit, io_lift, io_bind, io_try, io_ret.
  match goal with |- context [create_engine (lib w) ?c] => set (cs := c) end.
  destruct (create_engine (lib w) cs) as [engine|e] eqn:Hce.
  - eexists _, _. split; [reflexivity|]. split; [done|]. intros _. exists cs.
    rewrite Hce. split; [done|]. by intros ? [= <-].
  - rewrite (Hexn cs e Hce). eexists _, _. split; [reflexivity|]. split; [done|].
    intros _. exists cs. rewrite Hce. split; [|done]. by intros ? [= <-].
Qed.

Lemma combine_keys_nodup {B} (cols : list string) (vals : list B) :
  NoDup cols -> NoDup (map fst (combine cols vals)).
Proof.
  revert vals. induction cols as [|c cols IH]; intros [|v vals] Hnd; cbn; try constructor.
  - apply NoDup_cons in Hnd as [Hc Hnd]. intros Hin. apply Hc.
    apply list_elem_of_fmap in Hin as ([k x] & -> & Hin).
    apply list_elem_of_In, in_combine_l in Hin. by apply list_elem_of_In.
  - apply IH. by apply NoDup_cons in Hnd as [_ ?].
Qed.

(** X23.  On success [execute_sql_query] gives one record per row of
    the frame, and when the column labels of the frame are distinct each
    record pairs the labels, in order, with the cells of its row; the
    column list and the row count are those of [execute_query], passed on
    as they are. *)
Theorem records_follow_the_frame
    (execute_query : Engine -> string -> io QueryResult)
    (engine : Engine) (sql_query : string) (result : QueryResult)
    (tr : list db_event) (df : DataFrame) :
  execute_query engine sql_query = (Return result, tr) ->
  qr_success result = true ->
  qr_data result = Some df ->
  exists envelope,
    execute_sql_query execute_query engine sql_query = (Return envelope, tr)
    /\ length (data envelope) = length (df_rows df)
    /\ (NoDup (df_columns df) ->
        data envelope
        = map (fun row => combine (df_columns df) (map cell_value row)) (df_rows df))
    /\ columns envelope = qr_columns result
    /\ row_count envelope = qr_row_count result
    /\ error envelope = None.
Proof.
  intros Hq Hok Hdf. unfold execute_sql_query, io_bind. rewrite Hq, Hok, Hdf.
  cbn. rewrite app_nil_r. eexists. split; [done|]. cbn.
  split; [unfold to_dict_records; by rewrite length_map|]. split; [|done].
  intros Hnd. unfold to_dict_records. apply map_ext. intros row.
  apply JsonFacts.of_pairs_nodup. by apply combine_keys_nodup.
Qed.

(** X24.  [create_db_engine] writes the values into the ODBC string as
    they are: a value that holds a semicolon is read as further
    attributes, so that different arguments can ask for the same
    connection. *)
Theorem odbc_values_are_not_quoted (lib : Libraries)
    (server database rest username password driver : string)
    (trust_server_certificate : bool) :
  create_db_engine lib (server ++ ";DATABASE=" ++ database) rest
    username password driver trust_server_certificate
  = create_db_engine lib server (database ++ ";DATABASE=" ++ rest)
      username password driver trust_server_certificate.
Proof.
  unfold create_db_engine.
  by rewrite !DbFacts.append_assoc.
Qed.

(** *** Instances *)

Lemma engine_is_disposed_only_on_return_witness :
  (exists cs,
     snd (execute_sql_and_format MoreScenarios.answering_execute_query
            Scenarios.sample_world "SELECT * FROM Products")
     = (EvCreateEngine cs :: [EvConnect; EvExecute "SELECT * FROM Products"]
        ++ [EvDispose])%list)
  /\ (exists cs,
        execute_sql_and_format MoreScenarios.failing_execute_query
          Scenarios.sample_world "SELECT * FROM Products"
        = (Json.dumps None (envelope_dict (failure_envelope
                               (Some "Tool error: connection reset"))),
           [EvCreateEngine cs; EvConnect])).
Proof.
  split.
  - destruct (engine_is_disposed_only_on_return MoreScenarios.answering_execute_query
                Scenarios.sample_world (Scenarios.sample_engine Scenarios.sample_products)
                "SELECT * FROM Products" eq_refl (fun _ => eq_refl)) as (cs & H & _).
    exists cs. exact (H _ _ eq_refl).
  - destruct (engine_is_disposed_only_on_return MoreScenarios.failing_execute_query
                Scenarios.sample_world (Scenarios.sample_engine Scenarios.sample_products)
                "SELECT * FROM Products" eq_refl (fun _ => eq_refl)) as (cs & _ & H).
    exists cs. exact (H _ _ eq_refl eq_refl).
Defined.

Lemma tools_agree_witness :
  exists envelope,
    fst (execute_sql_query MoreScenarios.answering_execute_query
           (Scenarios.sample_engine Scenarios.sample_products) "SELECT * FROM Products")
    = Return envelope
    /\ (Json.unserializable (envelope_dict envelope) = None ->
        exists s,
          fst (execute_sql_and_format MoreScenarios.answering_execute_query
                 Scenarios.sample_world "SELECT * FROM Products") = Return s
          /\ Json.loads s = Some (envelope_dict envelope)).
Proof.
  eapply (tools_agree MoreScenarios.answering_execute_query Scenarios.sample_world
            (Scenarios.sample_engine Scenarios.sample_products) "SELECT * FROM Products").
  - reflexivity.
  - intros cs. reflexivity.
  - reflexivity.
  - left. discriminate.
Defined.

Lemma get_database_schema_returns_witness :
  exists text tr,
    get_database_schema MoreScenarios.broken_world = (Return text, tr)
    /\ (all_set (credentials MoreScenarios.broken_world) = false ->
        text = "Error: Database credentials not configured in environment variables"
        /\ tr = [])
    /\ (all_set (credentials MoreScenarios.broken_world) = true ->
        exists cs,
          (forall e, create_engine (lib MoreScenarios.broken_world) cs = Raise e ->
                     text = "Error retrieving schema: " ++ exn_str e
                     /\ tr = [EvCreateEngine cs])
          /\ (forall engine,
                create_engine (lib MoreScenarios.broken_world) cs = Return engine ->
                text = get_schema_info engine None 100
                /\ tr = [EvCreateEngine cs; EvDispose])).
Proof.
  apply (get_database_schema_returns MoreScenarios.broken_world).
  intros cs e [= <-]. reflexivity.
Defined.

Lemma records_follow_the_frame_witness :
  exists envelope,
    execute_sql_query MoreScenarios.answering_execute_query
      (Scenarios.sample_engine Scenarios.sample_products) "SELECT * FROM Products"
    = (Return envelope, [EvConnect; EvExecute "SELECT * FROM Products"])
    /\ length (data envelope) = 2
    /\ (NoDup ["ProductID"; "Category"] ->
        data envelope
        = [[("ProductID", PInt 1); ("Category", PStr "Bikes")];
           [("ProductID", PInt 2); ("Category", PStr "Helmets")]])
    /\ columns envelope = ["ProductID"; "Category"]
    /\ row_count envelope = 2%Z
    /\ error envelope = None.
Proof.
  exact (records_follow_the_frame MoreScenarios.answering_execute_query
           (Scenarios.sample_engine Scenarios.sample_products) "SELECT * FROM Products"
           _ _ (Scenarios.products_frame Scenarios.sample_products)
           eq_refl eq_refl eq_refl).
Defined.

End ToolsExtraFacts.

(* ===================================================================== *)
(** * The text of the tools is plain ASCII *)
(* ===================================================================== *)

Module AsciiFacts.
Import Py Db DbConfig Tools Json Text.
Local Open Scope list_scope.

Lemma escape_char_plain c : forallb is_plain (escape_char c) = true.
Proof. destruct c as [[] [] [] [] [] [] [] []]; reflexivity. Qed.

Lemma forallb_app_true {A} (p : A -> bool) (l1 l2 : list A) :
  forallb p l1 = true -> forallb p l2 = true -> forallb p (l1 ++ l2) = true.
Proof. intros H1 H2. by rewrite forallb_app, H1, H2. Qed.

Lemma encode_string_plain s : forallb is_plain (encode_string s) = true.
Proof.
  unfold encode_string, encode_chars. cbn [forallb]. apply forallb_app_true; [|done].
  induction (list_ascii_of_string s) as [|c l IH]; [done|].
  cbn [flat_map]. apply forallb_app_true; [apply escape_char_plain|done].
Qed.

Lemma uint_digits_plain d : forallb is_plain (list_ascii_of_string (uint_digits d)) = true.
Proof. induction d; cbn; done. Qed.

Lemma str_int_plain z : forallb is_plain (list_ascii_of_string (str_int z)) = true.
Proof. destruct z; cbn [str_int]; [done|apply uint_digits_plain|]. cbn. apply uint_digits_plain. Qed.

Lemma floatstr_plain f : forallb is_plain (list_ascii_of_string (floatstr f)) = true.
Proof.
  assert (Hsign : forall negative : bool,
            forallb is_plain (list_ascii_of_string (if negative then "-"%string else EmptyString))
            = true) by (by intros []).
  assert (Hexp : forall e, forallb is_plain (list_ascii_of_string (exponent_text e)) = true).
  { intros e. unfold exponent_text. cbn [list_ascii_of_string forallb].
    change (is_plain "e") with true. cbn [andb].
    replace (is_plain (if (e <? 0)%Z then "-"%char else "+"%char)) with true
      by (by destruct (e <? 0)%Z).
    cbn [andb]. destruct (Z.abs e <? 10)%Z; [|apply uint_digits_plain].
    cbn [list_ascii_of_string forallb]. apply uint_digits_plain. }
  destruct f as [|[]|negative whole tenths digits|negative whole fraction e];
    try reflexivity.
  - rewrite JsonFacts.floatstr_fixed.
    apply forallb_app_true; [apply Hsign|].
    apply forallb_app_true; [apply uint_digits_plain|].
    cbn [forallb]. change (is_plain ".") with true. cbn [andb]. apply uint_digits_plain.
  - rewrite JsonFacts.floatstr_sci.
    apply forallb_app_true; [apply Hsign|].
    apply forallb_app_true; [apply uint_digits_plain|].
    apply forallb_app_true; [|apply Hexp].
    destruct fraction; try reflexivity;
      cbn [forallb]; change (is_plain ".") with true; cbn [andb];
      apply uint_digits_plain.
Qed.

Lemma newline_indent_plain indent level :
  forallb is_plain (newline_indent indent level) = true.
Proof.
  destruct indent as [n|]; [|done]. cbn. induction (n * level); [done|]. cbn. done.
Qed.

Lemma item_separator_plain indent level :
  forallb is_plain (item_separator indent level) = true.
Proof.
  destruct indent as [n|]; [|done]. cbn [item_separator forallb].
  by rewrite newline_indent_plain.
Qed.

Lemma join_plain sep items :
  forallb is_plain sep = true ->
  Forall (fun x => forallb is_plain x = true) items ->
  forallb is_plain (join sep items) = true.
Proof.
  intros Hsep. induction 1 as [|x items Hx Hitems IH]; [done|].
  cbn [join]. destruct items as [|y items]; [done|].
  apply forallb_app_true; [done|]. apply forallb_app_true; [done|]. exact IH.
Qed.

Lemma encode_plain (v : pyval) :
  forall indent level, forallb is_plain (encode indent level v) = true.
Proof.
  revert v. fix encode_plain 1.
  intros v indent level. destruct v as [|[]|z|f|s|l|d|cls]; try reflexivity.
  - apply str_int_plain.
  - apply floatstr_plain.
  - apply encode_string_plain.
  - destruct l as [|x l]; [reflexivity|].
    cbn [encode forallb]. change (is_plain "[") with true. cbn [andb].
    apply forallb_app_true; [apply newline_indent_plain|].
    apply forallb_app_true; [|apply forallb_app_true; [apply newline_indent_plain|done]].
    apply join_plain; [apply item_separator_plain|].
    apply Forall_fmap. generalize (x :: l). intros l'.
    induction l' as [|y l' IH]; constructor; [apply encode_plain|exact IH].
  - destruct d as [|kv d]; [reflexivity|].
    cbn [encode forallb]. change (is_plain "{") with true. cbn [andb].
    apply forallb_app_true; [apply newline_indent_plain|].
    apply forallb_app_true; [|apply forallb_app_true; [apply newline_indent_plain|done]].
    apply join_plain; [apply item_separator_plain|].
    apply Forall_fmap. generalize (kv :: d). intros d'.
    induction d' as [|[k y] d' IH]; constructor; [|exact IH].
    cbn [compose]. apply forallb_app_true; [apply encode_string_plain|].
    cbn [key_separator app forallb]. change (is_plain ":") with true.
    change (is_plain " ") with true. cbn [andb]. apply encode_plain.
Qed.

Lemma dumps_plain indent v s : dumps indent v = Return s -> all_plain s = true.
Proof.
  unfold dumps, all_plain. destruct (unserializable v); [done|]. intros [= <-].
  rewrite list_ascii_of_string_of_list_ascii. apply encode_plain.
Qed.

(** X26.  Whatever the rows hold, the text [execute_sql_and_format]
    returns is plain ASCII: printable characters and newlines only, every
    other character of a cell, a column label or an error message being
    written as an escape. *)
Theorem tool_output_is_plain_ascii
    (execute_query : Engine -> string -> io QueryResult)
    (w : World) (sql_query s : string) :
  fst (execute_sql_and_format execute_query w sql_query) = Return s ->
  all_plain s = true.
Proof.
  intros Hs.
  destruct (ToolsFacts.execute_sql_and_format_cases execute_query w sql_query)
    as [[_ H]|[[_ [msg H]]|[[_ (cs & engine & result & tr & s' & _ & _ & Hd & H)]|(e & H & _)]]].
  - rewrite H in Hs. cbn [fst] in Hs. by eapply dumps_plain.
  - rewrite H in Hs. by eapply dumps_plain.
  - rewrite H in Hs. cbn [fst] in Hs. injection Hs as <-. by eapply dumps_plain.
  - congruence.
Qed.

Lemma tool_output_is_plain_ascii_witness :
  all_plain
    (match fst (execute_sql_and_format MoreScenarios.answering_execute_query
                  Scenarios.sample_world "SELECT * FROM Products") with
     | Return s => s
     | Raise _ => EmptyString
     end) = true.
Proof.
  apply (tool_output_is_plain_ascii MoreScenarios.answering_execute_query
           Scenarios.sample_world "SELECT * FROM Products").
  vm_compute. reflexivity.
Defined.

End AsciiFacts.

(* ===================================================================== *)
(** * Markdown fences *)
(* ===================================================================== *)

Module FenceFacts.
Import Py.

(** *** Substrings *)

Lemma app_cons c (s t : string) : String c s ++ t = String c (s ++ t).
Proof. reflexivity. Qed.

Lemma app_nil (t : string) : EmptyString ++ t = t.
Proof. reflexivity. Qed.

Lemma startswith_nil s : startswith s EmptyString = true.
Proof. by destruct s. Qed.

Lemma startswith_app_l a b p : startswith a p = true -> startswith (a ++ b) p = true.
Proof.
  revert a. induction p as [|c p IH]; intros a H; [apply startswith_nil|].
  destruct a as [|x a]; [done|]. rewrite app_cons. cbn [startswith] in *.
  apply andb_prop in H as [-> H]. by rewrite IH.
Qed.

Lemma startswith_trans s p q :
  startswith s p = true -> startswith p q = true -> startswith s q = true.
Proof.
  revert s p. induction q as [|c q IH]; intros s p Hs Hp; [apply startswith_nil|].
  destruct p as [|x p]; [done|]. destruct s as [|y s]; [done|].
  cbn [startswith] in *. apply andb_prop in Hs as [Hxy Hs], Hp as [Hcx Hp].
  apply Ascii.eqb_eq in Hxy, Hcx. subst. rewrite Ascii.eqb_refl. by rewrite (IH s p).
Qed.

Lemma contains_cons c s p :
  contains (String c s) p = startswith (String c s) p || contains s p.
Proof. reflexivity. Qed.

Lemma contains_startswith s p : contains s p = false -> startswith s p = false.
Proof. destruct s; cbn [contains]; by intros [? _]%orb_false_elim. Qed.

Lemma contains_app_l a b p : contains (a ++ b) p = false -> contains a p = false.
Proof.
  induction a as [|c a IH]; intros H.
  - rewrite app_nil in H. apply contains_startswith in H.
    destruct p as [|x p]; [by rewrite startswith_nil in H|done].
  - rewrite app_cons, contains_cons in H. apply orb_false_elim in H as [H1 H2].
    rewrite contains_cons, (IH H2), orb_false_r.
    destruct (startswith (String c a) p) eqn:E; [|done].
    by rewrite <- app_cons, (startswith_app_l _ b p E) in H1.
Qed.

Lemma contains_lstrip s p : contains s p = false -> contains (lstrip s) p = false.
Proof.
  induction s as [|c s IH]; [done|]. intros H. cbn [lstrip].
  destruct (isspace c); [|done]. apply IH.
  rewrite contains_cons in H. by apply orb_false_elim in H as [_ ?].
Qed.

Lemma rstrip_prefix s : exists t, s = rstrip s ++ t.
Proof.
  induction s as [|c s [t IH]]; [by exists EmptyString|]. cbn [rstrip].
  destruct (rstrip s) as [|x r] eqn:E.
  - destruct (isspace c); [by exists (String c s)|]. by exists s.
  - exists t. rewrite app_cons. by rewrite <- IH.
Qed.

Lemma contains_rstrip s p : contains s p = false -> contains (rstrip s) p = false.
Proof.
  intros H. destruct (rstrip_prefix s) as [t Ht]. rewrite Ht in H.
  by apply contains_app_l in H.
Qed.

Lemma contains_strip s p : contains s p = false -> contains (strip s) p = false.
Proof. intros H. unfold strip. by apply contains_rstrip, contains_lstrip. Qed.

(** *** Removing the fences *)

Lemma remove_elsewhere c s :
  startswith (String c s) "```" = false ->
  replace_from 0 "```" EmptyString (String c s)
  = String c (replace_from 0 "```" EmptyString s).
Proof. intros H. cbn [replace_from]. by rewrite H. Qed.

Lemma remove_at_fence t :
  replace_from 0 "```" EmptyString ("```" ++ t) = replace_from 0 "```" EmptyString t.
Proof.
  change ("```" ++ t) with (String "`" (String "`" (String "`" t))).
  cbn [replace_from]. cbn [startswith]. rewrite startswith_nil.
  replace (Ascii.eqb "`" "`") with true by done. cbn [andb].
  change (String.length "```" - 1) with 2. cbn [replace_from].
  destruct t; reflexivity.
Qed.

Lemma starts_with_fence s : startswith s "```" = true -> exists t, s = "```" ++ t.
Proof.
  destruct s as [|a [|b [|c t]]]; cbn [startswith]; rewrite ?andb_false_r; try done.
  rewrite startswith_nil, andb_true_r.
  intros [Ha [Hb Hc]%andb_prop]%andb_prop.
  apply Ascii.eqb_eq in Ha, Hb, Hc. subst. by exists t.
Qed.

Lemma tick_or_not (c : ascii) : c = "`"%char \/ Ascii.eqb "`" c = false.
Proof. destruct (Ascii.eqb_spec "`" c); auto. Qed.

(** After the removal, no two backticks open a text that did not open
    with two. *)
Lemma unfenced_two_ticks s :
  startswith s "``" = false ->
  startswith (replace_from 0 "```" EmptyString s) "``" = false.
Proof.
  destruct s as [|a s]; [done|].
  destruct (tick_or_not a) as [->|Ha].
  2:{ intros _. rewrite remove_elsewhere by (cbn [startswith]; by rewrite Ha).
      cbn [startswith]. by rewrite Ha. }
  destruct s as [|b s]; [done|].
  destruct (tick_or_not b) as [->|Hb].
  { cbn [startswith]. by rewrite startswith_nil. }
  intros _.
  rewrite remove_elsewhere by (cbn [startswith]; by rewrite Hb, andb_false_r).
  cbn [startswith]. replace (Ascii.eqb "`" "`") with true by done. cbn [andb].
  rewrite remove_elsewhere by (cbn [startswith]; by rewrite Hb).
  cbn [startswith]. by rewrite Hb.
Qed.

Lemma unfenced_has_no_fence_upto n : forall s,
  String.length s <= n ->
  contains (replace_from 0 "```" EmptyString s) "```" = false.
Proof.
  induction n as [|n IH]; intros s Hn.
  - destruct s; [done|cbn in Hn; lia].
  - destruct s as [|a s]; [done|].
    destruct (startswith (String a s) "```") eqn:Hf.
    + apply starts_with_fence in Hf as [t Ht]. rewrite Ht, remove_at_fence. apply IH.
      apply (f_equal String.length) in Ht.
      change (String.length ("```" ++ t)) with (3 + String.length t) in Ht.
      cbn in Ht, Hn. lia.
    + rewrite remove_elsewhere by done. rewrite contains_cons.
      rewrite IH by (cbn in Hn; lia). rewrite orb_false_r.
      cbn [startswith]. destruct (tick_or_not a) as [->|Ha]; [|by rewrite Ha].
      replace (Ascii.eqb "`" "`") with true by done. cbn [andb].
      apply unfenced_two_ticks. cbn [startswith] in Hf. done.
Qed.

Lemma replace_has_no_fence s : contains (replace s "```" EmptyString) "```" = false.
Proof. unfold replace. by apply (unfenced_has_no_fence_upto (String.length s)). Qed.

(** What the cleaning of a query or of chart code leaves holds no fence. *)
Lemma cleaned_has_no_fence s :
  contains (strip (replace s "```" EmptyString)) "```" = false.
Proof. apply contains_strip, replace_has_no_fence. Qed.

End FenceFacts.

(* ===================================================================== *)
(** * Further facts about the retry loop of [evaluate_sql.py] *)
(* ===================================================================== *)

Module RetryFacts.
Import Py EvaluateSql.

(** What the loop keeps true, whatever the turns meet: each rate-limit
    failure uses one of the remaining turns and adds one wait, and there
    is at most one more call than there were waits. *)
Lemma retry_loop_invariant model remaining : forall st st',
  retry_loop model remaining st = Return st' ->
  exists k,
    k <= remaining
    /\ retry_count st' = retry_count st + k
    /\ waits st'
       = (waits st ++ map (fun i => (Z.of_nat (retry_count st + i) * 20)%Z) (seq 1 k))%list
    /\ calls st' <= calls st + remaining
    /\ calls st' <= calls st + k + 1.
Proof.
  induction remaining as [|remaining IH]; intros st st' H.
  - cbn in H. injection H as <-. exists 0. cbn. rewrite app_nil_r. repeat split; lia.
  - cbn [retry_loop] in H.
    destruct (model (calls st)) as [e|events e|events].
    3:{ injection H as <-. exists 0. cbn [retry_count waits calls seq map].
        rewrite app_nil_r. repeat split; lia. }
    all: destruct (is_Exception e); [|done]; cbn [negb] in H.
    all: destruct (is_rate_limit e);
      [|injection H as <-; exists 0; cbn [retry_count waits calls seq map];
        rewrite app_nil_r; repeat split; lia].
    all: apply IH in H as (k & Hk & Hrc & Hwt & Hc1 & Hc2).
    all: cbn [retry_count waits calls] in *; exists (S k).
    all: split; [lia|]; split; [lia|]; split; [|lia].
    all: rewrite Hwt, <- app_assoc; f_equal; cbn [seq map app].
    all: f_equal; [f_equal; lia|]; rewrite <- (seq_shift k 1), map_map.
    all: apply map_ext; intros i; f_equal; lia.
Qed.

(** X13.  Whatever the agent does, the generation step of a case makes
    at most three calls and sleeps at most 20 + 40 + 60 seconds: the
    waits are 20, 40, ... seconds, one per rate-limit failure, and only
    the last call can go without a wait. *)
Theorem retries_are_bounded (model : nat -> attempt) (previous : option string)
    (outcome : generation) (st : loop_state) :
  generate model previous = Return (outcome, st) ->
  retry_count st <= 3
  /\ calls st <= 3
  /\ calls st <= retry_count st + 1
  /\ waits st = backoff (retry_count st)
  /\ (foldr Z.add 0 (waits st) <= 120)%Z.
Proof.
  unfold generate. intros H.
  destruct (retry_loop model max_retries _) as [st0|e] eqn:Hloop; [|done].
  apply retry_loop_invariant in Hloop as (k & Hk & Hrc & Hw & Hc1 & Hc2).
  cbn [retry_count waits calls app Nat.add] in *.
  cbn [mbind result_bind bind] in H.
  destruct (generated_sql st0); [|done]. injection H as _ <-.
  unfold max_retries in *. rewrite Hrc. fold (backoff k) in Hw.
  split; [lia|]. split; [lia|]. split; [lia|]. split; [done|].
  rewrite Hw. destruct k as [|[|[|[|k]]]]; cbn; lia.
Qed.

(** X14.  An error that is not a rate limit is not retried: the loop
    ends at once, without a wait, and the case goes on with no query, even
    when the run had already produced one. *)
Theorem other_errors_are_not_retried (model : nat -> attempt)
    (previous : option string) (k : nat) (e : exn) :
  k < max_retries ->
  (forall i, i < k -> rate_limited (model i)) ->
  (model k = SessionRaises e \/ exists events, model k = RunRaises events e) ->
  is_Exception e = true ->
  is_rate_limit e = false ->
  generate model previous
  = Return (NoSql, {| retry_count := k; generated_sql := Some EmptyString;
                      waits := backoff k; calls := S k |}).
Proof.
  intros Hk Hfail Hmodel He Hrate. unfold generate.
  replace max_retries with (k + (max_retries - k)) by lia.
  rewrite EvaluateFacts.retry_loop_failures by (intros i Hi; by apply Hfail).
  cbn [retry_count generated_sql waits calls Nat.add app]. fold (backoff k).
  destruct (max_retries - k) as [|r] eqn:Hr; [lia|].
  cbn [retry_loop calls].
  destruct Hmodel as [->|[events ->]]; rewrite He, Hrate; reflexivity.
Qed.

(** X15.  The cleaning of the generated query: the case is skipped only
    when the agent's text is empty, the test being made before the
    cleaning, so that a text of fences and white space goes on as an
    empty query; and the query that goes on holds no Markdown fence. *)
Theorem cleaned_query_has_no_fence (generated_sql : string) :
  (finish generated_sql = NoSql <-> generated_sql = EmptyString)
  /\ (forall q, finish generated_sql = GeneratedSql q -> contains q "```" = false).
Proof.
  unfold finish. split.
  - destruct generated_sql; cbn; split; done.
  - intros q. destruct (negb _); [done|]. intros [= <-].
    apply FenceFacts.cleaned_has_no_fence.
Qed.

(** X16.  The variable [generated_sql] outlives a case: when every turn
    of a case fails with a rate limit while the session is being created,
    the loop never assigns it, and the case goes on with the query of the
    previous case; on the first case the test of the unbound variable
    raises. *)
Theorem stale_query_is_reused (model : nat -> attempt) (previous : option string) :
  (forall i, i < max_retries ->
     exists e, model i = SessionRaises e /\ is_Exception e = true
               /\ is_rate_limit e = true) ->
  match previous with
  | Some sql =>
      generate model previous
      = Return (finish sql, {| retry_count := 3; generated_sql := Some sql;
                               waits := [20; 40; 60]%Z; calls := 3 |})
  | None => exists e, generate model previous = Raise e /\ is_Exception e = true
  end.
Proof.
  intros H. unfold generate, max_retries in *.
  destruct (H 0 ltac:(lia)) as (e0 & H0 & He0 & Hr0).
  destruct (H 1 ltac:(lia)) as (e1 & H1 & He1 & Hr1).
  destruct (H 2 ltac:(lia)) as (e2 & H2 & He2 & Hr2).
  cbn [retry_loop calls retry_count waits generated_sql].
  rewrite H0, He0, Hr0. cbn [negb calls retry_count waits generated_sql].
  rewrite H1, He1, Hr1. cbn [negb calls retry_count waits generated_sql].
  rewrite H2, He2, Hr2. cbn [negb calls retry_count waits generated_sql app].
  cbn [mbind result_bind bind generated_sql].
  destruct previous; [done|]. by eexists.
Qed.

(** *** Instances *)

Lemma retries_are_bounded_witness :
  let st := {| retry_count := 2; generated_sql := Some "SELECT 1";
               waits := [20; 40]%Z; calls := 3 |} in
  retry_count st <= 3
  /\ calls st <= 3
  /\ calls st <= retry_count st + 1
  /\ waits st = backoff (retry_count st)
  /\ (foldr Z.add 0 (waits st) <= 120)%Z.
Proof.
  apply (retries_are_bounded (Scenarios.failures_then_success 2) None
           (GeneratedSql "SELECT 1")).
  reflexivity.
Defined.

Lemma first_turn_is_rate_limited i :
  i < 1 -> rate_limited (MoreScenarios.rate_limit_then_error i).
Proof. intros Hi. destruct i; [|lia]. eexists; repeat split; reflexivity. Qed.

Lemma other_errors_are_not_retried_witness :
  generate MoreScenarios.rate_limit_then_error None
  = Return (NoSql, {| retry_count := 1; generated_sql := Some EmptyString;
                      waits := backoff 1; calls := 2 |}).
Proof.
  apply (other_errors_are_not_retried MoreScenarios.rate_limit_then_error None 1
           (Exception "500 INTERNAL")).
  - unfold max_retries. lia.
  - exact first_turn_is_rate_limited.
  - right. eexists. reflexivity.
  - reflexivity.
  - reflexivity.
Defined.

Lemma cleaned_query_has_no_fence_witness :
  contains "SELECT 1" "```" = false
  /\ finish ("```sql" ++ Db.nl ++ "```") = GeneratedSql EmptyString.
Proof.
  split; [|reflexivity].
  apply (proj2 (cleaned_query_has_no_fence ("```sql" ++ Db.nl ++ "SELECT 1" ++ Db.nl ++ "```"))
           "SELECT 1").
  reflexivity.
Defined.

Lemma stale_query_is_reused_witness :
  generate MoreScenarios.no_session (Some "SELECT COUNT(*) FROM Orders")
  = Return (finish "SELECT COUNT(*) FROM Orders",
            {| retry_count := 3; generated_sql := Some "SELECT COUNT(*) FROM Orders";
               waits := [20; 40; 60]%Z; calls := 3 |}).
Proof.
  apply (stale_query_is_reused MoreScenarios.no_session
           (Some "SELECT COUNT(*) FROM Orders")).
  intros i _. eexists. repeat split; reflexivity.
Defined.

End RetryFacts.

(* ===================================================================== *)
(** * Further facts about the presentation adapter of [app.py] *)
(* ===================================================================== *)

Module AppExtraFacts.
Import Py Db App.

(** X17.  The removal of a Markdown fence around the query or the chart
    code: what it returns never opens with a fence; when the text opened
    with one, no fence is left anywhere in it; and removing twice is
    removing once. *)
Theorem unfence_removes_the_fence (tag s : string) :
  startswith (unfence tag s) "```" = false
  /\ (startswith s "```" = true -> contains (unfence tag s) "```" = false)
  /\ (startswith tag "```" = true -> unfence tag (unfence tag s) = unfence tag s).
Proof.
  assert (Hclean : forall x,
            startswith tag "```" = true ->
            contains x "```" = false -> unfence tag x = x).
  { intros x Htag Hx. unfold unfence.
    destruct (startswith x tag) eqn:E1.
    - apply FenceFacts.contains_startswith in Hx.
      by rewrite (FenceFacts.startswith_trans x tag "```" E1 Htag) in Hx.
    - by rewrite (FenceFacts.contains_startswith _ _ Hx). }
  destruct (startswith s tag) eqn:E1.
  { assert (Hu : unfence tag s
                 = strip (replace (replace s tag EmptyString) "```" EmptyString))
      by (unfold unfence; by rewrite E1).
    rewrite !Hu.
    pose proof (FenceFacts.cleaned_has_no_fence (replace s tag EmptyString)) as H.
    split; [by apply FenceFacts.contains_startswith|]. split; [done|].
    intros Htag. by apply Hclean. }
  destruct (startswith s "```") eqn:E2.
  { assert (Hu : unfence tag s = strip (replace s "```" EmptyString))
      by (unfold unfence; by rewrite E1, E2).
    rewrite !Hu.
    pose proof (FenceFacts.cleaned_has_no_fence s) as H.
    split; [by apply FenceFacts.contains_startswith|]. split; [done|].
    intros Htag. by apply Hclean. }
  assert (Hu : unfence tag s = s) by (unfold unfence; by rewrite E1, E2).
  rewrite !Hu. split; [done|]. split; [done|]. by intros _.
Qed.

Lemma lstrip_blank s :
  forallb isspace (list_ascii_of_string s) = true -> lstrip s = EmptyString.
Proof.
  induction s as [|c s IH]; [done|]. cbn [list_ascii_of_string forallb lstrip].
  intros [-> H]%andb_prop. by apply IH.
Qed.

(** X18.  A question that is empty or made of white space only is
    answered at once with the two fixed messages, whatever the pipeline
    would do. *)
Theorem blank_question_is_refused (rt : Runtime) (message : string) :
  forallb isspace (list_ascii_of_string message) = true ->
  process_request_async rt message
  = Return ("Error: Please enter a question", None, None,
            PStr "Error: No question provided").
Proof.
  intros H. unfold process_request_async, strip. by rewrite (lstrip_blank _ H).
Qed.

Lemma lookup_get {V} (k : string) (default : V) d :
  lookup k d = None -> get k default d = default.
Proof. unfold get. by intros ->. Qed.

(** X19.  A run whose query results do not say [success] is reported as
    a failed query: the query text is shown under the comment "-- Error
    executing query" with the error below it, and there is no table and no
    chart.  Keys that are missing count as failure: results without the key
    [error] give "Unknown error", and a pipeline state without the key
    [query_results] at all is read as the empty object and reported the
    same way. *)
Theorem failed_query_is_reported (rt : Runtime) (message : string)
    (results : dict) (raw_sql : string) :
  truthy (PStr (strip message)) = true ->
  run_bi_pipeline_async rt message = Return results ->
  get "sql_query" (PStr EmptyString) results = PStr raw_sql ->
  let sql_query := unfence "```sql" (strip raw_sql) in
  let report (error_msg : string) : response :=
    ("-- Error executing query" ++ nl ++ sql_query ++ nl ++ nl
     ++ "-- Error: " ++ error_msg,
     None, None, PStr ("Error executing query: " ++ error_msg)) in
  (forall query_results,
      loads_if_str rt (get "query_results" (PStr "{}") results)
      = Return (PDict query_results) ->
      truthy (get "success" (PBool false) query_results) = false ->
      process_request_async rt message
      = Return (report (format rt (get "error" (PStr "Unknown error") query_results))))
  /\ (lookup "query_results" results = None ->
      json_loads rt "{}" = Return (PDict []) ->
      process_request_async rt message = Return (report "Unknown error")).
Proof.
  intros Hmsg Hrun Hsql sql_query report.
  assert (Hfail : forall query_results,
      loads_if_str rt (get "query_results" (PStr "{}") results)
      = Return (PDict query_results) ->
      truthy (get "success" (PBool false) query_results) = false ->
      process_request_async rt message
      = Return (report (format rt (get "error" (PStr "Unknown error") query_results)))).
  { intros query_results Hq Hok. unfold process_request_async.
    unfold mbind, result_bind. rewrite Hmsg, Hrun. cbn [negb bind]. rewrite Hsql.
    cbn [method_strip bind]. fold sql_query. rewrite Hq.
    cbn [try_except_all bind method_get]. rewrite Hok. reflexivity. }
  split; [exact Hfail|]. intros Hnone Hloads.
  apply (Hfail []); [|done].
  rewrite (lookup_get _ _ _ Hnone). exact Hloads.
Qed.

(** X20.  A successful query without rows is answered with the query
    text, an empty table, no chart and the fixed sentence: the chart code
    and the explanation of the pipeline are not used. *)
Theorem empty_result_skips_the_chart (rt : Runtime) (message : string)
    (results query_results : dict) (raw_sql : string) :
  truthy (PStr (strip message)) = true ->
  run_bi_pipeline_async rt message = Return results ->
  get "sql_query" (PStr EmptyString) results = PStr raw_sql ->
  loads_if_str rt (get "query_results" (PStr "{}") results)
  = Return (PDict query_results) ->
  truthy (get "success" (PBool false) query_results) = true ->
  truthy (get "data" (PList []) query_results) = false ->
  process_request_async rt message
  = Return (unfence "```sql" (strip raw_sql), Some empty_frame, None,
            PStr "The query executed successfully but returned no data.").
Proof.
  intros Hmsg Hrun Hsql Hq Hok Hdata. unfold process_request_async.
  unfold mbind, result_bind. rewrite Hmsg, Hrun. cbn [negb bind]. rewrite Hsql.
  cbn [method_strip bind]. rewrite Hq.
  cbn [try_except_all bind method_get]. rewrite Hok. cbn [negb]. by rewrite Hdata.
Qed.

(** [process_request_async] lets no exception that derives from
    [Exception] out. *)
Lemma process_request_async_raises rt message e :
  process_request_async rt message = Raise e -> is_Exception e = false.
Proof.
  unfold process_request_async, try_except_Exception.
  destruct (if negb _ then _ else _) as [r|x]; [done|].
  destruct (is_Exception x) eqn:Hx; [done|]. by intros [= <-].
Qed.

(** X21.  Any other failure takes the whole response: when the pipeline
    raises, or when the decoded query results are not an object, the
    answer is the text "Error: ..." in the query panel and in the
    explanation panel, with no table and no chart, and the generated query
    is not shown.  The synchronous wrapper [process_request] adds nothing
    to this: it returns what the coroutine returns. *)
Theorem other_failures_take_the_response (rt : Runtime) (message : string) :
  truthy (PStr (strip message)) = true ->
  let failed (text : string) : result response :=
    Return ("Error: " ++ text, None, None, PStr ("Error: " ++ text)) in
  (forall e, run_bi_pipeline_async rt message = Raise e -> is_Exception e = true ->
             process_request_async rt message = failed (exn_str e))
  /\ (forall results raw_sql decoded,
        run_bi_pipeline_async rt message = Return results ->
        get "sql_query" (PStr EmptyString) results = PStr raw_sql ->
        loads_if_str rt (get "query_results" (PStr "{}") results) = Return decoded ->
        (forall d, decoded <> PDict d) ->
        process_request_async rt message
        = failed ("'" ++ type_name decoded ++ "' object has no attribute 'get'"))
  /\ AppEntry.process_request rt message = process_request_async rt message.
Proof.
  intros Hmsg failed. split; [|split].
  - intros e Hrun He. unfold process_request_async. unfold mbind, result_bind.
    rewrite Hmsg, Hrun. cbn [negb bind try_except_Exception]. by rewrite He.
  - intros results raw_sql decoded Hrun Hsql Hq Hnot.
    unfold process_request_async. unfold mbind, result_bind.
    rewrite Hmsg, Hrun. cbn [negb bind]. rewrite Hsql.
    cbn [method_strip bind]. rewrite Hq. cbn [try_except_all bind].
    destruct decoded; try reflexivity. by destruct (Hnot d).
  - unfold AppEntry.process_request.
    destruct (process_request_async rt message) as [r|e] eqn:H; [done|].
    cbn [try_except_Exception]. by rewrite (process_request_async_raises _ _ _ H).
Qed.

(** X25.  A run that succeeds shows the query without its fence, the
    explanation as the pipeline gave it, and, after the chart code has
    run, the table as that code left it together with the object the code
    bound to the name [chart]: code that binds no such name gives no chart
    and no error, and code that changes [df] changes the table shown.  An
    empty chart specification runs no code. *)
Theorem successful_run_shows_the_frame_of_the_chart_code (rt : Runtime)
    (message : string) (results query_results : dict) (raw_sql chart_spec : string)
    (df : DataFrame) :
  truthy (PStr (strip message)) = true ->
  run_bi_pipeline_async rt message = Return results ->
  get "sql_query" (PStr EmptyString) results = PStr raw_sql ->
  loads_if_str rt (get "query_results" (PStr "{}") results)
  = Return (PDict query_results) ->
  truthy (get "success" (PBool false) query_results) = true ->
  truthy (get "data" (PList []) query_results) = true ->
  pd_DataFrame rt (get "data" (PList []) query_results) = Return df ->
  get "chart_spec" (PStr EmptyString) results = PStr chart_spec ->
  let sql_query := unfence "```sql" (strip raw_sql) in
  let explanation_text := get "explanation_text" (PStr EmptyString) results in
  (chart_spec = EmptyString ->
   process_request_async rt message = Return (sql_query, Some df, None, explanation_text))
  /\ (chart_spec <> EmptyString ->
      forall chart df',
        exec rt (unfence "```python" (strip chart_spec)) df = ExecReturns chart df' ->
        process_request_async rt message
        = Return (sql_query, Some df', chart, explanation_text)).
Proof.
  intros Hmsg Hrun Hsql Hq Hok Hdata Hdf Hspec sql_query explanation_text.
  assert (Hgo : process_request_async rt message
                = '(chart, df) ← chart_block rt (PStr chart_spec) df;
                  Return (sql_query, Some df, chart, explanation_text)).
  { unfold process_request_async. unfold mbind, result_bind.
    rewrite Hmsg, Hrun. cbn [negb bind]. rewrite Hsql.
    cbn [method_strip bind]. fold sql_query. rewrite Hq.
    cbn [try_except_all bind method_get]. rewrite Hok. cbn [negb].
    rewrite Hdata. cbn [negb]. rewrite Hdf. cbn [bind]. rewrite Hspec.
    fold explanation_text.
    destruct (chart_block rt (PStr chart_spec) df) as [[chart df']|e] eqn:Hblock;
      cbn [bind try_except_Exception].
    - reflexivity.
    - unfold chart_block in Hblock. cbn [truthy method_strip] in Hblock.
      destruct (negb (String.eqb chart_spec EmptyString)); [|done].
      destruct (exec rt _ df) as [c d|x d]; [done|].
      destruct (is_Exception x) eqn:Hx; [done|]. injection Hblock as <-.
      by rewrite Hx. }
  rewrite Hgo. unfold chart_block, mbind, result_bind. cbn [truthy method_strip]. split.
  - intros ->. reflexivity.
  - intros Hne chart df' Hexec.
    destruct (String.eqb_spec chart_spec EmptyString) as [|_]; [done|].
    cbn [negb]. by rewrite Hexec.
Qed.

(** *** Instances *)

Lemma unfence_removes_the_fence_witness :
  unfence "```sql" ("```sql" ++ nl ++ "SELECT 1" ++ nl ++ "```") = "SELECT 1"
  /\ contains (unfence "```sql" ("```sql" ++ nl ++ "SELECT 1" ++ nl ++ "```")) "```" = false
  /\ unfence "```sql" (unfence "```sql" ("``` SELECT 1 ```"))
     = unfence "```sql" ("``` SELECT 1 ```").
Proof.
  split; [reflexivity|]. split.
  - apply (proj1 (proj2 (unfence_removes_the_fence "```sql"
                           ("```sql" ++ nl ++ "SELECT 1" ++ nl ++ "```")))).
    reflexivity.
  - apply (proj2 (proj2 (unfence_removes_the_fence "```sql" "``` SELECT 1 ```"))).
    reflexivity.
Defined.

Lemma blank_question_is_refused_witness :
  process_request_async MoreScenarios.failing_runtime ("  " ++ nl)
  = Return ("Error: Please enter a question", None, None,
            PStr "Error: No question provided").
Proof.
  apply (blank_question_is_refused MoreScenarios.failing_runtime ("  " ++ nl)).
  reflexivity.
Defined.

Lemma failed_query_is_reported_witness :
  process_request_async
    (Scenarios.runtime MoreScenarios.failed_results (fun df => ExecReturns None df))
    Scenarios.sample_question
  = Return ("-- Error executing query" ++ nl
            ++ "SELECT Category, COUNT(*) AS n FROM Products GROUP BY Category"
            ++ nl ++ nl ++ "-- Error: SQL error: Invalid object name 'Product'",
            None, None,
            PStr "Error executing query: SQL error: Invalid object name 'Product'")
  /\ process_request_async
       (Scenarios.runtime MoreScenarios.results_without_query_results
          (fun df => ExecReturns None df))
       Scenarios.sample_question
     = Return ("-- Error executing query" ++ nl ++ "SELECT 1" ++ nl ++ nl
               ++ "-- Error: Unknown error",
               None, None, PStr "Error executing query: Unknown error").
Proof.
  split.
  - refine (proj1 (failed_query_is_reported
              (Scenarios.runtime MoreScenarios.failed_results (fun df => ExecReturns None df))
              Scenarios.sample_question MoreScenarios.failed_results
              "```sql SELECT Category, COUNT(*) AS n FROM Products GROUP BY Category```"
              _ _ _)
              [("success", PBool false); ("data", PList []); ("columns", PList []);
               ("row_count", PInt 0);
               ("error", PStr "SQL error: Invalid object name 'Product'")] _ _);
      vm_compute; reflexivity.
  - refine (proj2 (failed_query_is_reported
              (Scenarios.runtime MoreScenarios.results_without_query_results
                 (fun df => ExecReturns None df))
              Scenarios.sample_question MoreScenarios.results_without_query_results
              "SELECT 1" _ _ _) _ _);
      vm_compute; reflexivity.
Defined.

Lemma empty_result_skips_the_chart_witness :
  process_request_async
    (Scenarios.runtime MoreScenarios.empty_results (fun df => ExecReturns None df))
    Scenarios.sample_question
  = Return ("SELECT Category, COUNT(*) AS n FROM Products GROUP BY Category",
            Some empty_frame, None,
            PStr "The query executed successfully but returned no data.").
Proof.
  refine (empty_result_skips_the_chart
            (Scenarios.runtime MoreScenarios.empty_results (fun df => ExecReturns None df))
            Scenarios.sample_question MoreScenarios.empty_results
            [("success", PBool true); ("data", PList []);
             ("columns", PList [PStr "Category"; PStr "n"]);
             ("row_count", PInt 0); ("error", PNone)]
            "```sql SELECT Category, COUNT(*) AS n FROM Products GROUP BY Category```"
            _ _ _ _ _ _);
    vm_compute; reflexivity.
Defined.

Lemma other_failures_take_the_response_witness :
  process_request_async MoreScenarios.failing_runtime Scenarios.sample_question
  = Return ("Error: 429 RESOURCE_EXHAUSTED", None, None,
            PStr "Error: 429 RESOURCE_EXHAUSTED")
  /\ process_request_async
       (Scenarios.runtime MoreScenarios.list_results (fun df => ExecReturns None df))
       Scenarios.sample_question
     = Return ("Error: 'list' object has no attribute 'get'", None, None,
               PStr "Error: 'list' object has no attribute 'get'")
  /\ AppEntry.process_request MoreScenarios.failing_runtime Scenarios.sample_question
     = process_request_async MoreScenarios.failing_runtime Scenarios.sample_question.
Proof.
  split; [|split].
  - refine (proj1 (other_failures_take_the_response MoreScenarios.failing_runtime
                     Scenarios.sample_question _)
              (Exception "429 RESOURCE_EXHAUSTED") _ _); reflexivity.
  - refine (proj1 (proj2 (other_failures_take_the_response
                     (Scenarios.runtime MoreScenarios.list_results
                        (fun df => ExecReturns None df))
                     Scenarios.sample_question _))
              MoreScenarios.list_results
              "```sql SELECT Category, COUNT(*) AS n FROM Products GROUP BY Category```"
              (PList [PInt 1; PInt 2]) _ _ _ _);
      try (vm_compute; reflexivity). discriminate.
  - refine (proj2 (proj2 (other_failures_take_the_response MoreScenarios.failing_runtime
                            Scenarios.sample_question _))).
    reflexivity.
Defined.

Lemma successful_run_shows_the_frame_of_the_chart_code_witness :
  process_request_async
    (Scenarios.runtime
       (Scenarios.sample_results Scenarios.sample_json "df.drop(columns=['n'], inplace=True)")
       MoreScenarios.chartless_code_outcome)
    Scenarios.sample_question
  = Return ("SELECT Category, COUNT(*) AS n FROM Products GROUP BY Category",
            Some {| df_columns := ["Category"];
                    df_rows := [[CStr "Bikes"]; [CStr "Helmets"]] |},
            None, PStr "Bikes lead with 3 products.").
Proof.
  refine (proj2 (successful_run_shows_the_frame_of_the_chart_code
            (Scenarios.runtime
               (Scenarios.sample_results Scenarios.sample_json
                  "df.drop(columns=['n'], inplace=True)")
               MoreScenarios.chartless_code_outcome)
            Scenarios.sample_question
            (Scenarios.sample_results Scenarios.sample_json
               "df.drop(columns=['n'], inplace=True)")
            [("success", PBool true);
             ("data", PList [PDict [("Category", PStr "Bikes"); ("n", PInt 3)];
                             PDict [("Category", PStr "Helmets"); ("n", PInt (-1))]]);
             ("columns", PList [PStr "Category"; PStr "n"]);
             ("row_count", PInt 2); ("error", PNone)]
            "```sql SELECT Category, COUNT(*) AS n FROM Products GROUP BY Category```"
            "df.drop(columns=['n'], inplace=True)"
            {| df_columns := ["Category"; "n"];
               df_rows := [[CStr "Bikes"; CInt 3]; [CStr "Helmets"; CInt (-1)]] |}
            _ _ _ _ _ _ _ _) _ None _ _);
    try (vm_compute; reflexivity). discriminate.
Defined.

End AppExtraFacts.

(* ===================================================================== *)
(** * The pipeline run of [app.py] *)
(* ===================================================================== *)

Module PipelineFacts.
Import Py Db Tools AppEntry.

Lemma lookup_set {V} (k k' : string) (v : V) d :
  lookup k (set k' v d) = if String.eqb k k' then Some v else lookup k d.
Proof.
  induction d as [|[k0 v0] d IH]; cbn [set lookup].
  - by destruct (String.eqb k k').
  - destruct (String.eqb_spec k' k0) as [->|Hne]; cbn [lookup].
    + by destruct (String.eqb k k0).
    + rewrite IH. destruct (String.eqb_spec k k0) as [->|]; [|done].
      destruct (String.eqb_spec k0 k'); [congruence|done].
Qed.

Lemma lookup_absent {V} (k : string) (d : list (string * V)) :
  k ∉ keys d -> lookup k d = None.
Proof.
  induction d as [|[k0 v0] d IH]; cbn; [done|].
  intros [Hne Hd]%not_elem_of_cons. destruct (String.eqb_spec k k0); [done|]. by apply IH.
Qed.

Lemma lookup_merge_delta (k : string) (delta : dict) : forall results,
  NoDup (keys delta) ->
  lookup k (merge_delta results delta)
  = match lookup k delta with Some v => Some v | None => lookup k results end.
Proof.
  unfold merge_delta. induction delta as [|[k0 v0] delta IH]; intros results Hnd; [done|].
  cbn [keys map fst] in Hnd. apply NoDup_cons in Hnd as [Hfresh Hnd].
  cbn [fold_left fst snd lookup]. rewrite IH by done. rewrite lookup_set.
  destruct (String.eqb_spec k k0) as [->|]; [|done].
  by rewrite (lookup_absent k0 delta).
Qed.

Lemma collect_snoc deltas delta : collect (deltas ++ [delta]) = merge_delta (collect deltas) delta.
Proof. unfold collect. by rewrite fold_left_app. Qed.

Lemma lookup_collect (k : string) (deltas : list dict) :
  Forall (fun d => NoDup (keys d)) deltas ->
  (Forall (fun d => lookup k d = None) deltas -> lookup k (collect deltas) = None)
  /\ (forall before delta after v,
        deltas = (before ++ delta :: after)%list ->
        lookup k delta = Some v ->
        Forall (fun d => lookup k d = None) after ->
        lookup k (collect deltas) = Some v).
Proof.
  induction deltas as [|d deltas IH] using rev_ind; intros Hnd.
  - split; [done|]. intros [|] ? ? ? H; discriminate H.
  - apply Forall_app in Hnd as [Hnd Hd]. apply Forall_cons in Hd as [Hd _].
    destruct (IH Hnd) as [IHnone IHsome].
    rewrite collect_snoc, lookup_merge_delta by done. split.
    + intros [Hall Hlast]%Forall_app. apply Forall_cons in Hlast as [-> _]. by apply IHnone.
    + intros before delta after v Heq Hv Hafter.
      destruct after as [|a after _] using rev_ind.
      * apply app_inj_tail in Heq as [-> ->]. by rewrite Hv.
      * rewrite app_comm_cons, app_assoc in Heq. apply app_inj_tail in Heq as [-> ->].
        apply Forall_app in Hafter as [Hafter Ha]. apply Forall_cons in Ha as [-> _].
        by apply (IHsome before delta after).
Qed.

(** X22.  The results of a pipeline run hold, for every key, what the
    last event that wrote the key wrote, and nothing for a key no event
    wrote; when the run of the agents raises, the exception leaves
    [run_bi_pipeline_async] and what the events had written is lost.  The
    database sees [get_database_schema] first and then whatever the tools
    of the agents did during the run, also when the run raises. *)
Theorem pipeline_results_hold_the_last_writes (w : World) (runner : Runner)
    (user_question session schema_context : string) (tr run_trace : list db_event)
    (deltas : list dict) (raised : option exn) :
  create_session runner = Return session ->
  get_database_schema w = (Return schema_context, tr) ->
  run_async runner session (enhanced_prompt schema_context user_question)
  = (deltas, raised, run_trace) ->
  Forall (fun d => NoDup (keys d)) deltas ->
  match raised with
  | Some e =>
      run_bi_pipeline_async w runner user_question = (Raise e, (tr ++ run_trace)%list)
  | None =>
      exists results,
        run_bi_pipeline_async w runner user_question
        = (Return results, (tr ++ run_trace)%list)
        /\ forall k,
             (Forall (fun d => lookup k d = None) deltas -> lookup k results = None)
             /\ (forall before delta after v,
                   deltas = (before ++ delta :: after)%list ->
                   lookup k delta = Some v ->
                   Forall (fun d => lookup k d = None) after ->
                   lookup k results = Some v)
  end.
Proof.
  intros Hs Hschema Hrun Hnd. unfold run_bi_pipeline_async, io_bind, io_lift.
  rewrite Hs, Hschema. cbn [app]. rewrite Hrun.
  destruct raised as [e|]; [done|].
  exists (collect deltas). split; [done|]. intros k. by apply lookup_collect.
Qed.

(** *** Instances *)

Lemma pipeline_results_hold_the_last_writes_witness :
  exists results,
    run_bi_pipeline_async Scenarios.sample_world MoreScenarios.sample_runner
      Scenarios.sample_question
    = (Return results,
       [EvCreateEngine Scenarios.sample_url; EvDispose;
        EvCreateEngine Scenarios.sample_url; EvConnect; EvExecute "SELECT 1"; EvDispose])
    /\ lookup "sql_query" results = Some (PStr "SELECT 2")
    /\ lookup "query_results" results = Some (PStr "{}")
    /\ lookup "explanation_text" results = None.
Proof.
  destruct (pipeline_results_hold_the_last_writes Scenarios.sample_world
              MoreScenarios.sample_runner Scenarios.sample_question "session-1"
              (match fst (get_database_schema Scenarios.sample_world) with
               | Return text => text
               | Raise _ => EmptyString
               end)
              [EvCreateEngine Scenarios.sample_url; EvDispose]
              [EvCreateEngine Scenarios.sample_url; EvConnect; EvExecute "SELECT 1";
               EvDispose]
              [[("sql_query", PStr "SELECT 1")];
               [];
               [("query_results", PStr "{}")];
               [("sql_query", PStr "SELECT 2"); ("chart_spec", PStr EmptyString)]]
              None)
    as (results & Hrun & Hk).
  - reflexivity.
  - vm_compute. reflexivity.
  - vm_compute. reflexivity.
  - repeat constructor; apply (bool_decide_unpack _); by vm_compute.
  - exists results. split; [exact Hrun|]. split; [|split].
    + apply (proj2 (Hk "sql_query")
               [[("sql_query", PStr "SELECT 1")]; []; [("query_results", PStr "{}")]]
               [("sql_query", PStr "SELECT 2"); ("chart_spec", PStr EmptyString)] []);
        [reflexivity|reflexivity|constructor].
    + apply (proj2 (Hk "query_results")
               [[("sql_query", PStr "SELECT 1")]; []]
               [("query_results", PStr "{}")]
               [[("sql_query", PStr "SELECT 2"); ("chart_spec", PStr EmptyString)]]);
        [reflexivity|reflexivity|by repeat constructor].
    + apply (proj1 (Hk "explanation_text")). by repeat constructor.
Defined.

End PipelineFacts.
